(** * protoc-gen-doc: the document model builder and the generator life cycle

    A shallow embedding of [src/main.cpp]: the naming resolver ([longName]),
    the comment extractor ([descriptionOf], for schema elements and for whole
    files), the document model builder ([addField] ... [addFile]), the
    parameter parser, the template filters, the renderer and
    [DocGenerator::Generate], followed by the properties the specification
    states about them and by further properties of the code.

    Conventions.
    - A [QString] and a [std::string] are Rocq [string]s; one character is
      one [ascii].  Schema identifiers, the comment markers and the
      configuration tokens are ASCII, where both agree with UTF-16 order.
    - A [QVariantHash] is a [gmap string QVariant], a [QVariantList] a list.
    - A descriptor pointer is an [option]; [None] is the null pointer.
    - The process-wide [generatorContext] is passed and returned explicitly.
    - Files and bundled resources are read from an explicit [World]. *)

From stdpp Require Import gmap strings list.
From Stdlib Require Import ZArith Ascii String DecimalString.
From Stdlib Require Import Sorting.Sorted Sorting.Permutation.

Set Warnings "-register-all".
Local Open Scope Z_scope.

(** ** Qt strings *)

Module QStr.

(** [QChar::isSpace] on the ASCII range: tab, line feed, vertical tab, form
    feed, carriage return and blank. *)
Definition isSpace (c : ascii) : bool := Ascii.is_space c.

Definition size (s : string) : Z := Z.of_nat (String.length s).

Definition isEmpty (s : string) : bool :=
  match s with EmptyString => true | String _ _ => false end.

(** [s.startsWith(p)] *)
Definition startsWith (s p : string) : bool := String.prefix p s.

Fixpoint drop (n : nat) (s : string) : string :=
  match n, s with
  | O, _ => s
  | S _, EmptyString => EmptyString
  | S n', String _ s' => drop n' s'
  end.

Fixpoint take (n : nat) (s : string) : string :=
  match n, s with
  | O, _ => EmptyString
  | S _, EmptyString => EmptyString
  | S n', String c s' => String c (take n' s')
  end.

(** [s.mid(position, n)] for a position that is not negative, as at every
    call site: a negative [n] (the default is -1) or one that exceeds what
    is left takes all the characters from [position] on. *)
Definition mid_n (s : string) (position : nat) (n : Z) : string :=
  if n <? 0 then drop position s else take (Z.to_nat n) (drop position s).

Definition mid (s : string) (position : nat) : string := mid_n s position (-1).

(** [s.left(n)]: the entire string when [n] is negative or at least
    [size s]. *)
Definition left (s : string) (n : Z) : string :=
  if (n <? 0) || (size s <=? n) then s else take (Z.to_nat n) s.

(** [s.indexOf(p)]: the position of the first occurrence, or -1. *)
Fixpoint indexOf_from (i : Z) (s p : string) : Z :=
  if startsWith s p then i
  else match s with
       | EmptyString => -1
       | String _ s' => indexOf_from (i + 1) s' p
       end.

Definition indexOf (s p : string) : Z := indexOf_from 0 s p.

Fixpoint dropSpaces (s : string) : string :=
  match s with
  | EmptyString => EmptyString
  | String c s' => if isSpace c then dropSpaces s' else s
  end.

(** Removes the white space that ends [s]. *)
Fixpoint dropSpacesEnd (s : string) : string :=
  match s with
  | EmptyString => EmptyString
  | String c s' =>
      match dropSpacesEnd s' with
      | EmptyString => if isSpace c then EmptyString else String c EmptyString
      | t => String c t
      end
  end.

(** [s.trimmed()] *)
Definition trimmed (s : string) : string := dropSpacesEnd (dropSpaces s).

(** [s.split(sep)] for a one-character separator, empty parts kept: the
    empty string splits into one empty token. *)
Fixpoint split (sep : ascii) (s : string) : list string :=
  match s with
  | EmptyString => [EmptyString]
  | String c s' =>
      if Ascii.eqb c sep then EmptyString :: split sep s'
      else match split sep s' with
           | [] => [String c EmptyString]
           | t :: ts => String c t :: ts
           end
  end.

(** [parts.join(sep)] *)
Definition join (sep : string) (parts : list string) : string :=
  String.concat sep parts.

(** [s.replace(QRegularExpression("^ ", MultilineOption), "")]: one blank
    is removed where a line starts, that is at the start of the string and
    after every line feed.  [bol] tells whether the position is such a
    start. *)
Fixpoint removeLeadingSpace_from (bol : bool) (s : string) : string :=
  match s with
  | EmptyString => EmptyString
  | String c s' =>
      if bol && Ascii.eqb c " " then removeLeadingSpace_from false s'
      else String c (removeLeadingSpace_from (Ascii.eqb c "010") s')
  end.

Definition removeLeadingSpace (s : string) : string :=
  removeLeadingSpace_from true s.

(** The double quote as a string. *)
Definition quote : string := String "034" EmptyString.

(** The line feed character as a string. *)
Definition LF : string := String "010" EmptyString.

(** [QString::number(n)] for an integer. *)
Definition number (n : Z) : string := NilZero.string_of_int (Z.to_int n).

(** *** [QString::arg]

    [s.arg(a)] replaces the place markers of [s] that carry the lowest
    number, and only those, by [a].  A marker is [%], an optional [L] and
    one or two decimal digits; a string without markers is returned as it
    is.  [argPieces] cuts a string the way Qt's [findArgEscapes] walks it:
    after a [%] (or [%L]) that no digit follows, scanning resumes at the
    character that was looked at. *)
Inductive ArgPiece :=
| Literal (c : ascii)
| Escape (number : nat) (text : string).

Definition digitValue (c : ascii) : option nat := Ascii.is_nat c.

(** The marker whose first digit is [c1], of value [d], after [text]; [s]
    follows that digit.  Returns the marker and whether it takes a second
    digit from [s]. *)
Definition escapeAt (text : string) (d : nat) (c1 : ascii) (s : string)
  : ArgPiece * bool :=
  match s with
  | String c2 _ =>
      match digitValue c2 with
      | Some e => (Escape (10 * d + e) (text +:+ String c1 (String c2 "")), true)
      | None => (Escape d (text +:+ String c1 ""), false)
      end
  | EmptyString => (Escape d (text +:+ String c1 ""), false)
  end.

Fixpoint argPieces (s : string) : list ArgPiece :=
  match s with
  | EmptyString => []
  | String c s1 =>
      if negb (Ascii.eqb c "%") then Literal c :: argPieces s1
      else
        match s1 with
        | EmptyString => [Literal c]
        | String c1 s2 =>
            if Ascii.eqb c1 "L" then
              match s2 with
              | EmptyString => [Literal c; Literal c1]
              | String c2 s3 =>
                  match digitValue c2 with
                  | None => Literal c :: Literal c1 :: argPieces s2
                  | Some d =>
                      match escapeAt "%L" d c2 s3 with
                      | (e, true) =>
                          e :: match s3 with
                               | String _ s4 => argPieces s4
                               | EmptyString => []
                               end
                      | (e, false) => e :: argPieces s3
                      end
                  end
              end
            else
              match digitValue c1 with
              | None => Literal c :: argPieces s1
              | Some d =>
                  match escapeAt "%" d c1 s2 with
                  | (e, true) =>
                      e :: match s2 with
                           | String _ s3 => argPieces s3
                           | EmptyString => []
                           end
                  | (e, false) => e :: argPieces s2
                  end
              end
        end
  end.

(** The lowest marker number of a string, if it has a marker. *)
Fixpoint minEscape (ps : list ArgPiece) : option nat :=
  match ps with
  | [] => None
  | Literal _ :: ps' => minEscape ps'
  | Escape n _ :: ps' =>
      match minEscape ps' with
      | None => Some n
      | Some m => Some (Nat.min n m)
      end
  end.

Fixpoint replaceEscapes (lowest : nat) (a : string) (ps : list ArgPiece) : string :=
  match ps with
  | [] => EmptyString
  | Literal c :: ps' => String c (replaceEscapes lowest a ps')
  | Escape n text :: ps' =>
      (if Nat.eqb n lowest then a else text) +:+ replaceEscapes lowest a ps'
  end.

Definition arg (s a : string) : string :=
  match minEscape (argPieces s) with
  | None => s
  | Some lowest => replaceEscapes lowest a (argPieces s)
  end.

(** *** Byte arrays *)

(** [QByteArray(value.c_str())]: the constructor is given a plain
    [const char *] and no length, so it copies up to the first zero
    byte. *)
Fixpoint fromCStr (value : string) : string :=
  match value with
  | EmptyString => EmptyString
  | String c value' =>
      if Ascii.eqb c "000" then EmptyString else String c (fromCStr value')
  end.

Definition hexDigit (n : N) : ascii :=
  match String.get (N.to_nat n) "0123456789abcdef" with
  | Some c => c
  | None => "0"
  end.

(** [QByteArray::toHex]: two lower-case digits for every byte. *)
Fixpoint toHex (bytes : string) : string :=
  match bytes with
  | EmptyString => EmptyString
  | String c bytes' =>
      String (hexDigit (N.div (N_of_ascii c) 16))
        (String (hexDigit (N.modulo (N_of_ascii c) 16)) (toHex bytes'))
  end.

(** [QFileInfo(path).fileName()]: what follows the last slash. *)
Fixpoint fileName (path : string) : string :=
  match path with
  | EmptyString => EmptyString
  | String c path' =>
      if (0 <=? indexOf path "/") then fileName path' else path
  end.

(** *** Line breaks and paragraphs *)

(** The carriage return as a string. *)
Definition CR : string := String "013" EmptyString.

(** [s.remove(p)]: every occurrence of [p] is taken out, in one pass from
    left to right; the search goes on behind an occurrence that was taken
    out.  [skip] counts the characters of such an occurrence that are still
    to be passed over. *)
Fixpoint remove_from (skip : nat) (s p : string) : string :=
  match s with
  | EmptyString => EmptyString
  | String c s' =>
      match skip with
      | S skip' => remove_from skip' s' p
      | O =>
          if negb (QStr.isEmpty p) && QStr.startsWith s p then
            remove_from (String.length p - 1) s' p
          else String c (remove_from 0 s' p)
      end
  end.

Definition remove (s p : string) : string := remove_from 0 s p.

(** A line feed or a carriage return. *)
Definition isBreak (c : ascii) : bool := Ascii.eqb c "010" || Ascii.eqb c "013".

(** When the white space that [s] begins with holds a line break: the
    length of that white space up to its last line break. *)
Fixpoint lastBreak (s : string) : option nat :=
  match s with
  | EmptyString => None
  | String c s' =>
      if QStr.isSpace c then
        match lastBreak s' with
        | Some n => Some (S n)
        | None => if isBreak c then Some 1%nat else None
        end
      else None
  end.

(** [s.split(QRegularExpression("(\\n|\\r|\\r\\n)\\s*(\\n|\\r|\\r\\n)"))],
    empty parts kept.  The expression matches where a line break is
    followed by white space that holds another line break; being greedy,
    [\s*] takes the white space up to the last such line break.  A carriage
    return followed by a line feed is such a place.  The matches are found
    from left to right, each search starting where the last match ended.
    [skip] counts the characters of a match that are still to be passed
    over; the head of the result is the part being read. *)
Fixpoint splitParagraphs_from (skip : nat) (s : string) : list string :=
  match s with
  | EmptyString => [EmptyString]
  | String c s' =>
      match skip with
      | S skip' => splitParagraphs_from skip' s'
      | O =>
          match (if isBreak c then lastBreak s' else None) with
          | Some n => EmptyString :: splitParagraphs_from n s'
          | None =>
              match splitParagraphs_from 0 s' with
              | [] => [String c EmptyString]
              | part :: parts => String c part :: parts
              end
          end
      end
  end.

Definition splitParagraphs (s : string) : list string := splitParagraphs_from 0 s.

End QStr.

(** ** Qt variants *)

(** The template filters [main.cpp] registers; the engine calls them. *)
Inductive Filter := pFilter | paraFilter | nobrFilter.

Inductive QVariant :=
| QVInvalid
| QVString (s : string)
| QVBool (b : bool)
| QVInt (n : Z)
| QVList (l : list QVariant)
| QVHash (h : gmap string QVariant)
| QVFilter (f : Filter).

Abbreviation QVariantList := (list QVariant).
Abbreviation QVariantHash := (gmap string QVariant).

(** [list.isEmpty()] *)
Definition isEmptyList {A} (l : list A) : bool :=
  match l with [] => true | _ :: _ => false end.

(** [v.toHash()]: empty unless the variant holds a hash. *)
Definition toHash (v : QVariant) : QVariantHash :=
  match v with QVHash h => h | _ => ∅ end.

(** [v.toString()]: empty for an invalid variant, a list or a hash. *)
Definition toString (v : QVariant) : string :=
  match v with
  | QVString s => s
  | QVBool b => if b then "true" else "false"
  | QVInt n => QStr.number n
  | _ => ""
  end.

(** [h[key]] read on a temporary hash: a default-constructed, invalid
    variant when the key is missing. *)
Definition value (h : QVariantHash) (key : string) : QVariant :=
  default QVInvalid (h !! key).

(** ** [std::sort]

    The library's algorithm is not part of the sources; the standard only
    promises a permutation that the comparator finds in order.  What is
    given here is libstdc++'s [__insertion_sort], which is all [std::sort]
    runs on a range of at most 16 elements; on a longer range the library
    partitions first, and the order it leaves among equivalent elements
    is not the one given here.  No statement below depends on that order
    for a range of more than 16 elements.  The prefix already sorted is
    kept reversed, so that its head is the element next to the one being
    inserted. *)
Section StdSort.
Context {A : Type} (comp : A → A → bool).

(** [__unguarded_linear_insert]: [val] moves left past every element it
    compares less than. *)
Fixpoint linear_insert (val : A) (rprefix : list A) : list A :=
  match rprefix with
  | [] => [val]
  | next :: rest =>
      if comp val next then next :: linear_insert val rest
      else val :: rprefix
  end.

(** One round of the loop: an element that compares less than the first
    of the range goes to the front, any other is inserted linearly. *)
Definition insertion_step (rprefix : list A) (val : A) : list A :=
  match last rprefix with
  | Some first =>
      if comp val first then rprefix ++ [val] else linear_insert val rprefix
  | None => [val]
  end.

Definition std_sort (l : list A) : list A :=
  rev (fold_left insertion_step l []).

(** Orders by a string key, and what it means for the comparator to be [<]
    on that key for the elements of a range. *)
Context (key : A → string).

Definition ascending (l : list A) : Prop :=
  StronglySorted (λ a b, String.le (key a) (key b)) l.

Definition descending (l : list A) : Prop :=
  StronglySorted (λ a b, String.le (key b) (key a)) l.

Definition byKey (l : list A) : Prop :=
  ∀ x y, In x l → In y l → comp x y = String.ltb (key x) (key y).
End StdSort.

(** ** Descriptors

    What the generator reads of protobuf's descriptor tree. *)

Module gp.

Record SourceLocation := {
  leading_comments : string;
  trailing_comments : string
}.

(** [FieldDescriptor::Type] *)
Inductive Type_ :=
| TYPE_DOUBLE | TYPE_FLOAT | TYPE_INT64 | TYPE_UINT64 | TYPE_INT32
| TYPE_FIXED64 | TYPE_FIXED32 | TYPE_BOOL | TYPE_STRING | TYPE_GROUP
| TYPE_MESSAGE | TYPE_BYTES | TYPE_UINT32 | TYPE_ENUM | TYPE_SFIXED32
| TYPE_SFIXED64 | TYPE_SINT32 | TYPE_SINT64.

(** [FieldDescriptor::CppType] *)
Inductive CppType :=
| CPPTYPE_INT32 | CPPTYPE_INT64 | CPPTYPE_UINT32 | CPPTYPE_UINT64
| CPPTYPE_DOUBLE | CPPTYPE_FLOAT | CPPTYPE_BOOL | CPPTYPE_ENUM
| CPPTYPE_STRING | CPPTYPE_MESSAGE.

(** [FieldDescriptor::Label] *)
Inductive Label := LABEL_OPTIONAL | LABEL_REQUIRED | LABEL_REPEATED.

(** A message or enum type as seen through a pointer that leads out of the
    element at hand ([containing_type()], [extension_scope()],
    [message_type()], [enum_type()], [input_type()], [output_type()]): its
    names and, again, the type that encloses it. *)
Inductive DescriptorRef := mkRef {
  ref_name : string;
  ref_full_name : string;
  ref_containing_type : option DescriptorRef
}.

(** A [float] or [double] default.  Floating-point values are kept as the
    text [QString::number] prints for them (format [g], six significant
    digits); nothing is computed with them. *)
Record Real := { printed : string }.

Record EnumValueDescriptor := {
  value_name : string;
  value_number : Z;
  value_location : SourceLocation
}.

Record EnumDescriptor := {
  enum_name : string;
  enum_full_name : string;
  enum_containing_type : option DescriptorRef;
  enum_location : SourceLocation;
  enum_value : list EnumValueDescriptor
}.

Record FieldDescriptor := {
  field_name : string;
  field_full_name : string;
  field_location : SourceLocation;
  number : Z;
  label : Label;
  type : Type_;
  cpp_type : CppType;
  is_extension : bool;
  extension_scope : option DescriptorRef;
  field_containing_type : option DescriptorRef;
  message_type : option DescriptorRef;
  enum_type_of : option DescriptorRef;
  has_default_value : bool;
  default_value_string : string;
  default_value_bool : bool;
  default_value_float : Real;
  default_value_double : Real;
  default_value_int32 : Z;
  default_value_int64 : Z;
  default_value_uint32 : Z;
  default_value_uint64 : Z;
  default_value_enum : option EnumValueDescriptor
}.

(** A message type with what is declared inside it. *)
Inductive Descriptor := mkDescriptor {
  message_name : string;
  message_full_name : string;
  message_containing_type : option DescriptorRef;
  message_location : SourceLocation;
  field : list FieldDescriptor;
  extension : list FieldDescriptor;
  nested_type : list Descriptor;
  enum_type : list EnumDescriptor
}.

Record MethodDescriptor := {
  method_name : string;
  method_location : SourceLocation;
  input_type : DescriptorRef;
  output_type : DescriptorRef
}.

Record ServiceDescriptor := {
  service_name : string;
  service_full_name : string;
  service_location : SourceLocation;
  method : list MethodDescriptor
}.

Record FileDescriptor := {
  file_name : string;
  package : string;
  file_message_type : list Descriptor;
  file_enum_type : list EnumDescriptor;
  file_service : list ServiceDescriptor;
  file_extension : list FieldDescriptor
}.

(** The accessors the templates of the generator call on any descriptor. *)
Class Named (T : Type) := name : T → string.
Class FullyNamed (T : Type) := full_name : T → string.
Class Contained (T : Type) := containing_type : T → option DescriptorRef.
Class Located (T : Type) := GetSourceLocation : T → SourceLocation.

#[export] Instance ref_Named : Named DescriptorRef := ref_name.
#[export] Instance ref_FullyNamed : FullyNamed DescriptorRef := ref_full_name.
#[export] Instance ref_Contained : Contained DescriptorRef := ref_containing_type.

#[export] Instance message_Named : Named Descriptor := message_name.
#[export] Instance message_FullyNamed : FullyNamed Descriptor := message_full_name.
#[export] Instance message_Contained : Contained Descriptor := message_containing_type.
#[export] Instance message_Located : Located Descriptor := message_location.

#[export] Instance enum_Named : Named EnumDescriptor := enum_name.
#[export] Instance enum_FullyNamed : FullyNamed EnumDescriptor := enum_full_name.
#[export] Instance enum_Contained : Contained EnumDescriptor := enum_containing_type.
#[export] Instance enum_Located : Located EnumDescriptor := enum_location.

#[export] Instance value_Named : Named EnumValueDescriptor := value_name.
#[export] Instance value_Located : Located EnumValueDescriptor := value_location.

#[export] Instance field_Named : Named FieldDescriptor := field_name.
#[export] Instance field_FullyNamed : FullyNamed FieldDescriptor := field_full_name.
#[export] Instance field_Contained : Contained FieldDescriptor := field_containing_type.
#[export] Instance field_Located : Located FieldDescriptor := field_location.

#[export] Instance method_Named : Named MethodDescriptor := method_name.
#[export] Instance method_Located : Located MethodDescriptor := method_location.

#[export] Instance service_Named : Named ServiceDescriptor := service_name.
#[export] Instance service_FullyNamed : FullyNamed ServiceDescriptor := service_full_name.
#[export] Instance service_Located : Located ServiceDescriptor := service_location.

#[export] Instance file_Named : Named FileDescriptor := file_name.

(** [p->name()] and [p->full_name()] through a pointer.  The generator
    dereferences [message_type()], [enum_type()] and [default_value_enum()]
    only where protobuf returns an object; the null case gets empty names so
    that the functions below are total. *)
Definition name_at {T} `{Named T} (p : option T) : string :=
  match p with Some d => name d | None => "" end.

Definition full_name_at {T} `{FullyNamed T} (p : option T) : string :=
  match p with Some d => full_name d | None => "" end.

End gp.

Import gp.

(** ** The generator *)

(** Context class for the documentation generator. *)
Record DocGeneratorContext := {
  template_ : string;       (* Mustache template, or empty for raw JSON output *)
  outputFileName : string;
  noExclude : bool;         (* ignore @exclude directives? *)
  files : QVariantList      (* list of files to render *)
}.

(** The static instance before the first invocation. *)
Definition generatorContext : DocGeneratorContext :=
  {| template_ := ""; outputFileName := ""; noExclude := false; files := [] |}.

(** *** Naming resolver *)

(** [longName] at [T = Descriptor], where the template calls itself. *)
Fixpoint longName_Descriptor (descriptor : DescriptorRef) : string :=
  match descriptor with
  | mkRef n _ None => n
  | mkRef n _ (Some enclosing) => longName_Descriptor enclosing +:+ "." +:+ n
  end.

(** The template [longName<T>]. *)
Definition longName {T} `{Named T} `{Contained T} (descriptor : option T) : string :=
  match descriptor with
  | None => ""
  | Some d =>
      match containing_type d with
      | None => name d
      | Some enclosing => longName_Descriptor enclosing +:+ "." +:+ name d
      end
  end.

(** The specialization for [T = FieldDescriptor]. *)
Definition longName_FieldDescriptor (fieldDescriptor : FieldDescriptor) : string :=
  if is_extension fieldDescriptor then
    longName (extension_scope fieldDescriptor) +:+ "." +:+ name fieldDescriptor
  else
    longName (field_containing_type fieldDescriptor) +:+ "." +:+ name fieldDescriptor.

(** The comparator handed to [std::sort]. *)
Definition longNameLessThan (v1 v2 : QVariant) : bool :=
  if String.ltb (toString (value (toHash v1) "message_long_name"))
                (toString (value (toHash v2) "message_long_name")) then true
  else if String.ltb (toString (value (toHash v1) "enum_long_name"))
                     (toString (value (toHash v2) "enum_long_name")) then true
  else String.ltb (toString (value (toHash v1) "extension_long_name"))
                  (toString (value (toHash v2) "extension_long_name")).

(** The text a record holds under [key], as the comparator reads it: empty
    when the record has no such entry. *)
Definition entry (key : string) (v : QVariant) : string :=
  toString (value (toHash v) key).

(** *** Comment extractor *)

(** A leading or trailing comment counts when it was written in
    documentation style, which leaves a star or a slash as its first
    character. *)
Definition docComment (comment : string) : string :=
  if QStr.startsWith comment "*" || QStr.startsWith comment "/" then
    QStr.removeLeadingSpace (QStr.mid comment 1)
  else "".

(** The check that ends both [descriptionOf] functions. *)
Definition checkExcluded (ctx : DocGeneratorContext) (description : string)
  : string * bool :=
  let description := QStr.trimmed description in
  if QStr.startsWith description "@exclude" then
    (QStr.mid description 8, negb (noExclude ctx))
  else (description, false).

(** The leading comment followed by the trailing comment. *)
Definition comments {T} `{Located T} (descriptor : T) : string :=
  let sourceLocation := GetSourceLocation descriptor in
  docComment (leading_comments sourceLocation) +:+
  docComment (trailing_comments sourceLocation).

(** The template [descriptionOf<T>]: the description and [excluded]. *)
Definition descriptionOf {T} `{Located T} (ctx : DocGeneratorContext) (descriptor : T)
  : string * bool :=
  checkExcluded ctx (comments descriptor).

(** What the generator reads from outside: files, bundled resources
    included, and the directory of bundled templates. *)
Record World := {
  (* QFile::open and readAll: the contents, or errorString() *)
  openFile : string → string + string;
  (* base names of the entries of :/templates that match *.mustache *)
  bundledTemplates : list string
}.

(** The lines [QTextStream::readLine] returns until [atEnd]: the text is cut
    at every line feed, and a line feed that ends the text opens no further
    line. *)
Fixpoint readLines (text : string) : list string :=
  match text with
  | EmptyString => []
  | String c text' =>
      if Ascii.eqb c "010" then EmptyString :: readLines text'
      else match readLines text' with
           | [] => [String c EmptyString]
           | line :: lines => String c line :: lines
           end
  end.

(** The loop over a run of [///] lines.  [line] has been read, [stream]
    holds the lines not read yet. *)
Fixpoint slashLines (stream : list string) (line description : string) : string :=
  match stream with
  | [] => description
  | next :: stream' =>
      if QStr.startsWith line "///" then
        slashLines stream' (QStr.trimmed next)
          (description +:+
           QStr.mid line (if QStr.startsWith line "/// " then 4 else 3) +:+ QStr.LF)
      else description
  end.

(** How much of a line inside a block is dropped: a star, and the blank after
    it.  On the line that closes the block ([last]) the star of [*/] is not
    dropped. *)
Definition blockStart (line : string) (last : bool) : nat :=
  ((if QStr.startsWith line "*" && negb (last && QStr.startsWith line "*/")
    then 1 else 0) +
   (if QStr.startsWith line "* " then 1 else 0))%nat.

(** The loop over the lines of a [/** ... */] block.  At the end of the
    stream [readLine] returns an empty line again and again; a block that is
    never closed keeps the loop running, which is [None]. *)
Fixpoint blockLines (stream : list string) (line description : string)
  : option string :=
  let end_ := QStr.indexOf line "*/" in
  if end_ =? -1 then
    match stream with
    | [] => None
    | next :: stream' =>
        blockLines stream' (QStr.trimmed next)
          (description +:+ QStr.mid line (blockStart line false) +:+ QStr.LF)
    end
  else
    let start := blockStart line true in
    Some (description +:+ QStr.mid_n line start (end_ - Z.of_nat start)).

(** The outer loop: blank lines are skipped, the first other line decides. *)
Fixpoint scanLines (stream : list string) : option string :=
  match stream with
  | [] => Some ""
  | next :: stream' =>
      let line := QStr.trimmed next in
      if QStr.isEmpty line then scanLines stream'
      else if QStr.startsWith line "///" then
        let description := slashLines stream' line "" in
        Some (QStr.left description (QStr.size description - 1))
      else if QStr.startsWith line "/**" && negb (QStr.startsWith line "/***/") then
        blockLines stream' (QStr.mid line 2) ""
      else Some ""
  end.

(** The outcome of [descriptionOf] for a file. *)
Inductive FileDescription :=
| OpenFailed (error : string)
| Described (description : string) (excluded : bool).

(** [descriptionOf(fileDescriptor, error, excluded)]; [None] when the scan
    does not terminate. *)
Definition descriptionOf_file (w : World) (ctx : DocGeneratorContext)
  (fileDescriptor : FileDescriptor) : option FileDescription :=
  let fileName := name fileDescriptor in
  match openFile w fileName with
  | inr errorString =>
      Some (OpenFailed (QStr.arg (QStr.arg "%1: %2" fileName) errorString))
  | inl text =>
      match scanLines (readLines text) with
      | None => None
      | Some description =>
          let '(description, excluded) := checkExcluded ctx description in
          Some (Described description excluded)
      end
  end.

(** *** Document model builder *)

Definition scalarTypeName (type : Type_) : string :=
  match type with
  | TYPE_BOOL => "bool"
  | TYPE_BYTES => "bytes"
  | TYPE_DOUBLE => "double"
  | TYPE_FIXED32 => "fixed32"
  | TYPE_FIXED64 => "fixed64"
  | TYPE_FLOAT => "float"
  | TYPE_INT32 => "int32"
  | TYPE_INT64 => "int64"
  | TYPE_SFIXED32 => "sfixed32"
  | TYPE_SFIXED64 => "sfixed64"
  | TYPE_SINT32 => "sint32"
  | TYPE_SINT64 => "sint64"
  | TYPE_STRING => "string"
  | TYPE_UINT32 => "uint32"
  | TYPE_UINT64 => "uint64"
  | _ => "<unknown>"
  end.

Definition labelName (label : Label) : string :=
  match label with
  | LABEL_OPTIONAL => "optional"
  | LABEL_REPEATED => "repeated"
  | LABEL_REQUIRED => "required"
  end.

Definition defaultValue (fieldDescriptor : FieldDescriptor) : string :=
  if has_default_value fieldDescriptor then
    match cpp_type fieldDescriptor with
    | CPPTYPE_STRING =>
        let value := default_value_string fieldDescriptor in
        match type fieldDescriptor with
        | TYPE_STRING => QStr.arg (QStr.quote +:+ "%1" +:+ QStr.quote) value
        | TYPE_BYTES => QStr.arg "0x%1" (QStr.toHex (QStr.fromCStr value))
        | _ => "Unknown"
        end
    | CPPTYPE_BOOL => if default_value_bool fieldDescriptor then "true" else "false"
    | CPPTYPE_FLOAT => printed (default_value_float fieldDescriptor)
    | CPPTYPE_DOUBLE => printed (default_value_double fieldDescriptor)
    | CPPTYPE_INT32 => QStr.number (default_value_int32 fieldDescriptor)
    | CPPTYPE_INT64 => QStr.number (default_value_int64 fieldDescriptor)
    | CPPTYPE_UINT32 => QStr.number (default_value_uint32 fieldDescriptor)
    | CPPTYPE_UINT64 => QStr.number (default_value_uint64 fieldDescriptor)
    | CPPTYPE_ENUM => name_at (default_value_enum fieldDescriptor)
    | _ => "Unknown"
    end
  else "".

(** The three type entries of a field or extension record, under the keys
    that start with [prefix]. *)
Definition typeInformation (prefix : string) (fieldDescriptor : FieldDescriptor)
  (record : QVariantHash) : QVariantHash :=
  match type fieldDescriptor with
  | TYPE_MESSAGE | TYPE_GROUP =>
      let descriptor := message_type fieldDescriptor in
      <[prefix +:+ "_full_type" := QVString (full_name_at descriptor)]>
      (<[prefix +:+ "_long_type" := QVString (longName descriptor)]>
      (<[prefix +:+ "_type" := QVString (name_at descriptor)]> record))
  | TYPE_ENUM =>
      let descriptor := enum_type_of fieldDescriptor in
      <[prefix +:+ "_full_type" := QVString (full_name_at descriptor)]>
      (<[prefix +:+ "_long_type" := QVString (longName descriptor)]>
      (<[prefix +:+ "_type" := QVString (name_at descriptor)]> record))
  | type =>
      let typeName := scalarTypeName type in
      <[prefix +:+ "_full_type" := QVString typeName]>
      (<[prefix +:+ "_long_type" := QVString typeName]>
      (<[prefix +:+ "_type" := QVString typeName]> record))
  end.

Definition fieldRecord (description : string) (fieldDescriptor : FieldDescriptor)
  : QVariantHash :=
  typeInformation "field" fieldDescriptor
    (<["field_default_value" := QVString (defaultValue fieldDescriptor)]>
    (<["field_label" := QVString (labelName (label fieldDescriptor))]>
    (<["field_description" := QVString description]>
    (<["field_name" := QVString (name fieldDescriptor)]> ∅)))).

Definition addField (ctx : DocGeneratorContext) (fieldDescriptor : FieldDescriptor)
  (fields : QVariantList) : QVariantList :=
  let '(description, excluded) := descriptionOf ctx fieldDescriptor in
  if excluded then fields
  else fields ++ [QVHash (fieldRecord description fieldDescriptor)].

(** The scope and containing type entries of an extension record. *)
Definition extensionTypes (fieldDescriptor : FieldDescriptor)
  (record : QVariantHash) : QVariantHash :=
  if is_extension fieldDescriptor then
    let record :=
      match extension_scope fieldDescriptor with
      | Some descriptor =>
          <["extension_scope_full_type" := QVString (full_name descriptor)]>
          (<["extension_scope_long_type" := QVString (longName (Some descriptor))]>
          (<["extension_scope_type" := QVString (name descriptor)]> record))
      | None => record
      end in
    match field_containing_type fieldDescriptor with
    | Some descriptor =>
        <["extension_containing_full_type" := QVString (full_name descriptor)]>
        (<["extension_containing_long_type" := QVString (longName (Some descriptor))]>
        (<["extension_containing_type" := QVString (name descriptor)]> record))
    | None => record
    end
  else record.

Definition extensionRecord (description : string) (fieldDescriptor : FieldDescriptor)
  : QVariantHash :=
  typeInformation "extension" fieldDescriptor
    (extensionTypes fieldDescriptor
    (<["extension_default_value" := QVString (defaultValue fieldDescriptor)]>
    (<["extension_number" := QVString (QStr.number (number fieldDescriptor))]>
    (<["extension_label" := QVString (labelName (label fieldDescriptor))]>
    (<["extension_description" := QVString description]>
    (<["extension_long_name" := QVString (longName_FieldDescriptor fieldDescriptor)]>
    (<["extension_full_name" := QVString (full_name fieldDescriptor)]>
    (<["extension_name" := QVString (name fieldDescriptor)]> ∅)))))))).

Definition addExtension (ctx : DocGeneratorContext) (fieldDescriptor : FieldDescriptor)
  (extensions : QVariantList) : QVariantList :=
  let '(description, excluded) := descriptionOf ctx fieldDescriptor in
  if excluded then extensions
  else extensions ++ [QVHash (extensionRecord description fieldDescriptor)].

(** One round of the loop over the values of an enum. *)
Definition addValue (ctx : DocGeneratorContext) (values : QVariantList)
  (valueDescriptor : EnumValueDescriptor) : QVariantList :=
  let '(description, excluded) := descriptionOf ctx valueDescriptor in
  if excluded then values
  else values ++
       [QVHash (<["value_description" := QVString description]>
               (<["value_number" := QVInt (value_number valueDescriptor)]>
               (<["value_name" := QVString (name valueDescriptor)]> ∅)))].

Definition enumRecord (ctx : DocGeneratorContext) (description : string)
  (enumDescriptor : EnumDescriptor) : QVariantHash :=
  <["enum_values" := QVList (fold_left (addValue ctx) (enum_value enumDescriptor) [])]>
  (<["enum_description" := QVString description]>
  (<["enum_full_name" := QVString (full_name enumDescriptor)]>
  (<["enum_long_name" := QVString (longName (Some enumDescriptor))]>
  (<["enum_name" := QVString (name enumDescriptor)]> ∅)))).

Definition addEnum (ctx : DocGeneratorContext) (enumDescriptor : EnumDescriptor)
  (enums : QVariantList) : QVariantList :=
  let '(description, excluded) := descriptionOf ctx enumDescriptor in
  if excluded then enums
  else enums ++ [QVHash (enumRecord ctx description enumDescriptor)].

Definition messageRecord (ctx : DocGeneratorContext) (description : string)
  (descriptor : Descriptor) : QVariantHash :=
  let fields := fold_left (λ fields f, addField ctx f fields) (field descriptor) [] in
  let extensions :=
    fold_left (λ extensions f, addExtension ctx f extensions) (extension descriptor) [] in
  <["message_extensions" := QVList extensions]>
  (<["message_has_extensions" := QVBool (negb (isEmptyList extensions))]>
  (<["message_has_fields" := QVBool (negb (isEmptyList fields))]>
  (<["message_fields" := QVList fields]>
  (<["message_description" := QVString description]>
  (<["message_full_name" := QVString (full_name descriptor)]>
  (<["message_long_name" := QVString (longName (Some descriptor))]>
  (<["message_name" := QVString (name descriptor)]> ∅))))))).

(** [addMessages]: the two lists the source fills through pointers are
    passed in and returned, messages first. *)
Fixpoint addMessages (ctx : DocGeneratorContext) (descriptor : Descriptor)
  (lists : QVariantList * QVariantList) {struct descriptor}
  : QVariantList * QVariantList :=
  let '(description, excluded) := descriptionOf ctx descriptor in
  if excluded then lists
  else
    let '(messages, enums) := lists in
    let messages := messages ++ [QVHash (messageRecord ctx description descriptor)] in
    let '(messages, enums) :=
      fold_left (λ lists nested, addMessages ctx nested lists)
        (nested_type descriptor) (messages, enums) in
    (messages,
     fold_left (λ enums e, addEnum ctx e enums) (enum_type descriptor) enums).

(** One round of the loop over the methods of a service. *)
Definition addMethod (ctx : DocGeneratorContext) (methods : QVariantList)
  (methodDescriptor : MethodDescriptor) : QVariantList :=
  let '(description, excluded) := descriptionOf ctx methodDescriptor in
  if excluded then methods
  else
    let request := input_type methodDescriptor in
    let response := output_type methodDescriptor in
    methods ++
    [QVHash (<["method_response_long_type" := QVString (longName (Some response))]>
            (<["method_response_full_type" := QVString (full_name response)]>
            (<["method_response_type" := QVString (name response)]>
            (<["method_request_long_type" := QVString (longName (Some request))]>
            (<["method_request_full_type" := QVString (full_name request)]>
            (<["method_request_type" := QVString (name request)]>
            (<["method_description" := QVString description]>
            (<["method_name" := QVString (name methodDescriptor)]> ∅))))))))].

Definition serviceRecord (ctx : DocGeneratorContext) (description : string)
  (serviceDescriptor : ServiceDescriptor) : QVariantHash :=
  <["service_methods" := QVList (fold_left (addMethod ctx) (method serviceDescriptor) [])]>
  (<["service_description" := QVString description]>
  (<["service_full_name" := QVString (full_name serviceDescriptor)]>
  (<["service_name" := QVString (name serviceDescriptor)]> ∅))).

Definition addService (ctx : DocGeneratorContext) (serviceDescriptor : ServiceDescriptor)
  (services : QVariantList) : QVariantList :=
  let '(description, excluded) := descriptionOf ctx serviceDescriptor in
  if excluded then services
  else services ++ [QVHash (serviceRecord ctx description serviceDescriptor)].

(** The four lists of a file as [addFile] computes them, each after its
    [std::sort]. *)
Definition fileMessagesEnums (ctx : DocGeneratorContext) (fileDescriptor : FileDescriptor)
  : QVariantList * QVariantList :=
  let '(messages, enums) :=
    fold_left (λ lists d, addMessages ctx d lists)
      (file_message_type fileDescriptor) ([], []) in
  let messages := std_sort longNameLessThan messages in
  let enums :=
    fold_left (λ enums e, addEnum ctx e enums) (file_enum_type fileDescriptor) enums in
  (messages, std_sort longNameLessThan enums).

Definition fileServices (ctx : DocGeneratorContext) (fileDescriptor : FileDescriptor)
  : QVariantList :=
  std_sort longNameLessThan
    (fold_left (λ services s, addService ctx s services)
       (file_service fileDescriptor) []).

Definition fileExtensions (ctx : DocGeneratorContext) (fileDescriptor : FileDescriptor)
  : QVariantList :=
  std_sort longNameLessThan
    (fold_left (λ extensions f, addExtension ctx f extensions)
       (file_extension fileDescriptor) []).

Definition fileRecord (ctx : DocGeneratorContext) (description : string)
  (fileDescriptor : FileDescriptor) : QVariantHash :=
  let '(messages, enums) := fileMessagesEnums ctx fileDescriptor in
  let services := fileServices ctx fileDescriptor in
  let extensions := fileExtensions ctx fileDescriptor in
  <["file_extensions" := QVList extensions]>
  (<["file_has_extensions" := QVBool (negb (isEmptyList extensions))]>
  (<["file_services" := QVList services]>
  (<["file_has_services" := QVBool (negb (isEmptyList services))]>
  (<["file_enums" := QVList enums]>
  (<["file_messages" := QVList messages]>
  (<["file_package" := QVString (package fileDescriptor)]>
  (<["file_description" := QVString description]>
  (<["file_name" := QVString (QStr.fileName (name fileDescriptor))]> ∅)))))))).

(** [addFile]: returns the list of files and the error message, which is
    left as it was unless the file could not be opened.  In that case the
    record is still built, with an empty description.  [None] when the scan
    of the file does not terminate. *)
Definition addFile (w : World) (ctx : DocGeneratorContext)
  (fileDescriptor : FileDescriptor) (files : QVariantList) (error : string)
  : option (QVariantList * string) :=
  match descriptionOf_file w ctx fileDescriptor with
  | None => None
  | Some (Described description true) => Some (files, error)
  | Some (Described description false) =>
      Some (files ++ [QVHash (fileRecord ctx description fileDescriptor)], error)
  | Some (OpenFailed message) =>
      Some (files ++ [QVHash (fileRecord ctx "" fileDescriptor)], message)
  end.

(** *** Parameter and templates *)

Definition supportedFormats (w : World) : list string := bundledTemplates w.

Definition usage (w : World) : string :=
  QStr.arg "Usage: --doc_out=%1|<TEMPLATE_FILENAME>,<OUT_FILENAME>[,no-exclude]:<OUT_DIR>"
    (QStr.join "|" (supportedFormats w)).

(** [readTemplate]: the template and the error message. *)
Definition readTemplate (w : World) (name : string) (error : string)
  : string * string :=
  let builtInFileName := QStr.arg ":/templates/%1.mustache" name in
  let fileName :=
    if bool_decide (name ∈ supportedFormats w) then builtInFileName else name in
  match openFile w fileName with
  | inr errorString => ("", QStr.arg (QStr.arg "%1: %2" fileName) errorString)
  | inl text => (text, error)
  end.

(** [tokens.at(i)]; every use below is in range. *)
Definition at_ (tokens : list string) (i : nat) : string := nth i tokens "".

(** [parseParameter]: the return value, the context and the error
    message. *)
Definition parseParameter (w : World) (ctx : DocGeneratorContext)
  (parameter : string) (error : string) : bool * DocGeneratorContext * string :=
  let tokens := QStr.split "," parameter in
  let size := List.length tokens in
  if negb (size =? 2)%nat && negb (size =? 3)%nat then (false, ctx, usage w)
  else if (size =? 3)%nat && negb (String.eqb (at_ tokens 2) "no-exclude") then
    (false, ctx, usage w)
  else
    let noExclude := (size =? 3)%nat in
    let '(template, error) :=
      if negb (String.eqb (at_ tokens 0) "json") then
        readTemplate w (at_ tokens 0) error
      else (template_ ctx, error) in
    (true,
     {| template_ := template; outputFileName := at_ tokens 1;
        noExclude := noExclude; files := files ctx |},
     error).

(** *** Template filters

    The engine calls a filter with the text between the tags of the
    section; [render] stands for [renderer->render(_, context)], which
    renders that text in the context of the section. *)
Module Filters.

(** Breaks paragraphs into HTML [<p>] elements. *)
Definition pFilter (render : string → string) (text : string) : string :=
  "<p>" +:+ QStr.join "</p><p>" (QStr.splitParagraphs (render text)) +:+ "</p>".

(** Breaks paragraphs into DocBook [<para>] elements. *)
Definition paraFilter (render : string → string) (text : string) : string :=
  "<para>" +:+ QStr.join "</para><para>" (QStr.splitParagraphs (render text)) +:+
  "</para>".

(** Removes line breaks. *)
Definition nobrFilter (render : string → string) (text : string) : string :=
  let result := render text in
  let result := QStr.remove result (QStr.CR +:+ QStr.LF) in
  let result := QStr.remove result QStr.CR in
  QStr.remove result QStr.LF.

End Filters.

(** The function behind each of the filters that [render] registers. *)
Definition filterFunction (f : Filter) : (string → string) → string → string :=
  match f with
  | pFilter => Filters.pFilter
  | paraFilter => Filters.paraFilter
  | nobrFilter => Filters.nobrFilter
  end.

(** *** Renderer *)

(** What [Mustache::Renderer] leaves after [render]. *)
Record Rendering := {
  rendered_text : string;
  renderer_error : string;
  errorPartial : string;
  errorPos : Z
}.

(** The template engine and Qt's JSON classes, taken as they are. *)
Record Engine := {
  (* QJsonDocument::fromVariant(files).toJson(), None for a null document *)
  toJson : QVariantList → option string;
  (* QJsonDocument::fromJson(text).array().toVariantList() *)
  fromJson : string → QVariantList;
  (* Mustache::Renderer::render(template, QtVariantContext(args)) *)
  mustache : string → QVariantHash → Rendering
}.

Definition formattedError (template : string) (renderer : Rendering) : string :=
  let location :=
    if negb (QStr.isEmpty (errorPartial renderer)) then
      template +:+ " in partial " +:+ errorPartial renderer
    else template in
  QStr.arg (QStr.arg (QStr.arg "%1:%2: %3" location)
              (QStr.number (errorPos renderer)))
    (renderer_error renderer).

(** What one call of [render] or [Generate] leaves behind. *)
Record Outcome := {
  succeeded : bool;                        (* the return value *)
  context : DocGeneratorContext;           (* generatorContext afterwards *)
  errorMessage : string;                   (* *error afterwards *)
  rendered : bool;                         (* was render called? *)
  output : option (string * string)        (* file opened for output, text printed *)
}.

Definition render (w : World) (engine : Engine) (ctx : DocGeneratorContext)
  (error : string) : Outcome :=
  if QStr.isEmpty (template_ ctx) then
    (* Raw JSON output. *)
    match toJson engine (files ctx) with
    | None =>
        {| succeeded := false; context := ctx;
           errorMessage := "Failed to create JSON document";
           rendered := true; output := None |}
    | Some result =>
        {| succeeded := true; context := ctx; errorMessage := error;
           rendered := true; output := Some (outputFileName ctx, result) |}
    end
  else
    (* Render using template. *)
    let args : QVariantHash :=
      <["files" := QVList (files ctx)]>
      (<["nobr" := QVFilter nobrFilter]>
      (<["para" := QVFilter paraFilter]>
      (<["p" := QVFilter pFilter]> ∅))) in
    let fileName := ":/templates/scalar_value_types.json" in
    match openFile w fileName with
    | inr errorString =>
        {| succeeded := false; context := ctx;
           errorMessage := QStr.arg (QStr.arg "%1: %2" fileName) errorString;
           rendered := true; output := None |}
    | inl text =>
        let args := <["scalar_value_types" := QVList (fromJson engine text)]> args in
        let renderer := mustache engine (template_ ctx) args in
        if negb (QStr.isEmpty (renderer_error renderer)) then
          {| succeeded := false; context := ctx;
             errorMessage := formattedError (template_ ctx) renderer;
             rendered := true; output := None |}
        else
          {| succeeded := true; context := ctx; errorMessage := error;
             rendered := true;
             output := Some (outputFileName ctx, rendered_text renderer) |}
    end.

(** *** The generator entry point *)

(** Two pointers into the descriptor pool are equal when they lead to the
    same file, and the pool holds one file for a name. *)
Definition samePointer (f1 f2 : FileDescriptor) : bool :=
  String.eqb (name f1) (name f2).

Definition isFirst (fileDescriptor : FileDescriptor)
  (parsedFiles : list FileDescriptor) : bool :=
  match head parsedFiles with
  | Some front => samePointer fileDescriptor front
  | None => false
  end.

Definition isLast (fileDescriptor : FileDescriptor)
  (parsedFiles : list FileDescriptor) : bool :=
  match last parsedFiles with
  | Some back => samePointer fileDescriptor back
  | None => false
  end.

(** The context with another list of files. *)
Definition withFiles (ctx : DocGeneratorContext) (files : QVariantList)
  : DocGeneratorContext :=
  {| template_ := template_ ctx; outputFileName := outputFileName ctx;
     noExclude := noExclude ctx; files := files |}.

(** The first step of [Generate]: the parameter is parsed when the file is
    the first of the parsed files. *)
Definition configure (w : World) (ctx : DocGeneratorContext)
  (fileDescriptor : FileDescriptor) (parameter : string)
  (parsedFiles : list FileDescriptor) (error : string)
  : bool * DocGeneratorContext * string :=
  if isFirst fileDescriptor parsedFiles then parseParameter w ctx parameter error
  else (true, ctx, error).

(** [DocGenerator::Generate].  [parsedFiles] is what
    [context->ListParsedFiles] returns; [None] when the scan of the file
    does not terminate. *)
Definition Generate (w : World) (engine : Engine) (ctx : DocGeneratorContext)
  (fileDescriptor : FileDescriptor) (parameter : string)
  (parsedFiles : list FileDescriptor) (error : string) : option Outcome :=
  let '(parsed, ctx, error) :=
    configure w ctx fileDescriptor parameter parsedFiles error in
  if negb parsed then
    Some {| succeeded := false; context := ctx; errorMessage := error;
            rendered := false; output := None |}
  else
    match addFile w ctx fileDescriptor (files ctx) error with
    | None => None
    | Some (files, error) =>
        let ctx := withFiles ctx files in
        if negb (QStr.isEmpty error) then
          Some {| succeeded := false; context := ctx; errorMessage := error;
                  rendered := false; output := None |}
        else if isLast fileDescriptor parsedFiles then Some (render w engine ctx error)
        else
          Some {| succeeded := true; context := ctx; errorMessage := error;
                  rendered := false; output := None |}
    end.

(** *** The host

    The compiler's plugin driver calls [Generate] once for every parsed
    file, in the order of the list and each time with an empty error
    message, and stops after the first call that fails or leaves an error
    message.  The result lists the calls made. *)
Fixpoint invocations (w : World) (engine : Engine) (parameter : string)
  (parsedFiles : list FileDescriptor) (ctx : DocGeneratorContext)
  (todo : list FileDescriptor) : option (list Outcome) :=
  match todo with
  | [] => Some []
  | fileDescriptor :: todo' =>
      match Generate w engine ctx fileDescriptor parameter parsedFiles "" with
      | None => None
      | Some o =>
          if succeeded o && QStr.isEmpty (errorMessage o) then
            match invocations w engine parameter parsedFiles (context o) todo' with
            | None => None
            | Some os => Some (o :: os)
            end
          else Some [o]
      end
  end.

Definition run (w : World) (engine : Engine) (parameter : string)
  (parsedFiles : list FileDescriptor) : option (list Outcome) :=
  invocations w engine parameter parsedFiles generatorContext parsedFiles.

(** ** Notions used in the statements *)

(** A record that the comparator can only tell apart by [key]. *)
Definition keyedBy (key : string) (v : QVariant) : Prop :=
  ∀ k, k ∈ ["message_long_name"; "enum_long_name"; "extension_long_name"] →
       k ≠ key → entry k v = "".

(** A record without any of the three long names. *)
Definition unnamed (v : QVariant) : Prop :=
  ∀ k, k ∈ ["message_long_name"; "enum_long_name"; "extension_long_name"] →
       entry k v = "".

(** [addMessages] on [descriptor] keeps a property [P] of all the messages
    and a property [Q] of all the enums collected so far. *)
Definition keepsForall (ctx : DocGeneratorContext) (P Q : QVariant → Prop)
  (descriptor : Descriptor) : Prop :=
  ∀ lists, Forall P lists.1 → Forall Q lists.2 →
    Forall P (addMessages ctx descriptor lists).1 ∧
    Forall Q (addMessages ctx descriptor lists).2.

(** *** Lines of a schema file *)

(** A line that holds white space only. *)
Definition blankLine (line : string) : Prop := QStr.trimmed line = "".

(** A single-line documentation comment. *)
Definition slashLine (line : string) : Prop :=
  QStr.startsWith (QStr.trimmed line) "///" = true.

(** What such a line contributes: its text after the marker and one blank. *)
Definition commentText (line : string) : string :=
  let line := QStr.trimmed line in
  QStr.mid line (if QStr.startsWith line "/// " then 4 else 3).

(** Every text followed by a line feed. *)
Fixpoint linesText (texts : list string) : string :=
  match texts with
  | [] => ""
  | text :: texts' => text +:+ QStr.LF +:+ linesText texts'
  end.

(** The first line that is not blank, trimmed. *)
Fixpoint firstLine (stream : list string) : option string :=
  match stream with
  | [] => None
  | next :: stream' =>
      if QStr.isEmpty (QStr.trimmed next) then firstLine stream'
      else Some (QStr.trimmed next)
  end.

(** A file that does not begin with a documentation comment. *)
Definition noLeadingComment (stream : list string) : Prop :=
  match firstLine stream with
  | None => True
  | Some line =>
      QStr.startsWith line "///" = false ∧ QStr.startsWith line "/**" = false
  end.

(** The result of [descriptionOf] for a file whose scan gave [text]. *)
Definition described (ctx : DocGeneratorContext) (text : string) : FileDescription :=
  Described (checkExcluded ctx text).1 (checkExcluded ctx text).2.

(** The records [addFile] appends for a file: one, or none when the file
    is excluded or its scan does not terminate. *)
Definition recordsOf (w : World) (ctx : DocGeneratorContext)
  (fileDescriptor : FileDescriptor) : QVariantList :=
  match addFile w ctx fileDescriptor [] "" with
  | Some (records, _) => records
  | None => []
  end.

(** A file that can be opened and whose scan terminates. *)
Definition readable (w : World) (fileDescriptor : FileDescriptor) : Prop :=
  ∃ text description,
    openFile w (name fileDescriptor) = inl text ∧
    scanLines (readLines text) = Some description.

(** The scan of the file ends, and gives the text [description]. *)
Definition scanned (w : World) (fileDescriptor : FileDescriptor)
  (description : string) : Prop :=
  ∃ text,
    openFile w (name fileDescriptor) = inl text ∧
    scanLines (readLines text) = Some description.

(** The files of a run that are not excluded, in the order of the run, each
    with the text that the scan of the file gave. *)
Definition documentedFiles (ctx : DocGeneratorContext)
  (parsedFiles : list FileDescriptor) (descriptions : list string)
  : list (FileDescriptor * string) :=
  List.filter (λ fd, negb (checkExcluded ctx fd.2).2) (zip parsedFiles descriptions).

(** The record of such a file: its description is the text of the scan,
    trimmed and without the marker that an override lets pass. *)
Definition fileRecordOf (ctx : DocGeneratorContext) (fd : FileDescriptor * string)
  : QVariant :=
  QVHash (fileRecord ctx (checkExcluded ctx fd.2).1 fd.1).

(** What the template engine is given to render a list of file records:
    the records, the table of scalar value types and the three filters. *)
Definition templateArguments (scalarValueTypes files : QVariantList) : QVariantHash :=
  <["scalar_value_types" := QVList scalarValueTypes]>
  (<["files" := QVList files]>
  (<["nobr" := QVFilter nobrFilter]>
  (<["para" := QVFilter paraFilter]>
  (<["p" := QVFilter pFilter]> ∅)))).

(** A text in which the character [c] does not occur. *)
Definition without (c : ascii) (s : string) : Prop :=
  c ∉ list_ascii_of_string s.

(** The template [parseParameter] stores for a selector, with the error
    message that reading it leaves. *)
Definition templateFor (w : World) (ctx : DocGeneratorContext)
  (selector error : string) : string * string :=
  if String.eqb selector "json" then (template_ ctx, error)
  else readTemplate w selector error.

(** *** Exclusion *)

(** A schema element of any kind; a file comes with the world it is read
    from. *)
Inductive Element :=
| FieldOf (f : FieldDescriptor)
| ExtensionOf (f : FieldDescriptor)
| ValueOf (v : EnumValueDescriptor)
| EnumOf (e : EnumDescriptor)
| MessageOf (m : Descriptor)
| MethodOf (m : MethodDescriptor)
| ServiceOf (s : ServiceDescriptor)
| FileOf (w : World) (f : FileDescriptor).

(** A description that begins, once trimmed, with the exclusion marker. *)
Definition startsWithMarker (description : string) : Prop :=
  QStr.startsWith (QStr.trimmed description) "@exclude" = true.

Definition marked (e : Element) : Prop :=
  match e with
  | FieldOf f | ExtensionOf f => startsWithMarker (comments f)
  | ValueOf v => startsWithMarker (comments v)
  | EnumOf e => startsWithMarker (comments e)
  | MessageOf m => startsWithMarker (comments m)
  | MethodOf m => startsWithMarker (comments m)
  | ServiceOf s => startsWithMarker (comments s)
  | FileOf w f =>
      ∃ text description,
        openFile w (name f) = inl text ∧
        scanLines (readLines text) = Some description ∧
        startsWithMarker description
  end.

(** The element adds nothing to the model: the function that is called for
    it returns the lists it was given.  For a message these are the list of
    messages and the list of enums, which its nested types would go to as
    well; its fields and extensions are part of its own record. *)
Definition absent (ctx : DocGeneratorContext) (e : Element) : Prop :=
  match e with
  | FieldOf f => ∀ fields, addField ctx f fields = fields
  | ExtensionOf f => ∀ extensions, addExtension ctx f extensions = extensions
  | ValueOf v => ∀ values, addValue ctx values v = values
  | EnumOf e => ∀ enums, addEnum ctx e enums = enums
  | MessageOf m => ∀ lists, addMessages ctx m lists = lists
  | MethodOf m => ∀ methods, addMethod ctx methods m = methods
  | ServiceOf s => ∀ services, addService ctx s services = services
  | FileOf w f => ∀ files error, addFile w ctx f files error = Some (files, error)
  end.

(** Is the element kept, that is not excluded by its comments? *)
Definition kept {T} `{Located T} (ctx : DocGeneratorContext) (descriptor : T) : bool :=
  negb (descriptionOf ctx descriptor).2.

(** The schema without its excluded elements: an enum without its excluded
    values, a service without its excluded methods, a message without its
    excluded fields, extensions, nested messages and enums, all the way
    down, and a file without its excluded messages, enums, services and
    extensions. *)
Definition pruneEnum (ctx : DocGeneratorContext) (e : EnumDescriptor) : EnumDescriptor :=
  {| enum_name := enum_name e; enum_full_name := enum_full_name e;
     enum_containing_type := enum_containing_type e;
     enum_location := enum_location e;
     enum_value := List.filter (kept ctx) (enum_value e) |}.

Definition pruneService (ctx : DocGeneratorContext) (s : ServiceDescriptor)
  : ServiceDescriptor :=
  {| service_name := service_name s; service_full_name := service_full_name s;
     service_location := service_location s;
     method := List.filter (kept ctx) (method s) |}.

Fixpoint pruneMessage (ctx : DocGeneratorContext) (m : Descriptor) : Descriptor :=
  match m with
  | mkDescriptor n fn ct loc fs xs nested es =>
      mkDescriptor n fn ct loc
        (List.filter (kept ctx) fs) (List.filter (kept ctx) xs)
        (List.filter (kept ctx) (map (pruneMessage ctx) nested))
        (map (pruneEnum ctx) (List.filter (kept ctx) es))
  end.

Definition pruneFile (ctx : DocGeneratorContext) (f : FileDescriptor) : FileDescriptor :=
  {| file_name := file_name f; package := package f;
     file_message_type :=
       List.filter (kept ctx) (map (pruneMessage ctx) (file_message_type f));
     file_enum_type := map (pruneEnum ctx) (List.filter (kept ctx) (file_enum_type f));
     file_service := map (pruneService ctx) (List.filter (kept ctx) (file_service f));
     file_extension := List.filter (kept ctx) (file_extension f) |}.

(** *** Names *)

(** The names of the types that enclose the type [d], the outermost first,
    and the name of [d]. *)
Fixpoint namePath (d : DescriptorRef) : list string :=
  match d with
  | mkRef n _ None => [n]
  | mkRef n _ (Some enclosing) => namePath enclosing ++ [n]
  end.

(** The same for an element and the type that encloses it, if any. *)
Definition namePathOf {T} `{Named T} `{Contained T} (d : T) : list string :=
  match containing_type d with
  | None => [name d]
  | Some enclosing => namePath enclosing ++ [name d]
  end.

(** The comparator cannot tell [x] and [y] apart. *)
Definition equivalent (x y : QVariant) : Prop :=
  longNameLessThan x y = false ∧ longNameLessThan y x = false.

(** A line inside a block comment, that is one without [*/] once trimmed. *)
Definition insideBlock (line : string) : Prop :=
  QStr.indexOf (QStr.trimmed line) "*/" = -1.

(** What such a line contributes: its text without a star at its start and
    the blank after the star. *)
Definition blockText (line : string) : string :=
  let line := QStr.trimmed line in
  QStr.mid line (blockStart line false).

(** Is the type a scalar type, that is neither a message, a group nor an
    enum? *)
Definition scalar (t : Type_) : bool :=
  match t with
  | TYPE_MESSAGE | TYPE_GROUP | TYPE_ENUM => false
  | _ => true
  end.

(** *** What the builder collects *)

(** The record [addMessages], [addEnum], ... append for an element that is
    not excluded. *)
Definition messageRecordOf (ctx : DocGeneratorContext) (d : Descriptor) : QVariant :=
  QVHash (messageRecord ctx (descriptionOf ctx d).1 d).

Definition enumRecordOf (ctx : DocGeneratorContext) (e : EnumDescriptor) : QVariant :=
  QVHash (enumRecord ctx (descriptionOf ctx e).1 e).

Definition fieldRecordOf (ctx : DocGeneratorContext) (f : FieldDescriptor) : QVariant :=
  QVHash (fieldRecord (descriptionOf ctx f).1 f).

Definition extensionRecordOf (ctx : DocGeneratorContext) (f : FieldDescriptor) : QVariant :=
  QVHash (extensionRecord (descriptionOf ctx f).1 f).

Definition serviceRecordOf (ctx : DocGeneratorContext) (s : ServiceDescriptor) : QVariant :=
  QVHash (serviceRecord ctx (descriptionOf ctx s).1 s).

(** The messages of the tree under [d] that are neither excluded nor
    nested in an excluded message, every message before those nested in
    it. *)
Fixpoint keptMessages (ctx : DocGeneratorContext) (d : Descriptor) : list Descriptor :=
  if kept ctx d then d :: flat_map (keptMessages ctx) (nested_type d) else [].

(** The enums declared in those messages: the enums of the nested messages
    before the enums of the message itself. *)
Fixpoint keptEnums (ctx : DocGeneratorContext) (d : Descriptor) : list EnumDescriptor :=
  if kept ctx d then
    flat_map (keptEnums ctx) (nested_type d) ++ List.filter (kept ctx) (enum_type d)
  else [].

(** *** Line breaks *)

(** The text without its line feeds and carriage returns. *)
Fixpoint withoutBreaks (s : string) : string :=
  match s with
  | EmptyString => EmptyString
  | String c s' =>
      if QStr.isBreak c then withoutBreaks s' else String c (withoutBreaks s')
  end.

(** A text on one line. *)
Definition oneLine (s : string) : Prop :=
  Forall (λ c, QStr.isBreak c = false) (list_ascii_of_string s).

(** A text of white space only. *)
Definition whiteSpace (s : string) : Prop :=
  Forall (λ c, QStr.isSpace c = true) (list_ascii_of_string s).

(** The place a rendering error is reported for: the template, and the
    partial if the error is in one. *)
Definition errorLocation (template : string) (renderer : Rendering) : string :=
  if QStr.isEmpty (errorPartial renderer) then template
  else template +:+ " in partial " +:+ errorPartial renderer.

(** How many times the character [c] occurs in [s]. *)
Fixpoint occurrences (c : ascii) (s : string) : nat :=
  match s with
  | EmptyString => 0
  | String x s' => ((if Ascii.eqb x c then 1 else 0) + occurrences c s')%nat
  end.

(** ** Example inputs *)

Module Examples.

Definition noComment : SourceLocation :=
  {| leading_comments := ""; trailing_comments := "" |}.

(** The location of an element that follows [/** text */] or [/// text]: the
    compiler hands out the comment without its first two characters. *)
Definition documented (text : string) : SourceLocation :=
  {| leading_comments := "* " +:+ text; trailing_comments := "" |}.

Definition topLevel (n : string) : DescriptorRef :=
  {| ref_name := n; ref_full_name := "pkg." +:+ n; ref_containing_type := None |}.

(** [optional int32 n = 1;] without a default value, outside any message. *)
Definition plainField (n : string) : FieldDescriptor :=
  {| field_name := n; field_full_name := "pkg." +:+ n; field_location := noComment;
     number := 1; label := LABEL_OPTIONAL; type := TYPE_INT32; cpp_type := CPPTYPE_INT32;
     is_extension := false; extension_scope := None; field_containing_type := None;
     message_type := None; enum_type_of := None;
     has_default_value := false; default_value_string := "";
     default_value_bool := false;
     default_value_float := {| printed := "0" |};
     default_value_double := {| printed := "0" |};
     default_value_int32 := 0; default_value_int64 := 0;
     default_value_uint32 := 0; default_value_uint64 := 0;
     default_value_enum := None |}.

(** [extend B { optional int32 n = 100; }] declared inside [scope], or at
    file level when [scope] is [None]. *)
Definition extensionOf (n : string) (scope : option DescriptorRef) (B : DescriptorRef)
  : FieldDescriptor :=
  {| field_name := n; field_full_name := "pkg." +:+ n; field_location := noComment;
     number := 100; label := LABEL_OPTIONAL; type := TYPE_INT32; cpp_type := CPPTYPE_INT32;
     is_extension := true; extension_scope := scope; field_containing_type := Some B;
     message_type := None; enum_type_of := None;
     has_default_value := false; default_value_string := "";
     default_value_bool := false;
     default_value_float := {| printed := "0" |};
     default_value_double := {| printed := "0" |};
     default_value_int32 := 0; default_value_int64 := 0;
     default_value_uint32 := 0; default_value_uint64 := 0;
     default_value_enum := None |}.

(** A field of cpp type string with the default [value]. *)
Definition withDefault (t : Type_) (value : string) : FieldDescriptor :=
  {| field_name := "f"; field_full_name := "pkg.M.f"; field_location := noComment;
     number := 1; label := LABEL_OPTIONAL; type := t; cpp_type := CPPTYPE_STRING;
     is_extension := false; extension_scope := None;
     field_containing_type := Some (topLevel "M");
     message_type := None; enum_type_of := None;
     has_default_value := true; default_value_string := value;
     default_value_bool := false;
     default_value_float := {| printed := "0" |};
     default_value_double := {| printed := "0" |};
     default_value_int32 := 0; default_value_int64 := 0;
     default_value_uint32 := 0; default_value_uint64 := 0;
     default_value_enum := None |}.

(** [optional bytes f = 1 [default = "\000A"];] *)
Definition bytesWithZero : FieldDescriptor :=
  withDefault TYPE_BYTES (String "000" "A").

Definition message (n : string) (location : SourceLocation)
  (nested : list Descriptor) (enums : list EnumDescriptor) : Descriptor :=
  {| message_name := n; message_full_name := "pkg." +:+ n;
     message_containing_type := None; message_location := location;
     field := [plainField "id"]; extension := [];
     nested_type := nested; enum_type := enums |}.

Definition enumeration (n : string) : EnumDescriptor :=
  {| enum_name := n; enum_full_name := "pkg." +:+ n; enum_containing_type := None;
     enum_location := noComment;
     enum_value := [{| value_name := "ZERO"; value_number := 0;
                       value_location := noComment |}] |}.

Definition service (n : string) : ServiceDescriptor :=
  {| service_name := n; service_full_name := "pkg." +:+ n;
     service_location := noComment; method := [] |}.

Definition file (n : string) (messages : list Descriptor)
  (services : list ServiceDescriptor) : FileDescriptor :=
  {| file_name := n; package := "pkg"; file_message_type := messages;
     file_enum_type := []; file_service := services; file_extension := [] |}.

(** A file that declares the services [Zeta] and [Alpha], in this order. *)
Definition twoServices : FileDescriptor :=
  file "services.proto" [] [service "Zeta"; service "Alpha"].

(** A message excluded by its comment, with a nested message and enum. *)
Definition hidden : Descriptor :=
  message "Hidden" (documented "@exclude internal")
    [message "Inner" noComment [] []] [enumeration "Kind"].

Definition threeSlashLines : string :=
  "/// Line one" +:+ QStr.LF +:+ "/// Line two" +:+ QStr.LF +:+
  "/// Line three" +:+ QStr.LF +:+ QStr.LF +:+ "package pkg;" +:+ QStr.LF.

Definition onlySlashLines : string :=
  "/// Line one" +:+ QStr.LF +:+ "/// Line two" +:+ QStr.LF.

(** A directory with three schema files, and two bundled resources;
    nothing else can be opened. *)
Definition disk (n : string) : string + string :=
  if String.eqb n ":/templates/html.mustache" then inl "<h1>{{file_name}}</h1>"
  else if String.eqb n ":/templates/scalar_value_types.json" then inl "[]"
  else if String.eqb n "a.proto" then inl threeSlashLines
  else if String.eqb n "b.proto" then inl ("package pkg;" +:+ QStr.LF)
  else if String.eqb n "c.proto" then inl onlySlashLines
  else inr "No such file or directory".

Definition world : World :=
  {| openFile := disk; bundledTemplates := ["docbook"; "html"; "markdown"] |}.

(** An engine that prints the number of file records it is given. *)
Definition engine : Engine :=
  {| toJson := λ files, Some (QStr.number (Z.of_nat (List.length files)));
     fromJson := λ _, [];
     mustache := λ _ args,
       {| rendered_text :=
            match args !! "files" with
            | Some (QVList files) => QStr.number (Z.of_nat (List.length files))
            | _ => "no files"
            end;
          renderer_error := ""; errorPartial := ""; errorPos := 0 |} |}.

(** The context after [html,index.html] has been parsed in [world]. *)
Definition htmlContext : DocGeneratorContext :=
  {| template_ := "<h1>{{file_name}}</h1>"; outputFileName := "index.html";
     noExclude := false; files := [] |}.

Definition threeFiles : list FileDescriptor :=
  [file "a.proto" [message "A" noComment [] []] [];
   file "b.proto" [message "B" noComment [] []] [];
   file "c.proto" [message "C" noComment [] []] []].

(** An enum value that follows the comment [text], as the compiler hands
    it out: without the two characters that open it. *)
Definition commented (text : string) : EnumValueDescriptor :=
  {| value_name := "ZERO"; value_number := 0;
     value_location := {| leading_comments := text; trailing_comments := "" |} |}.

(** The world of the examples with one more file. *)
Definition withFile (n text : string) : World :=
  {| openFile := λ m, if String.eqb m n then inl text else disk m;
     bundledTemplates := bundledTemplates world |}.

(** A schema file that begins with a block comment over four lines. *)
Definition blockComment : string :=
  "/**" +:+ QStr.LF +:+ " * First" +:+ QStr.LF +:+ " * Second" +:+ QStr.LF +:+
  " */" +:+ QStr.LF +:+ "package pkg;" +:+ QStr.LF.

(** A schema file whose block comment is never closed. *)
Definition unclosedComment : string :=
  "/** The schema." +:+ QStr.LF +:+ "package pkg;" +:+ QStr.LF.

(** A schema file that begins with a block comment on one line. *)
Definition oneLineComment : string :=
  "/** The schema. */" +:+ QStr.LF +:+ "package pkg;" +:+ QStr.LF.

(** The calls of the run over the three files of the example. *)
Definition threeCalls : list Outcome :=
  default [] (run world engine "html,index.html" threeFiles).

(** The last of them. *)
Definition lastCall : Outcome :=
  render world engine
    (withFiles htmlContext
       (flat_map (recordsOf world htmlContext) threeFiles)) "".

(** The records of two messages, [B] before [A]. *)
Definition twoRecords : QVariantList :=
  [messageRecordOf generatorContext (message "B" noComment [] []);
   messageRecordOf generatorContext (message "A" noComment [] [])].

(** What the engine leaves when a section of the template is not closed. *)
Definition brokenTemplate : Rendering :=
  {| rendered_text := ""; renderer_error := "Unclosed section"; errorPartial := "";
     errorPos := 10 |}.

End Examples.

(** ** Strings *)

Section StringFacts.

Lemma append_nil_r (s : string) : s +:+ "" = s.
Proof. induction s as [|c s IH]; [reflexivity|]. cbv [String.append]. fold String.append. by rewrite IH. Qed.

Lemma append_cons (c : ascii) (s t : string) : String c s +:+ t = String c (s +:+ t).
Proof. reflexivity. Qed.

Lemma append_assoc (s t u : string) : (s +:+ t) +:+ u = s +:+ (t +:+ u).
Proof. induction s as [|c s IH]; [reflexivity|]. rewrite !append_cons. by rewrite IH. Qed.

Lemma length_append (s t : string) :
  String.length (s +:+ t) = (String.length s + String.length t)%nat.
Proof. induction s as [|c s IH]; [reflexivity|]. rewrite append_cons. simpl. by rewrite IH. Qed.

Lemma take_append (s t : string) : QStr.take (String.length s) (s +:+ t) = s.
Proof. induction s as [|c s IH]; [by destruct t|]. rewrite append_cons. simpl. by rewrite IH. Qed.

(** Dropping the last character of a text that ends in a line feed. *)
Lemma left_chops_LF (s : string) :
  QStr.left (s +:+ QStr.LF) (QStr.size (s +:+ QStr.LF) - 1) = s.
Proof.
  unfold QStr.left, QStr.size. rewrite length_append. simpl String.length.
  replace (Z.of_nat (String.length s + 1) - 1) with (Z.of_nat (String.length s)) by lia.
  destruct (Z.ltb_spec (Z.of_nat (String.length s)) 0); [lia|].
  destruct (Z.leb_spec (Z.of_nat (String.length s + 1)) (Z.of_nat (String.length s))); [lia|].
  simpl. rewrite Nat2Z.id. apply take_append.
Qed.

Lemma left_empty (n : Z) : QStr.left "" n = "".
Proof. unfold QStr.left. destruct (_ || _); [reflexivity|]. by destruct (Z.to_nat n). Qed.

Lemma startsWith_isEmpty (s p : string) :
  QStr.startsWith s p = true → QStr.isEmpty p = false → QStr.isEmpty s = false.
Proof. destruct s, p; simpl; try done. Qed.

Lemma ltb_le (a b : string) : String.ltb a b = true → String.le a b.
Proof. unfold String.le, String.leb, String.ltb. by destruct (String.compare a b). Qed.

Lemma not_ltb_le (a b : string) : String.ltb a b = false → String.le b a.
Proof.
  unfold String.le, String.leb, String.ltb. rewrite (String.compare_antisym a b).
  by destruct (String.compare b a).
Qed.

End StringFacts.

(** ** [std::sort] orders by the comparator and keeps the elements *)

Section SortFacts.
Context {A : Type} (comp : A → A → bool).

Lemma linear_insert_Permutation (val : A) (rprefix : list A) :
  Permutation (linear_insert comp val rprefix) (val :: rprefix).
Proof.
  induction rprefix as [|next rest IH]; simpl; [done|].
  destruct (comp val next); [|done].
  rewrite IH. apply perm_swap.
Qed.

Lemma insertion_step_Permutation (rprefix : list A) (val : A) :
  Permutation (insertion_step comp rprefix val) (val :: rprefix).
Proof.
  unfold insertion_step. destruct (last rprefix) as [first|] eqn:E;
    [|by apply last_None in E as ->].
  destruct (comp val first).
  - symmetry. apply Permutation_cons_append.
  - apply linear_insert_Permutation.
Qed.

Lemma insertion_fold_Permutation (l rprefix : list A) :
  Permutation (fold_left (insertion_step comp) l rprefix) (rev l ++ rprefix).
Proof.
  revert rprefix. induction l as [|x l IH]; intros rprefix; simpl; [done|].
  rewrite IH, insertion_step_Permutation, <- app_assoc. done.
Qed.

Lemma std_sort_Permutation (l : list A) : Permutation (std_sort comp l) l.
Proof.
  unfold std_sort. rewrite <- Permutation_rev, insertion_fold_Permutation.
  by rewrite app_nil_r, <- Permutation_rev.
Qed.

(** Where the comparator answers [false] for any two elements of the
    range, it finds the range in order: nothing moves. *)
Lemma insertion_fold_equivalent (l rprefix : list A) :
  (∀ x y, In x (l ++ rprefix) → In y (l ++ rprefix) → comp x y = false) →
  fold_left (insertion_step comp) l rprefix = rev l ++ rprefix.
Proof.
  revert rprefix.
  induction l as [|x l IH]; intros rprefix Hfalse; simpl; [done|].
  assert (insertion_step comp rprefix x = x :: rprefix) as Hstep.
  { unfold insertion_step. destruct (last rprefix) as [first|] eqn:E.
    - rewrite Hfalse.
      + destruct rprefix as [|next rest]; simpl; [done|]. rewrite Hfalse; [done| |].
        * by left.
        * right. apply in_or_app. right. by left.
      + by left.
      + right. apply in_or_app. right.
        by apply list_elem_of_In, last_Some_elem_of.
    - by apply last_None in E as ->. }
  rewrite Hstep, IH.
  - by rewrite <- app_assoc.
  - intros a b Ha Hb. apply Hfalse.
    + apply in_app_or in Ha as [Ha|[->|Ha]];
        [right; apply in_or_app; by left|by left|right; apply in_or_app; by right].
    + apply in_app_or in Hb as [Hb|[->|Hb]];
        [right; apply in_or_app; by left|by left|right; apply in_or_app; by right].
Qed.

(** The insertion sort moves nothing in a range in which the comparator
    finds no element less than another. *)
Lemma std_sort_equivalent (l : list A) :
  (∀ x y, In x l → In y l → comp x y = false) → std_sort comp l = l.
Proof.
  intros Hfalse. unfold std_sort. rewrite insertion_fold_equivalent.
  - by rewrite app_nil_r, rev_involutive.
  - by rewrite app_nil_r.
Qed.

(** Where the comparator is [<] on a string key, on the elements of the
    range at least, the result ascends by that key. *)
Context (key : A → string).

Lemma linear_insert_In (val x : A) (rprefix : list A) :
  In x (linear_insert comp val rprefix) → x = val ∨ In x rprefix.
Proof.
  intros Hx. apply (Permutation_in _ (linear_insert_Permutation val rprefix)) in Hx.
  destruct Hx; auto.
Qed.

Lemma linear_insert_descending (val : A) (rprefix : list A) :
  byKey comp key (val :: rprefix) → descending key rprefix →
  descending key (linear_insert comp val rprefix).
Proof.
  intros Hkey Hsorted. induction Hsorted as [|next rest Hrest IH Hnext]; simpl.
  - repeat constructor.
  - rewrite (Hkey val next) by (simpl; auto).
    destruct (String.ltb (key val) (key next)) eqn:Hlt.
    + constructor.
      * apply IH. intros x y Hx Hy. apply Hkey; simpl in *; tauto.
      * apply List.Forall_forall. intros x Hx.
        apply linear_insert_In in Hx as [->|Hx]; [by apply ltb_le|].
        rewrite List.Forall_forall in Hnext. by apply Hnext.
    + apply not_ltb_le in Hlt. constructor; [by constructor|].
      constructor; [done|]. eapply Forall_impl; [exact Hnext|].
      intros x Hx. simpl in Hx. by etrans.
Qed.

Lemma descending_last (rprefix : list A) (first x : A) :
  descending key rprefix → last rprefix = Some first → In x rprefix →
  String.le (key first) (key x).
Proof.
  intros Hsorted. induction Hsorted as [|y rest Hrest IH Hy]; [done|].
  intros Hlast Hx. destruct rest as [|z rest].
  - simpl in Hlast. destruct Hx as [->|[]]. by simplify_eq.
  - change (last (y :: z :: rest)) with (last (z :: rest)) in Hlast.
    destruct Hx as [->|Hx]; [|by apply IH].
    rewrite List.Forall_forall in Hy. apply Hy.
    by apply list_elem_of_In, last_Some_elem_of.
Qed.

Lemma descending_snoc (rprefix : list A) (val : A) :
  descending key rprefix → (∀ x, In x rprefix → String.le (key val) (key x)) →
  descending key (rprefix ++ [val]).
Proof.
  intros Hsorted. induction Hsorted as [|y rest Hrest IH Hy]; intros Hval; simpl.
  - repeat constructor.
  - constructor.
    + apply IH. intros x Hx. apply Hval. by right.
    + apply Forall_app. split; [done|]. constructor; [|done]. apply Hval. by left.
Qed.

Lemma insertion_step_descending (rprefix : list A) (val : A) :
  byKey comp key (val :: rprefix) → descending key rprefix →
  descending key (insertion_step comp rprefix val).
Proof.
  intros Hkey Hsorted. unfold insertion_step.
  destruct (last rprefix) as [first|] eqn:Hlast; [|repeat constructor].
  assert (In first rprefix) as Hfirst
    by by apply list_elem_of_In, last_Some_elem_of.
  rewrite (Hkey val first) by (simpl; auto).
  destruct (String.ltb (key val) (key first)) eqn:Hlt.
  - apply descending_snoc; [done|]. intros x Hx.
    etrans; [by apply ltb_le|]. by eapply descending_last.
  - by apply linear_insert_descending.
Qed.

Lemma insertion_fold_descending (l rprefix : list A) :
  byKey comp key (l ++ rprefix) → descending key rprefix →
  descending key (fold_left (insertion_step comp) l rprefix).
Proof.
  revert rprefix. induction l as [|x l IH]; intros rprefix Hkey Hsorted; simpl; [done|].
  apply IH.
  - intros a b Ha Hb. apply Hkey; simpl.
    + apply in_app_or in Ha as [Ha|Ha]; [right; apply in_or_app; by left|].
      apply (Permutation_in _ (insertion_step_Permutation rprefix x)) in Ha.
      destruct Ha; [by left|right; apply in_or_app; by right].
    + apply in_app_or in Hb as [Hb|Hb]; [right; apply in_or_app; by left|].
      apply (Permutation_in _ (insertion_step_Permutation rprefix x)) in Hb.
      destruct Hb; [by left|right; apply in_or_app; by right].
  - apply insertion_step_descending; [|done].
    intros a b Ha Hb. apply Hkey; simpl in *.
    + destruct Ha; [by left|right; apply in_or_app; by right].
    + destruct Hb; [by left|right; apply in_or_app; by right].
Qed.

Lemma descending_rev (l : list A) : descending key l → ascending key (rev l).
Proof.
  intros Hsorted. induction Hsorted as [|y rest Hrest IH Hy]; simpl; [constructor|].
  clear Hrest. revert IH. generalize (rev_involutive rest).
  assert (Forall (λ b, String.le (key b) (key y)) (rev rest)) as Hrev.
  { apply List.Forall_forall. intros x Hx. rewrite List.Forall_forall in Hy.
    apply Hy. by apply in_rev. }
  intros _. revert Hrev. generalize (rev rest). intros r Hr Hsorted.
  induction Hsorted as [|z r' Hr' IH Hz]; simpl.
  - repeat constructor.
  - inversion Hr; subst. constructor; [by apply IH|].
    apply Forall_app. split; [done|]. by repeat constructor.
Qed.

Lemma std_sort_ascending (l : list A) : byKey comp key l → ascending key (std_sort comp l).
Proof.
  intros Hkey. unfold std_sort. apply descending_rev, insertion_fold_descending.
  - by rewrite app_nil_r.
  - constructor.
Qed.

End SortFacts.

(** ** Records and the comparator *)

(** Induction on a message type with the hypothesis for every nested
    type. *)
Lemma Descriptor_nested_ind (P : Descriptor → Prop) :
  (∀ n fn ct loc fs xs nested es,
     Forall P nested → P (mkDescriptor n fn ct loc fs xs nested es)) →
  ∀ d, P d.
Proof.
  intros step. fix IH 1. intros [n fn ct loc fs xs nested es].
  apply step. induction nested as [|d nested IHn]; constructor; [apply IH|exact IHn].
Qed.

Lemma longNameLessThan_unfold (v1 v2 : QVariant) :
  longNameLessThan v1 v2 =
  String.ltb (entry "message_long_name" v1) (entry "message_long_name" v2) ||
  String.ltb (entry "enum_long_name" v1) (entry "enum_long_name" v2) ||
  String.ltb (entry "extension_long_name" v1) (entry "extension_long_name" v2).
Proof. unfold longNameLessThan, entry. by repeat destruct (String.ltb _ _). Qed.

Lemma longNameLessThan_unnamed (v1 v2 : QVariant) :
  unnamed v1 → unnamed v2 → longNameLessThan v1 v2 = false.
Proof.
  intros H1 H2. rewrite longNameLessThan_unfold.
  rewrite !H1, !H2 by set_solver. done.
Qed.

Lemma longNameLessThan_keyedBy (key : string) (v1 v2 : QVariant) :
  key ∈ ["message_long_name"; "enum_long_name"; "extension_long_name"] →
  keyedBy key v1 → keyedBy key v2 →
  longNameLessThan v1 v2 = String.ltb (entry key v1) (entry key v2).
Proof.
  intros Hkey H1 H2. rewrite longNameLessThan_unfold.
  set_unfold in Hkey. destruct Hkey as [->|[->|[->|[]]]].
  - rewrite (H1 "enum_long_name"), (H2 "enum_long_name") by set_solver.
    rewrite (H1 "extension_long_name"), (H2 "extension_long_name") by set_solver.
    by rewrite !orb_false_r.
  - rewrite (H1 "message_long_name"), (H2 "message_long_name") by set_solver.
    rewrite (H1 "extension_long_name"), (H2 "extension_long_name") by set_solver.
    by rewrite !orb_false_r.
  - rewrite (H1 "message_long_name"), (H2 "message_long_name") by set_solver.
    rewrite (H1 "enum_long_name"), (H2 "enum_long_name") by set_solver.
    done.
Qed.

Lemma std_sort_longName_ascending (key : string) (l : QVariantList) :
  key ∈ ["message_long_name"; "enum_long_name"; "extension_long_name"] →
  Forall (keyedBy key) l →
  ascending (entry key) (std_sort longNameLessThan l).
Proof.
  intros Hkey Hl. apply std_sort_ascending. intros x y Hx Hy.
  rewrite List.Forall_forall in Hl. by apply longNameLessThan_keyedBy; auto.
Qed.

Ltac long_name_keys :=
  intros k Hk; set_unfold in Hk;
  repeat match goal with H : _ ∨ _ |- _ => destruct H | H : False |- _ => destruct H end;
  subst; try done; vm_compute; try done.

Lemma messageRecord_keyedBy ctx description descriptor :
  keyedBy "message_long_name" (QVHash (messageRecord ctx description descriptor)).
Proof. long_name_keys. Qed.

Lemma enumRecord_keyedBy ctx description enumDescriptor :
  keyedBy "enum_long_name" (QVHash (enumRecord ctx description enumDescriptor)).
Proof. long_name_keys. Qed.

Lemma extensionRecord_keyedBy description fieldDescriptor :
  keyedBy "extension_long_name" (QVHash (extensionRecord description fieldDescriptor)).
Proof.
  intros k Hk Hne. unfold entry, extensionRecord, typeInformation, extensionTypes.
  set_unfold in Hk.
  destruct Hk as [->|[->|[->|[]]]]; try done;
    destruct (type fieldDescriptor), (is_extension fieldDescriptor),
      (extension_scope fieldDescriptor), (field_containing_type fieldDescriptor);
    vm_compute; done.
Qed.

Lemma serviceRecord_unnamed ctx description serviceDescriptor :
  unnamed (QVHash (serviceRecord ctx description serviceDescriptor)).
Proof. intros k Hk. revert k Hk. long_name_keys. Qed.

Section Builder.
Context (ctx : DocGeneratorContext).

Lemma addEnum_Forall (P : QVariant → Prop) enumDescriptor enums :
  (∀ d e, P (QVHash (enumRecord ctx d e))) →
  Forall P enums → Forall P (addEnum ctx enumDescriptor enums).
Proof.
  intros HP Henums. unfold addEnum.
  destruct (descriptionOf ctx enumDescriptor) as [d []]; [done|].
  apply Forall_app. split; [done|]. by constructor.
Qed.

Lemma addEnums_Forall (P : QVariant → Prop) (l : list EnumDescriptor) enums :
  (∀ d e, P (QVHash (enumRecord ctx d e))) →
  Forall P enums → Forall P (fold_left (λ enums e, addEnum ctx e enums) l enums).
Proof.
  intros HP. revert enums. induction l as [|e l IH]; intros enums Henums; simpl; [done|].
  by apply IH, addEnum_Forall.
Qed.

Lemma addMessages_fold_Forall (P Q : QVariant → Prop) (l : list Descriptor) lists :
  Forall (keepsForall ctx P Q) l →
  Forall P lists.1 → Forall Q lists.2 →
  Forall P (fold_left (λ lists d, addMessages ctx d lists) l lists).1 ∧
  Forall Q (fold_left (λ lists d, addMessages ctx d lists) l lists).2.
Proof.
  intros Hl. revert lists. induction Hl as [|d l Hd Hl IH]; intros lists HP HQ; simpl; [done|].
  destruct (Hd lists HP HQ). by apply IH.
Qed.

Lemma addMessages_Forall (P Q : QVariant → Prop) descriptor :
  (∀ d m, P (QVHash (messageRecord ctx d m))) →
  (∀ d e, Q (QVHash (enumRecord ctx d e))) →
  keepsForall ctx P Q descriptor.
Proof.
  intros HP HQ.
  induction descriptor as [n fn ct loc fs xs nested es IH] using Descriptor_nested_ind.
  intros [messages enums] Hmessages Henums. simpl in Hmessages, Henums.
  cbn [addMessages].
  destruct (descriptionOf ctx _) as [d []]; [done|].
  cbn [nested_type enum_type].
  match goal with |- context [fold_left ?f nested ?start] =>
    destruct (addMessages_fold_Forall P Q nested start IH) as [Hms Hes];
    [apply Forall_app; split; [done|by constructor]|done|];
    destruct (fold_left f nested start) as [ms' es']
  end.
  split; [done|]. by apply addEnums_Forall.
Qed.

(** The message list of a file record ascends by long name. *)
Lemma file_messages_sorted fileDescriptor :
  ascending (entry "message_long_name") (fileMessagesEnums ctx fileDescriptor).1.
Proof.
  unfold fileMessagesEnums.
  match goal with |- context [fold_left ?f ?l ?start] =>
    destruct (addMessages_fold_Forall (keyedBy "message_long_name")
                (keyedBy "enum_long_name") l start) as [Hms Hes];
    [|done|done|destruct (fold_left f l start) as [ms es]]
  end.
  { apply List.Forall_forall. intros d _.
    apply addMessages_Forall; auto using messageRecord_keyedBy, enumRecord_keyedBy. }
  simpl in *. apply std_sort_longName_ascending; [set_solver|done].
Qed.

(** The enum list of a file record ascends by long name. *)
Lemma file_enums_sorted fileDescriptor :
  ascending (entry "enum_long_name") (fileMessagesEnums ctx fileDescriptor).2.
Proof.
  unfold fileMessagesEnums.
  match goal with |- context [fold_left ?f ?l ?start] =>
    destruct (addMessages_fold_Forall (keyedBy "message_long_name")
                (keyedBy "enum_long_name") l start) as [Hms Hes];
    [|done|done|destruct (fold_left f l start) as [ms es]]
  end.
  { apply List.Forall_forall. intros d _.
    apply addMessages_Forall; auto using messageRecord_keyedBy, enumRecord_keyedBy. }
  simpl in *. apply std_sort_longName_ascending; [set_solver|].
  apply addEnums_Forall; auto using enumRecord_keyedBy.
Qed.

Lemma addExtensions_Forall (P : QVariant → Prop) (l : list FieldDescriptor) extensions :
  (∀ d f, P (QVHash (extensionRecord d f))) →
  Forall P extensions →
  Forall P (fold_left (λ extensions f, addExtension ctx f extensions) l extensions).
Proof.
  intros HP. revert extensions.
  induction l as [|f l IH]; intros extensions Hextensions; simpl; [done|].
  apply IH. unfold addExtension. destruct (descriptionOf ctx f) as [d []]; [done|].
  apply Forall_app. split; [done|]. by constructor.
Qed.

(** The extension list of a file record ascends by long name. *)
Lemma file_extensions_sorted fileDescriptor :
  ascending (entry "extension_long_name") (fileExtensions ctx fileDescriptor).
Proof.
  unfold fileExtensions. apply std_sort_longName_ascending; [set_solver|].
  apply addExtensions_Forall; auto using extensionRecord_keyedBy.
Qed.

Lemma addServices_Forall (P : QVariant → Prop) (l : list ServiceDescriptor) services :
  (∀ d s, P (QVHash (serviceRecord ctx d s))) →
  Forall P services →
  Forall P (fold_left (λ services s, addService ctx s services) l services).
Proof.
  intros HP. revert services.
  induction l as [|s l IH]; intros services Hservices; simpl; [done|].
  apply IH. unfold addService. destruct (descriptionOf ctx s) as [d []]; [done|].
  apply Forall_app. split; [done|]. by constructor.
Qed.

(** Service records carry no long name, so the comparator finds any two of
    them equivalent and the insertion sort leaves the services as they were
    added: in declaration order.  This is for a file of at most 16 services:
    on a longer range the library partitions first and may move equivalent
    elements, which the insertion sort given above does not show. *)
Lemma file_services_declaration_order fileDescriptor :
  (List.length (file_service fileDescriptor) <= 16)%nat →
  fileServices ctx fileDescriptor =
  fold_left (λ services s, addService ctx s services) (file_service fileDescriptor) [].
Proof.
  intros _. unfold fileServices. apply std_sort_equivalent. intros x y Hx Hy.
  pose proof (addServices_Forall unnamed (file_service fileDescriptor) []
                (serviceRecord_unnamed ctx) (List.Forall_nil _)) as Hall.
  rewrite List.Forall_forall in Hall. apply longNameLessThan_unnamed; auto.
Qed.

End Builder.

(** C1.  Defect in the code: [addFile] sorts the service list with
    [longNameLessThan] like the other three lists, but a service record has
    none of the long names the comparator reads.  A file that declares the
    services [Zeta] and [Alpha] in this order gets them in this order, which
    ascends neither by name nor by full name. *)
Theorem file_services_not_sorted :
  map (entry "service_name") (fileServices generatorContext Examples.twoServices)
    = ["Zeta"; "Alpha"] ∧
  map (entry "service_full_name") (fileServices generatorContext Examples.twoServices)
    = ["pkg.Zeta"; "pkg.Alpha"] ∧
  ¬ ascending (entry "service_name")
      (fileServices generatorContext Examples.twoServices) ∧
  ¬ ascending (entry "service_full_name")
      (fileServices generatorContext Examples.twoServices).
Proof.
  split; [by vm_compute|]. split; [by vm_compute|].
  split; intros Hsorted; apply StronglySorted_inv in Hsorted as [_ Hfirst];
    apply Forall_inv in Hfirst; by vm_compute in Hfirst.
Qed.

(** ** Naming resolver *)

Section LongName.
Context {T : Type} `{Named T} `{Contained T}.

Lemma longName_null : longName (None : option T) = "".
Proof. reflexivity. Qed.

Lemma longName_top_level (d : T) :
  containing_type d = None → longName (Some d) = name d.
Proof. intros E. unfold longName. by rewrite E. Qed.

Lemma longName_enclosed (d : T) (enclosing : DescriptorRef) :
  containing_type d = Some enclosing →
  longName (Some d) = longName (Some enclosing) +:+ "." +:+ name d.
Proof.
  intros E. unfold longName at 1. rewrite E. f_equal.
  by destruct enclosing as [n fn [p|]].
Qed.

End LongName.

Lemma longName_extension (f : FieldDescriptor) :
  is_extension f = true →
  longName_FieldDescriptor f = longName (extension_scope f) +:+ "." +:+ name f.
Proof. intros E. unfold longName_FieldDescriptor. by rewrite E. Qed.

Lemma longName_member (f : FieldDescriptor) :
  is_extension f = false →
  longName_FieldDescriptor f = longName (field_containing_type f) +:+ "." +:+ name f.
Proof. intros E. unfold longName_FieldDescriptor. by rewrite E. Qed.

(** An extension declared inside a top-level message [A] is qualified under
    [A], whatever message it extends. *)
Lemma longName_extension_in_scope (f : FieldDescriptor) (A : DescriptorRef) :
  is_extension f = true → extension_scope f = Some A → containing_type A = None →
  longName_FieldDescriptor f = name A +:+ "." +:+ name f.
Proof.
  intros E1 E2 E3. rewrite longName_extension, E2 by done.
  by rewrite longName_top_level.
Qed.

(** An extension declared at file level has no scope: its long name is its
    name after a dot. *)
Lemma longName_extension_file_level (f : FieldDescriptor) :
  is_extension f = true → extension_scope f = None →
  longName_FieldDescriptor f = "." +:+ name f.
Proof. intros E1 E2. by rewrite longName_extension, E2. Qed.

Example longName_extension_A_B :
  longName_FieldDescriptor
    (Examples.extensionOf "ext" (Some (Examples.topLevel "A")) (Examples.topLevel "B"))
  = "A.ext".
Proof. reflexivity. Qed.

(** C4.  Defect in the code: the long name of a top-level element is its
    bare name, but for an extension declared at file level, which has no
    extension scope, the specialization for fields puts a dot in front:
    [extend Foo { optional int32 bar = 100; }] gets the long name [.bar]. *)
Theorem longName_file_level_extension_dot :
  is_extension (Examples.extensionOf "bar" None (Examples.topLevel "Foo")) = true ∧
  extension_scope (Examples.extensionOf "bar" None (Examples.topLevel "Foo")) = None ∧
  longName_FieldDescriptor (Examples.extensionOf "bar" None (Examples.topLevel "Foo"))
    = ".bar".
Proof. by vm_compute. Qed.

(** ** Default values *)

Lemma arg_quotes (value : string) :
  QStr.arg (QStr.quote +:+ "%1" +:+ QStr.quote) value =
  QStr.quote +:+ value +:+ QStr.quote.
Proof. reflexivity. Qed.

Lemma arg_0x (value : string) : QStr.arg "0x%1" value = "0x" +:+ value.
Proof. cbv [QStr.arg]. simpl. by rewrite append_nil_r. Qed.

Lemma without_cons (c x : ascii) (s : string) :
  without c (String x s) ↔ x ≠ c ∧ without c s.
Proof.
  unfold without. simpl. rewrite not_elem_of_cons.
  split; intros [Hne Hs]; (split; [congruence|done]).
Qed.

Lemma fromCStr_no_zero (value : string) :
  without "000" value → QStr.fromCStr value = value.
Proof.
  induction value as [|c value IH]; [done|].
  intros Hvalue. apply without_cons in Hvalue as [Hc Hvalue]. simpl.
  destruct (Ascii.eqb_spec c "000"); [done|]. by rewrite IH.
Qed.

Section DefaultValue.
Context (f : FieldDescriptor).

Lemma defaultValue_none : has_default_value f = false → defaultValue f = "".
Proof. intros E. unfold defaultValue. by rewrite E. Qed.

Lemma defaultValue_string :
  has_default_value f = true → cpp_type f = CPPTYPE_STRING → type f = TYPE_STRING →
  defaultValue f = QStr.quote +:+ default_value_string f +:+ QStr.quote.
Proof. intros E1 E2 E3. unfold defaultValue. by rewrite E1, E2, E3. Qed.

(** A byte string is printed up to its first zero byte. *)
Lemma defaultValue_bytes :
  has_default_value f = true → cpp_type f = CPPTYPE_STRING → type f = TYPE_BYTES →
  defaultValue f = "0x" +:+ QStr.toHex (QStr.fromCStr (default_value_string f)).
Proof. intros E1 E2 E3. unfold defaultValue. by rewrite E1, E2, E3, arg_0x. Qed.

(** X1.  A byte-string default without a zero byte is printed as [0x]
    followed by the two lower-case hexadecimal digits of every byte. *)
Lemma defaultValue_bytes_no_zero :
  has_default_value f = true → cpp_type f = CPPTYPE_STRING → type f = TYPE_BYTES →
  without "000" (default_value_string f) →
  defaultValue f = "0x" +:+ QStr.toHex (default_value_string f).
Proof. intros E1 E2 E3 E4. by rewrite defaultValue_bytes, fromCStr_no_zero. Qed.

Lemma defaultValue_bool :
  has_default_value f = true → cpp_type f = CPPTYPE_BOOL →
  defaultValue f = if default_value_bool f then "true" else "false".
Proof. intros E1 E2. unfold defaultValue. by rewrite E1, E2. Qed.

Lemma defaultValue_integer :
  has_default_value f = true →
  (cpp_type f = CPPTYPE_INT32 → defaultValue f = QStr.number (default_value_int32 f)) ∧
  (cpp_type f = CPPTYPE_INT64 → defaultValue f = QStr.number (default_value_int64 f)) ∧
  (cpp_type f = CPPTYPE_UINT32 → defaultValue f = QStr.number (default_value_uint32 f)) ∧
  (cpp_type f = CPPTYPE_UINT64 → defaultValue f = QStr.number (default_value_uint64 f)).
Proof. intros E1. unfold defaultValue. rewrite E1. by repeat split; intros ->. Qed.

Lemma defaultValue_enum (constant : EnumValueDescriptor) :
  has_default_value f = true → cpp_type f = CPPTYPE_ENUM →
  default_value_enum f = Some constant →
  defaultValue f = name constant.
Proof. intros E1 E2 E3. unfold defaultValue. by rewrite E1, E2, E3. Qed.

Lemma defaultValue_unknown :
  has_default_value f = true →
  cpp_type f = CPPTYPE_MESSAGE ∨
  (cpp_type f = CPPTYPE_STRING ∧ type f ≠ TYPE_STRING ∧ type f ≠ TYPE_BYTES) →
  defaultValue f = "Unknown".
Proof.
  intros E1 [E2|(E2 & E3 & E4)]; unfold defaultValue; rewrite E1, E2; [done|].
  by destruct (type f).
Qed.

End DefaultValue.

(** C6.  Defect in the code: a byte-string default is hex-encoded only up
    to its first zero byte, because the byte array is built from a C string.
    The default of [optional bytes f = 1 [default = "\000A"]] has the hex
    encoding [0041] and is printed as [0x]. *)
Theorem defaultValue_bytes_cut_at_zero :
  default_value_string Examples.bytesWithZero = String "000" "A" ∧
  QStr.toHex (default_value_string Examples.bytesWithZero) = "0041" ∧
  defaultValue Examples.bytesWithZero = "0x".
Proof. by vm_compute. Qed.

(** ** Whole-file comments *)

Lemma linesText_join (xs : list string) :
  xs ≠ [] → linesText xs = QStr.join QStr.LF xs +:+ QStr.LF.
Proof.
  induction xs as [|x [|y xs] IH]; intros Hne; [done| |].
  - simpl. by rewrite append_nil_r.
  - change (linesText (x :: y :: xs)) with (x +:+ QStr.LF +:+ linesText (y :: xs)).
    rewrite IH by done. unfold QStr.join. cbn [String.concat].
    by rewrite !append_assoc.
Qed.

Lemma left_linesText (xs : list string) :
  QStr.left (linesText xs) (QStr.size (linesText xs) - 1) = QStr.join QStr.LF xs.
Proof.
  destruct xs as [|x xs]; [by rewrite left_empty|].
  rewrite linesText_join by done. apply left_chops_LF.
Qed.

(** The loop over a run of [///] lines that another line ends: every line
    of the run is appended. *)
Lemma slashLines_ended (cs : list string) (line description other : string)
  (stream : list string) :
  QStr.startsWith line "///" = true →
  Forall slashLine cs →
  ¬ slashLine other →
  slashLines (cs ++ other :: stream) line description =
  description +:+
  linesText (QStr.mid line (if QStr.startsWith line "/// " then 4 else 3)
             :: map commentText cs).
Proof.
  intros Hline Hcs Hother. revert line description Hline.
  induction Hcs as [|c cs Hc Hcs IH]; intros line description Hline.
  - simpl. rewrite Hline.
    assert (slashLines stream (QStr.trimmed other)
              (description +:+
               QStr.mid line (if QStr.startsWith line "/// " then 4 else 3) +:+
               QStr.LF) =
            description +:+
            QStr.mid line (if QStr.startsWith line "/// " then 4 else 3) +:+
            QStr.LF) as ->.
    { destruct stream; simpl; [done|].
      unfold slashLine in Hother. by destruct (QStr.startsWith (QStr.trimmed other) "///"). }
    by rewrite append_nil_r.
  - cbn [app slashLines]. rewrite Hline, IH by done.
    cbn [map linesText]. unfold commentText at 2. by rewrite !append_assoc.
Qed.

(** The loop over a run of [///] lines that reaches the end of the stream:
    the line read last is not appended. *)
Lemma slashLines_to_the_end (cs : list string) (line description : string) :
  QStr.startsWith line "///" = true →
  Forall slashLine cs →
  slashLines cs line description =
  description +:+
  linesText (removelast
               (QStr.mid line (if QStr.startsWith line "/// " then 4 else 3)
                :: map commentText cs)).
Proof.
  intros Hline Hcs. revert line description Hline.
  induction Hcs as [|c cs Hc Hcs IH]; intros line description Hline.
  - simpl. by rewrite append_nil_r.
  - cbn [slashLines]. rewrite Hline, IH by done.
    cbn [map]. unfold commentText at 2.
    change (removelast (?x :: ?y :: ?l)) with (x :: removelast (y :: l)).
    cbn [linesText]. by rewrite !append_assoc.
Qed.

Lemma scanLines_blank (blanks stream : list string) :
  Forall blankLine blanks → scanLines (blanks ++ stream) = scanLines stream.
Proof.
  induction 1 as [|b blanks Hb Hblanks IH]; [done|].
  cbn [app scanLines]. unfold blankLine in Hb. by rewrite Hb.
Qed.

Lemma scanLines_slash (c : string) (stream : list string) :
  slashLine c →
  scanLines (c :: stream) =
  Some (let description := slashLines stream (QStr.trimmed c) "" in
        QStr.left description (QStr.size description - 1)).
Proof.
  intros Hc. cbn [scanLines]. unfold slashLine in Hc.
  rewrite (startsWith_isEmpty _ _ Hc) by done. by rewrite Hc.
Qed.

(** A run of [///] lines, after blank lines at most and ended by another
    line, is the description: all its lines, joined by line feeds. *)
Lemma scanLines_run_ended (blanks cs : list string) (c other : string)
  (stream : list string) :
  Forall blankLine blanks → Forall slashLine (c :: cs) → ¬ slashLine other →
  scanLines (blanks ++ c :: cs ++ other :: stream) =
  Some (QStr.join QStr.LF (map commentText (c :: cs))).
Proof.
  intros Hblanks Hcs Hother. inversion Hcs as [|? ? Hc Hcs']; subst.
  rewrite scanLines_blank, scanLines_slash by done. cbn zeta.
  rewrite slashLines_ended by done.
  change ("" +:+ ?s) with s. by rewrite left_linesText.
Qed.

(** A run of [///] lines that reaches the end of the file is the
    description without its last line. *)
Lemma scanLines_run_to_the_end (blanks cs : list string) (c : string) :
  Forall blankLine blanks → Forall slashLine (c :: cs) →
  scanLines (blanks ++ c :: cs) =
  Some (QStr.join QStr.LF (map commentText (removelast (c :: cs)))).
Proof.
  intros Hblanks Hcs. inversion Hcs as [|? ? Hc Hcs']; subst.
  rewrite scanLines_blank, scanLines_slash by done. cbn zeta.
  rewrite slashLines_to_the_end by done.
  change ("" +:+ ?s) with s. rewrite left_linesText. do 2 f_equal.
  change (QStr.mid _ _ :: map commentText cs) with (map commentText (c :: cs)).
  generalize (c :: cs). intros l. induction l as [|x [|y l] IH]; [done..|].
  change (removelast (x :: y :: l)) with (x :: removelast (y :: l)).
  cbn [map]. cbn [map] in IH. rewrite <- IH. done.
Qed.

Lemma scanLines_no_comment (stream : list string) :
  noLeadingComment stream → scanLines stream = Some "".
Proof.
  unfold noLeadingComment. induction stream as [|next stream IH]; [done|].
  cbn [firstLine scanLines].
  destruct (QStr.isEmpty (QStr.trimmed next)); [done|].
  intros [-> H]. cbn [andb]. by rewrite H.
Qed.

Lemma descriptionOf_file_scanned w ctx fileDescriptor text description :
  openFile w (name fileDescriptor) = inl text →
  scanLines (readLines text) = Some description →
  descriptionOf_file w ctx fileDescriptor = Some (described ctx description).
Proof.
  intros Hopen Hscan. unfold descriptionOf_file, described.
  rewrite Hopen, Hscan. by destruct (checkExcluded ctx description).
Qed.

Lemma described_as_is ctx description :
  QStr.trimmed description = description →
  QStr.startsWith description "@exclude" = false →
  described ctx description = Described description false.
Proof.
  intros Htrimmed Hmarker. unfold described, checkExcluded.
  by rewrite Htrimmed, Hmarker.
Qed.

(** C7.  A file whose first three lines are [///] comments and whose fourth
    line is blank is described by the text of the three lines, joined by
    line feeds and without a line feed at the end; a file that does not
    begin with a documentation comment has the empty description.  Like
    every description, the joined text is trimmed and checked for the
    exclusion marker; where it has no white space around it and no marker,
    it is the description as it is. *)
Theorem file_description_three_slash_lines :
  (∀ w ctx fileDescriptor text l1 l2 l3 blank stream,
     openFile w (name fileDescriptor) = inl text →
     readLines text = l1 :: l2 :: l3 :: blank :: stream →
     slashLine l1 → slashLine l2 → slashLine l3 → blankLine blank →
     descriptionOf_file w ctx fileDescriptor =
     Some (described ctx
             (commentText l1 +:+ QStr.LF +:+ commentText l2 +:+ QStr.LF +:+
              commentText l3)) ∧
     (QStr.trimmed (commentText l1 +:+ QStr.LF +:+ commentText l2 +:+ QStr.LF +:+
                    commentText l3) =
      commentText l1 +:+ QStr.LF +:+ commentText l2 +:+ QStr.LF +:+ commentText l3 →
      QStr.startsWith
        (commentText l1 +:+ QStr.LF +:+ commentText l2 +:+ QStr.LF +:+ commentText l3)
        "@exclude" = false →
      descriptionOf_file w ctx fileDescriptor =
      Some (Described
              (commentText l1 +:+ QStr.LF +:+ commentText l2 +:+ QStr.LF +:+
               commentText l3) false))) ∧
  (∀ w ctx fileDescriptor text,
     openFile w (name fileDescriptor) = inl text →
     noLeadingComment (readLines text) →
     descriptionOf_file w ctx fileDescriptor = Some (Described "" false)).
Proof.
  split.
  - intros w ctx fileDescriptor text l1 l2 l3 blank stream Hopen Hlines H1 H2 H3 Hblank.
    assert (descriptionOf_file w ctx fileDescriptor =
            Some (described ctx
                    (commentText l1 +:+ QStr.LF +:+ commentText l2 +:+ QStr.LF +:+
                     commentText l3))) as Hdescribed.
    { eapply descriptionOf_file_scanned; [done|]. rewrite Hlines.
      apply (scanLines_run_ended [] [l2; l3] l1 blank stream);
        [done|by repeat constructor|].
      unfold slashLine. unfold blankLine in Hblank. by rewrite Hblank. }
    split; [done|]. intros Htrimmed Hmarker.
    by rewrite Hdescribed, described_as_is.
  - intros w ctx fileDescriptor text Hopen Hnone.
    by apply (descriptionOf_file_scanned w ctx fileDescriptor text "");
      [|apply scanLines_no_comment].
Qed.

Lemma file_description_three_slash_lines_witness :
  descriptionOf_file Examples.world generatorContext (Examples.file "a.proto" [] []) =
    Some (Described ("Line one" +:+ QStr.LF +:+ "Line two" +:+ QStr.LF +:+ "Line three")
            false) ∧
  descriptionOf_file Examples.world generatorContext (Examples.file "b.proto" [] []) =
    Some (Described "" false).
Proof.
  destruct file_description_three_slash_lines as [Hthree Hnone]. split.
  - apply (Hthree Examples.world generatorContext (Examples.file "a.proto" [] [])
             Examples.threeSlashLines "/// Line one" "/// Line two" "/// Line three"
             "" ["package pkg;"]); vm_compute; reflexivity.
  - apply (Hnone Examples.world generatorContext (Examples.file "b.proto" [] [])
             ("package pkg;" +:+ QStr.LF)); vm_compute; [reflexivity|].
    split; reflexivity.
Defined.

(** C9.  When a run of [///] lines reaches the end of the file, the line
    read last is not appended: the description of a file that consists of
    such lines only, after blank lines at most, lacks the last of them. *)
Theorem file_description_drops_last_slash_line
  w ctx fileDescriptor text blanks c cs :
  openFile w (name fileDescriptor) = inl text →
  readLines text = blanks ++ c :: cs →
  Forall blankLine blanks → Forall slashLine (c :: cs) →
  descriptionOf_file w ctx fileDescriptor =
  Some (described ctx (QStr.join QStr.LF (map commentText (removelast (c :: cs))))).
Proof.
  intros Hopen Hlines Hblanks Hcs.
  eapply descriptionOf_file_scanned; [done|]. rewrite Hlines.
  by apply scanLines_run_to_the_end.
Qed.

Lemma file_description_drops_last_slash_line_witness :
  descriptionOf_file Examples.world generatorContext (Examples.file "c.proto" [] []) =
    Some (Described "Line one" false).
Proof.
  apply (file_description_drops_last_slash_line Examples.world generatorContext
           (Examples.file "c.proto" [] []) Examples.onlySlashLines
           [] "/// Line one" ["/// Line two"]).
  - vm_compute; reflexivity.
  - vm_compute; reflexivity.
  - constructor.
  - repeat constructor; vm_compute; reflexivity.
Defined.

(** ** Error messages *)

(** A text without a percent sign has no place marker: in front of a
    format, it is left alone by [arg]. *)
Lemma argPieces_without (s format : string) :
  without "%" s →
  QStr.argPieces (s +:+ format) =
  map QStr.Literal (list_ascii_of_string s) ++ QStr.argPieces format.
Proof.
  induction s as [|c s IH]; [done|].
  intros Hs. apply without_cons in Hs as [Hc Hs]. rewrite append_cons.
  cbn [QStr.argPieces list_ascii_of_string map app].
  destruct (Ascii.eqb_spec c "%"); [done|]. cbn [negb]. by rewrite IH.
Qed.

Lemma minEscape_literals (cs : list ascii) (ps : list QStr.ArgPiece) :
  QStr.minEscape (map QStr.Literal cs ++ ps) = QStr.minEscape ps.
Proof. induction cs as [|c cs IH]; [done|]. simpl. by rewrite IH. Qed.

Lemma replaceEscapes_literals (lowest : nat) (a s : string) (ps : list QStr.ArgPiece) :
  QStr.replaceEscapes lowest a (map QStr.Literal (list_ascii_of_string s) ++ ps) =
  s +:+ QStr.replaceEscapes lowest a ps.
Proof. induction s as [|c s IH]; [done|]. simpl. by rewrite IH. Qed.

Lemma arg_without (s format a : string) (lowest : nat) :
  without "%" s →
  QStr.minEscape (QStr.argPieces format) = Some lowest →
  QStr.arg (s +:+ format) a =
  s +:+ QStr.replaceEscapes lowest a (QStr.argPieces format).
Proof.
  intros Hs Hformat. unfold QStr.arg.
  rewrite argPieces_without, minEscape_literals, Hformat by done.
  apply replaceEscapes_literals.
Qed.

(** The message for a file that cannot be opened, when the name of the file
    has no percent sign. *)
Lemma open_failure_message (fileName errorString : string) :
  without "%" fileName →
  QStr.arg (QStr.arg "%1: %2" fileName) errorString =
  fileName +:+ ": " +:+ errorString.
Proof.
  intros Hname. change (QStr.arg "%1: %2" fileName) with (fileName +:+ ": %2").
  rewrite (arg_without fileName ": %2" errorString 2) by done.
  f_equal. cbv [QStr.argPieces QStr.replaceEscapes]. simpl.
  by rewrite append_nil_r.
Qed.

(** ** The builder reads the exclusion flag of the context, nothing else *)

Lemma fold_left_ext {A B} (f g : A → B → A) (l : list B) (a : A) :
  (∀ a b, f a b = g a b) → fold_left f l a = fold_left g l a.
Proof.
  intros Hfg. revert a. induction l as [|b l IH]; intros a; simpl; [done|].
  by rewrite Hfg, IH.
Qed.

Section SameFlag.
Context (ctx ctx' : DocGeneratorContext).
Context (Hflag : noExclude ctx = noExclude ctx').

Lemma checkExcluded_flag description :
  checkExcluded ctx description = checkExcluded ctx' description.
Proof using Hflag. unfold checkExcluded. by rewrite Hflag. Qed.

Lemma descriptionOf_flag {T} `{Located T} (descriptor : T) :
  descriptionOf ctx descriptor = descriptionOf ctx' descriptor.
Proof using Hflag. apply checkExcluded_flag. Qed.

Lemma addField_flag f fields : addField ctx f fields = addField ctx' f fields.
Proof using Hflag. unfold addField. by rewrite descriptionOf_flag. Qed.

Lemma addExtension_flag f extensions :
  addExtension ctx f extensions = addExtension ctx' f extensions.
Proof using Hflag. unfold addExtension. by rewrite descriptionOf_flag. Qed.

Lemma addValue_flag values v : addValue ctx values v = addValue ctx' values v.
Proof using Hflag. unfold addValue. by rewrite descriptionOf_flag. Qed.

Lemma addEnum_flag e enums : addEnum ctx e enums = addEnum ctx' e enums.
Proof using Hflag.
  unfold addEnum, enumRecord. rewrite descriptionOf_flag.
  by rewrite (fold_left_ext (addValue ctx) (addValue ctx')) by apply addValue_flag.
Qed.

Lemma messageRecord_flag description descriptor :
  messageRecord ctx description descriptor = messageRecord ctx' description descriptor.
Proof using Hflag.
  unfold messageRecord.
  rewrite (fold_left_ext (λ fields f, addField ctx f fields)
             (λ fields f, addField ctx' f fields))
    by (intros; apply addField_flag).
  by rewrite (fold_left_ext (λ extensions f, addExtension ctx f extensions)
                (λ extensions f, addExtension ctx' f extensions))
    by (intros; apply addExtension_flag).
Qed.

Lemma addMessages_flag descriptor lists :
  addMessages ctx descriptor lists = addMessages ctx' descriptor lists.
Proof using Hflag.
  revert lists.
  induction descriptor as [n fn ct loc fs xs nested es IH] using Descriptor_nested_ind.
  intros [messages enums]. cbn [addMessages].
  rewrite descriptionOf_flag.
  destruct (descriptionOf ctx' _) as [d []]; [done|].
  rewrite messageRecord_flag. cbn [nested_type enum_type].
  match goal with |- context [fold_left _ nested ?start] =>
    assert (fold_left (λ lists d, addMessages ctx d lists) nested start =
            fold_left (λ lists d, addMessages ctx' d lists) nested start) as ->
  end.
  { generalize (messages ++ [QVHash (messageRecord ctx' d
                  (mkDescriptor n fn ct loc fs xs nested es))], enums).
    induction IH as [|m nested Hm Hnested IHn]; intros lists; simpl; [done|].
    by rewrite Hm, IHn. }
  destruct (fold_left _ nested _) as [ms es'].
  by rewrite (fold_left_ext (λ enums e, addEnum ctx e enums)
                (λ enums e, addEnum ctx' e enums))
    by (intros; apply addEnum_flag).
Qed.

Lemma addMethod_flag methods m : addMethod ctx methods m = addMethod ctx' methods m.
Proof using Hflag. unfold addMethod. by rewrite descriptionOf_flag. Qed.

Lemma addService_flag s services : addService ctx s services = addService ctx' s services.
Proof using Hflag.
  unfold addService, serviceRecord. rewrite descriptionOf_flag.
  by rewrite (fold_left_ext (addMethod ctx) (addMethod ctx')) by apply addMethod_flag.
Qed.

Lemma fileMessagesEnums_flag fileDescriptor :
  fileMessagesEnums ctx fileDescriptor = fileMessagesEnums ctx' fileDescriptor.
Proof using Hflag.
  unfold fileMessagesEnums.
  rewrite (fold_left_ext (λ lists d, addMessages ctx d lists)
             (λ lists d, addMessages ctx' d lists))
    by (intros; apply addMessages_flag).
  destruct (fold_left _ _ _) as [messages enums].
  by rewrite (fold_left_ext (λ enums e, addEnum ctx e enums)
                (λ enums e, addEnum ctx' e enums))
    by (intros; apply addEnum_flag).
Qed.

Lemma fileServices_flag fileDescriptor :
  fileServices ctx fileDescriptor = fileServices ctx' fileDescriptor.
Proof using Hflag.
  unfold fileServices.
  by rewrite (fold_left_ext (λ services s, addService ctx s services)
                (λ services s, addService ctx' s services))
    by (intros; apply addService_flag).
Qed.

Lemma fileExtensions_flag fileDescriptor :
  fileExtensions ctx fileDescriptor = fileExtensions ctx' fileDescriptor.
Proof using Hflag.
  unfold fileExtensions.
  by rewrite (fold_left_ext (λ extensions f, addExtension ctx f extensions)
                (λ extensions f, addExtension ctx' f extensions))
    by (intros; apply addExtension_flag).
Qed.

Lemma fileRecord_flag description fileDescriptor :
  fileRecord ctx description fileDescriptor = fileRecord ctx' description fileDescriptor.
Proof using Hflag.
  unfold fileRecord.
  by rewrite fileMessagesEnums_flag, fileServices_flag, fileExtensions_flag.
Qed.

Lemma descriptionOf_file_flag w fileDescriptor :
  descriptionOf_file w ctx fileDescriptor = descriptionOf_file w ctx' fileDescriptor.
Proof using Hflag.
  unfold descriptionOf_file. destruct (openFile w _); [|done].
  destruct (scanLines _); [|done]. by rewrite checkExcluded_flag.
Qed.

Lemma addFile_flag w fileDescriptor files error :
  addFile w ctx fileDescriptor files error = addFile w ctx' fileDescriptor files error.
Proof using Hflag.
  unfold addFile. rewrite descriptionOf_file_flag.
  destruct (descriptionOf_file w ctx' fileDescriptor) as [[|d []]|];
    by rewrite ?fileRecord_flag.
Qed.

End SameFlag.

(** [addFile] appends to the list it is given, and leaves the error message
    alone when the file can be opened. *)
Lemma addFile_readable w ctx fileDescriptor files error :
  readable w fileDescriptor →
  addFile w ctx fileDescriptor files error =
  Some (files ++ recordsOf w ctx fileDescriptor, error).
Proof.
  intros (text & description & Hopen & Hscan).
  unfold recordsOf, addFile, descriptionOf_file. rewrite Hopen, Hscan.
  destruct (checkExcluded ctx description) as [d []]; [|done].
  by rewrite app_nil_r.
Qed.

(** ** The generator entry point and the host *)

Lemma samePointer_refl (f : FileDescriptor) : samePointer f f = true.
Proof. apply String.eqb_refl. Qed.

Lemma samePointer_name (f1 f2 : FileDescriptor) :
  samePointer f1 f2 = true ↔ name f1 = name f2.
Proof. apply String.eqb_eq. Qed.

Lemma isFirst_front (f : FileDescriptor) (rest : list FileDescriptor) :
  isFirst f (f :: rest) = true.
Proof. apply samePointer_refl. Qed.

Lemma isFirst_later (f front : FileDescriptor) (rest : list FileDescriptor) :
  NoDup (map name (front :: rest)) → f ∈ rest → isFirst f (front :: rest) = false.
Proof.
  intros Hnodup Hf. unfold isFirst. simpl.
  destruct (samePointer f front) eqn:E; [|done].
  apply samePointer_name in E. apply NoDup_cons in Hnodup as [Hfront _].
  destruct Hfront. rewrite <- E. by apply list_elem_of_fmap_2.
Qed.

Lemma isLast_back (f : FileDescriptor) (parsedFiles : list FileDescriptor) :
  last parsedFiles = Some f → isLast f parsedFiles = true.
Proof. intros E. unfold isLast. rewrite E. apply samePointer_refl. Qed.

Lemma isLast_earlier (f back : FileDescriptor) (earlier : list FileDescriptor) :
  NoDup (map name (earlier ++ [back])) → f ∈ earlier →
  isLast f (earlier ++ [back]) = false.
Proof.
  intros Hnodup Hf. unfold isLast. rewrite last_snoc.
  destruct (samePointer f back) eqn:E; [|done].
  apply samePointer_name in E. rewrite map_app in Hnodup.
  apply NoDup_app in Hnodup as (_ & Hdisjoint & _).
  destruct (Hdisjoint (name f)); [by apply list_elem_of_fmap_2|].
  rewrite E. simpl. apply list_elem_of_here.
Qed.

Lemma render_rendered w engine ctx error : rendered (render w engine ctx error) = true.
Proof.
  unfold render. destruct (QStr.isEmpty _); [by destruct (toJson _ _)|].
  destruct (openFile _ _); [|done]. by destruct (negb _).
Qed.

Lemma render_context w engine ctx error : context (render w engine ctx error) = ctx.
Proof.
  unfold render. destruct (QStr.isEmpty _); [by destruct (toJson _ _)|].
  destruct (openFile _ _); [|done]. by destruct (negb _).
Qed.

(** A call that fails writes nothing. *)
Lemma render_failure w engine ctx error :
  succeeded (render w engine ctx error) = false →
  output (render w engine ctx error) = None.
Proof.
  unfold render. destruct (QStr.isEmpty _); [by destruct (toJson _ _)|].
  destruct (openFile _ _); [|done]. by destruct (negb _).
Qed.

Lemma parseParameter_files w ctx parameter error :
  files (parseParameter w ctx parameter error).1.2 = files ctx.
Proof.
  unfold parseParameter. destruct (_ && _); [done|]. destruct (_ && _); [done|].
  by destruct (if negb _ then _ else _).
Qed.

Lemma withFiles_files (ctx : DocGeneratorContext) : withFiles ctx (files ctx) = ctx.
Proof. by destruct ctx. Qed.

Section Run.
Context (w : World) (engine : Engine) (parameter : string).
Context (parsedFiles : list FileDescriptor) (ctx1 : DocGeneratorContext).

(** A call that gets past the parameter and reads its file. *)
Lemma Generate_readable ctx f fs :
  configure w ctx f parameter parsedFiles "" = (true, withFiles ctx1 fs, "") →
  readable w f →
  Generate w engine ctx f parameter parsedFiles "" =
  Some (let ctx' := withFiles ctx1 (fs ++ recordsOf w ctx1 f) in
        if isLast f parsedFiles then render w engine ctx' ""
        else {| succeeded := true; context := ctx'; errorMessage := "";
                rendered := false; output := None |}).
Proof.
  intros Hconfigure Hreadable. unfold Generate. rewrite Hconfigure. cbn [negb].
  rewrite (addFile_readable _ _ _ _ _ Hreadable). cbn [files withFiles QStr.isEmpty negb].
  assert (recordsOf w (withFiles ctx1 fs) f = recordsOf w ctx1 f) as ->.
  { unfold recordsOf. by rewrite (addFile_flag (withFiles ctx1 fs) ctx1). }
  by destruct (isLast f parsedFiles).
Qed.

Lemma invocations_success (todo : list FileDescriptor) (ctx : DocGeneratorContext) :
  todo ≠ [] →
  (∀ f, head todo = Some f →
        configure w ctx f parameter parsedFiles "" =
        (true, withFiles ctx1 (files ctx), "")) →
  Forall (λ f, isFirst f parsedFiles = false) (tail todo) →
  Forall (λ f, isLast f parsedFiles = false) (removelast todo) →
  (∀ f, last todo = Some f → isLast f parsedFiles = true) →
  Forall (readable w) todo →
  ∃ outcomes,
    invocations w engine parameter parsedFiles ctx todo = Some outcomes ∧
    map rendered outcomes = replicate (List.length todo - 1) false ++ [true] ∧
    Forall (λ o, succeeded o = true ∧ output o = None) (removelast outcomes) ∧
    last outcomes =
    Some (render w engine
            (withFiles ctx1 (files ctx ++ flat_map (recordsOf w ctx1) todo)) "").
Proof.
  revert ctx. induction todo as [|f todo IH]; intros ctx Hne Hhead Hfirst Hlast Hback Hread;
    [done|].
  apply Forall_cons in Hread as [Hf Hread].
  cbn [invocations]. rewrite (Generate_readable ctx f (files ctx)) by auto.
  destruct todo as [|f' todo].
  - rewrite (Hback f) by done. cbn zeta.
    exists [render w engine (withFiles ctx1 (files ctx ++ recordsOf w ctx1 f)) ""].
    split; [by destruct (_ && _)|]. simpl. rewrite render_rendered, app_nil_r. done.
  - apply Forall_cons in Hlast as [Hnotlast Hlast]. rewrite Hnotlast. cbn zeta.
    cbn [succeeded errorMessage context QStr.isEmpty andb].
    apply Forall_cons in Hfirst as [Hnotfirst Hfirst].
    destruct (IH (withFiles ctx1 (files ctx ++ recordsOf w ctx1 f)))
      as (outcomes & -> & Hrendered & Hplain & Hend); [done| | | | |done|].
    + intros ? [= <-]. unfold configure. by rewrite Hnotfirst.
    + done.
    + done.
    + intros g Hg. by apply Hback.
    + eexists. split; [done|]. cbn [map List.length]. rewrite Hrendered.
      cbn [files withFiles flat_map] in *. rewrite <- app_assoc in Hend.
      split; [|split].
      * simpl. by rewrite Nat.sub_0_r.
      * destruct outcomes as [|o outcomes]; [done|].
        change (removelast (?a :: o :: outcomes)) with (a :: removelast (o :: outcomes)).
        by constructor.
      * by destruct outcomes.
Qed.

End Run.

(** A call writes output only when it is the call for the last file, and
    only when it succeeds. *)
Lemma Generate_output w engine ctx f parameter parsedFiles error o :
  Generate w engine ctx f parameter parsedFiles error = Some o →
  output o ≠ None → isLast f parsedFiles = true ∧ succeeded o = true.
Proof.
  unfold Generate. destruct (configure _ _ _ _ _ _) as [[[] ctx'] error'];
    cbn [negb]; [|by intros [= <-]].
  destruct (addFile _ _ _ _ _) as [[fs e]|]; [|done].
  destruct (negb _); [by intros [= <-]|].
  destruct (isLast f parsedFiles); [|by intros [= <-]].
  intros [= <-] Houtput. split; [done|].
  destruct (succeeded (render _ _ _ _)) eqn:E; [done|].
  by apply render_failure in E.
Qed.

(** *** What the last call renders *)

Lemma scanned_readable w f description : scanned w f description → readable w f.
Proof. intros (text & Hopen & Hscan). by exists text, description. Qed.

(** [addFile] appends the record of a file that is scanned and not
    excluded, and nothing for a file that is excluded. *)
Lemma recordsOf_scanned w ctx f description :
  scanned w f description →
  recordsOf w ctx f =
  if (checkExcluded ctx description).2 then [] else [fileRecordOf ctx (f, description)].
Proof.
  intros (text & Hopen & Hscan).
  unfold recordsOf, addFile, descriptionOf_file, fileRecordOf.
  rewrite Hopen, Hscan. cbn [fst snd].
  by destruct (checkExcluded ctx description) as [d []].
Qed.

Lemma recordsOf_documented w ctx parsedFiles descriptions :
  Forall2 (scanned w) parsedFiles descriptions →
  flat_map (recordsOf w ctx) parsedFiles =
  map (fileRecordOf ctx) (documentedFiles ctx parsedFiles descriptions).
Proof.
  unfold documentedFiles. induction 1 as [|f d fs ds Hf _ IH]; [done|].
  cbn [flat_map zip zip_with List.filter]. rewrite IH, (recordsOf_scanned _ _ _ _ Hf).
  cbn [snd]. by destruct (checkExcluded ctx d).2.
Qed.

Lemma fileRecordOf_file_name ctx fd :
  entry "file_name" (fileRecordOf ctx fd) = QStr.fileName (name fd.1).
Proof.
  unfold entry, fileRecordOf, fileRecord, toHash, value.
  destruct (fileMessagesEnums ctx fd.1) as [messages enums].
  generalize (QStr.fileName (name fd.1)) (fileServices ctx fd.1)
    (fileExtensions ctx fd.1) (package fd.1) (checkExcluded ctx fd.2).1.
  intros base services extensions package description. by vm_compute.
Qed.

(** Without a marker, or with the override, no file is excluded. *)
Lemma checkExcluded_kept ctx description :
  noExclude ctx = true ∨ ¬ startsWithMarker description →
  (checkExcluded ctx description).2 = false.
Proof.
  unfold checkExcluded, startsWithMarker.
  destruct (QStr.startsWith _ _); [|done]. intros [-> | Hmarker]; [done|].
  by destruct Hmarker.
Qed.

Lemma documentedFiles_all ctx parsedFiles descriptions :
  noExclude ctx = true ∨ Forall (λ text, ¬ startsWithMarker text) descriptions →
  documentedFiles ctx parsedFiles descriptions = zip parsedFiles descriptions.
Proof.
  intros Hkept. unfold documentedFiles.
  revert parsedFiles. induction descriptions as [|d ds IH]; intros [|f fs]; try done.
  cbn [zip zip_with List.filter snd]. rewrite checkExcluded_kept.
  - cbn [negb]. f_equal. apply IH. destruct Hkept as [?|Hall]; [by left|right].
    by apply Forall_cons in Hall as [_ ?].
  - destruct Hkept as [?|Hall]; [by left|right]. by apply Forall_cons in Hall as [? _].
Qed.

(** With an empty template [render] writes the JSON text of the records. *)
Lemma render_json w engine ctx error json :
  template_ ctx = "" → toJson engine (files ctx) = Some json →
  succeeded (render w engine ctx error) = true ∧
  output (render w engine ctx error) = Some (outputFileName ctx, json).
Proof. intros Htemplate Hjson. unfold render. by rewrite Htemplate, Hjson. Qed.

(** With a template [render] writes what the engine makes of the template
    and the records. *)
Lemma render_template w engine ctx error text :
  template_ ctx ≠ "" →
  openFile w ":/templates/scalar_value_types.json" = inl text →
  renderer_error
    (mustache engine (template_ ctx)
       (templateArguments (fromJson engine text) (files ctx))) = "" →
  succeeded (render w engine ctx error) = true ∧
  output (render w engine ctx error) =
  Some (outputFileName ctx,
        rendered_text
          (mustache engine (template_ ctx)
             (templateArguments (fromJson engine text) (files ctx)))).
Proof.
  intros Htemplate Hopen Herror. unfold render.
  assert (QStr.isEmpty (template_ ctx) = false) as -> by by destruct (template_ ctx).
  rewrite Hopen. fold (templateArguments (fromJson engine text) (files ctx)).
  by rewrite Herror.
Qed.

(** C2.  In a run over a list of distinct files in which the parameter
    parses, the template is read and the scan of every file ends,
    [Generate] is called once per file and [render] is called in exactly
    one of the calls, the one for the last file of the list; no earlier
    call writes anything.  The context that call renders holds one record
    for every file that is not excluded, in the order of the list: the
    record [addFile] builds from the file and its description, under the
    name of the file.  Where no file is excluded these are the records of
    all the files.  What the call writes to the configured output file is
    made of these records: their JSON text when the template is empty, and
    otherwise what the template engine makes of the template and the
    records. *)
Theorem render_once_after_last_file
  w engine parameter (parsedFiles : list FileDescriptor) (descriptions : list string)
  ctx1 :
  parsedFiles ≠ [] →
  NoDup (map name parsedFiles) →
  parseParameter w generatorContext parameter "" = (true, ctx1, "") →
  Forall2 (scanned w) parsedFiles descriptions →
  ∃ outcomes final documented records,
    run w engine parameter parsedFiles = Some outcomes ∧
    List.length outcomes = List.length parsedFiles ∧
    map rendered outcomes = replicate (List.length parsedFiles - 1) false ++ [true] ∧
    Forall (λ o, succeeded o = true ∧ output o = None) (removelast outcomes) ∧
    last outcomes = Some final ∧
    documented = documentedFiles ctx1 parsedFiles descriptions ∧
    (noExclude ctx1 = true ∨ Forall (λ text, ¬ startsWithMarker text) descriptions →
     documented = zip parsedFiles descriptions) ∧
    records = map (fileRecordOf ctx1) documented ∧
    map (entry "file_name") records = map (λ fd, QStr.fileName (name fd.1)) documented ∧
    files (context final) = records ∧
    (template_ ctx1 = "" →
     ∀ json, toJson engine records = Some json →
       succeeded final = true ∧ output final = Some (outputFileName ctx1, json)) ∧
    (template_ ctx1 ≠ "" →
     ∀ text, openFile w ":/templates/scalar_value_types.json" = inl text →
       renderer_error
         (mustache engine (template_ ctx1)
            (templateArguments (fromJson engine text) records)) = "" →
       succeeded final = true ∧
       output final =
       Some (outputFileName ctx1,
             rendered_text
               (mustache engine (template_ ctx1)
                  (templateArguments (fromJson engine text) records)))).
Proof.
  intros Hne Hnodup Hparse Hscanned.
  assert (Forall (readable w) parsedFiles) as Hread.
  { clear -Hscanned. induction Hscanned as [|f d fs ds Hf _ IH]; constructor; [|done].
    by apply (scanned_readable w f d). }
  destruct (invocations_success w engine parameter parsedFiles ctx1
              parsedFiles generatorContext)
    as (outcomes & Hrun & Hrendered & Hplain & Hend); [done| | | | |done|].
  - destruct parsedFiles as [|front rest]; [done|]. intros ? [= <-].
    unfold configure. rewrite isFirst_front, Hparse.
    pose proof (parseParameter_files w generatorContext parameter "") as Hfiles.
    rewrite Hparse in Hfiles. cbn [fst snd] in Hfiles.
    by rewrite <- Hfiles, withFiles_files.
  - destruct parsedFiles as [|front rest]; [done|]. cbn [tail].
    apply List.Forall_forall. intros f Hf.
    by apply isFirst_later; [|apply list_elem_of_In].
  - destruct (exists_last Hne) as (earlier & back & ->).
    rewrite removelast_last. apply List.Forall_forall. intros f Hf.
    by apply isLast_earlier; [|apply list_elem_of_In].
  - intros f Hf. by apply isLast_back.
  - cbn [files generatorContext app] in Hend.
    rewrite (recordsOf_documented w ctx1 parsedFiles descriptions Hscanned) in Hend.
    set (documented := documentedFiles ctx1 parsedFiles descriptions) in *.
    set (records := map (fileRecordOf ctx1) documented) in *.
    set (ctx := withFiles ctx1 records) in *.
    exists outcomes, (render w engine ctx ""), documented, records.
    split; [done|]. split.
    { apply (f_equal List.length) in Hrendered.
      rewrite length_map, length_app, length_replicate in Hrendered.
      destruct parsedFiles; [done|]. simpl in *. lia. }
    do 4 (split; [done|]). split; [apply documentedFiles_all|].
    split; [done|]. split.
    { unfold records. rewrite map_map. apply map_ext. intros fd.
      apply fileRecordOf_file_name. }
    split; [by rewrite render_context|]. split.
    + intros Htemplate json Hjson. by apply (render_json w engine ctx "" json).
    + intros Htemplate text Hopen Herror.
      by apply (render_template w engine ctx "" text).
Qed.

Lemma render_once_after_last_file_witness :
  ∃ outcomes final,
    run Examples.world Examples.engine "html,index.html" Examples.threeFiles
      = Some outcomes ∧
    map rendered outcomes = [false; false; true] ∧
    map output outcomes = [None; None; Some ("index.html", "3")] ∧
    last outcomes = Some final ∧
    succeeded final = true ∧
    map (entry "file_name") (files (context final)) = ["a.proto"; "b.proto"; "c.proto"] ∧
    map (entry "file_description") (files (context final)) =
      ["Line one" +:+ QStr.LF +:+ "Line two" +:+ QStr.LF +:+ "Line three"; "";
       "Line one"].
Proof.
  destruct (render_once_after_last_file Examples.world Examples.engine
              "html,index.html" Examples.threeFiles
              ["Line one" +:+ QStr.LF +:+ "Line two" +:+ QStr.LF +:+ "Line three"; "";
               "Line one"]
              Examples.htmlContext)
    as (outcomes & final & documented & records & Hrun & Hlength & Hrendered & Hplain &
        Hlast & Hdocumented & Hall & Hrecords & Hnames & Hfiles & _ & Houtput).
  - discriminate.
  - apply (bool_decide_unpack _). vm_compute. reflexivity.
  - vm_compute. reflexivity.
  - unfold Examples.threeFiles.
    repeat (apply List.Forall2_cons; [eexists; split; vm_compute; reflexivity|]).
    apply List.Forall2_nil.
  - exists outcomes, final.
    destruct (Houtput ltac:(discriminate) "[]" eq_refl eq_refl) as [Hsucceeded Hwritten].
    rewrite Hfiles, Hrecords, Hdocumented. rewrite Hrecords, Hdocumented in Hwritten.
    split; [done|]. split; [done|]. split.
    { destruct outcomes as [|o1 [|o2 [|o3 [|o4 outcomes]]]]; try done.
      change (removelast [o1; o2; o3]) with [o1; o2] in Hplain.
      apply Forall_cons in Hplain as [[_ Hfirst] Hplain].
      apply Forall_cons in Hplain as [[_ Hsecond] _].
      injection Hlast as ->. cbn [map]. rewrite Hfirst, Hsecond, Hwritten.
      by vm_compute. }
    split; [done|]. split; [done|]. split; by vm_compute.
Defined.

(** The three files of the example: two calls that only collect, and a
    third that renders the three records into the configured file. *)
Example three_files_output :
  option_map (map (λ o, (succeeded o, rendered o, output o)))
    (run Examples.world Examples.engine "html,index.html" Examples.threeFiles) =
  Some [(true, false, None); (true, false, None);
        (true, true, Some ("index.html", "3"))].
Proof. by vm_compute. Qed.

(** ** Runs that may fail *)

(** [render] is called in the call for the last file only. *)
Lemma Generate_rendered w engine ctx f parameter parsedFiles error o :
  Generate w engine ctx f parameter parsedFiles error = Some o →
  rendered o = true → isLast f parsedFiles = true.
Proof.
  unfold Generate. destruct (configure _ _ _ _ _ _) as [[[] ctx'] error'];
    cbn [negb]; [|by intros [= <-]].
  destruct (addFile _ _ _ _ _) as [[fs e]|]; [|done].
  destruct (negb _); [by intros [= <-]|].
  by destruct (isLast f parsedFiles); [|intros [= <-]].
Qed.

(** The calls of a run are the calls for the files, in their order. *)
Lemma invocations_lookup w engine parameter parsedFiles todo ctx outcomes i o :
  invocations w engine parameter parsedFiles ctx todo = Some outcomes →
  outcomes !! i = Some o →
  ∃ f ctx', todo !! i = Some f ∧
            Generate w engine ctx' f parameter parsedFiles "" = Some o.
Proof.
  revert ctx outcomes i. induction todo as [|f todo IH]; intros ctx outcomes i; simpl.
  - by intros [= <-].
  - destruct (Generate w engine ctx f parameter parsedFiles "") as [o'|] eqn:Hcall;
      [|done].
    destruct (succeeded o' && QStr.isEmpty (errorMessage o')).
    + destruct (invocations _ _ _ _ _ todo) as [os|] eqn:Hrest; [|done].
      intros [= <-]. destruct i as [|i]; simpl.
      * intros [= <-]. eauto.
      * intros Hi. by eapply IH.
    + intros [= <-]. destruct i as [|i]; simpl; [|done].
      intros [= <-]. eauto.
Qed.

(** In a list of distinct files only the file at the end is the last. *)
Lemma isLast_position (parsedFiles : list FileDescriptor) (f : FileDescriptor) (i : nat) :
  NoDup (map name parsedFiles) → parsedFiles !! i = Some f →
  isLast f parsedFiles = true → S i = List.length parsedFiles.
Proof.
  intros Hnodup Hi Hlast.
  destruct parsedFiles as [|back earlier _] using rev_ind; [done|].
  rewrite length_app. simpl.
  destruct (decide (i < List.length earlier)%nat) as [Hlt|Hge].
  - rewrite lookup_app_l in Hi by done.
    rewrite isLast_earlier in Hlast; [done..|]. by eapply list_elem_of_lookup_2.
  - apply lookup_lt_Some in Hi. rewrite length_app in Hi. simpl in Hi. lia.
Qed.

(** X2.  Whatever happens in a run over distinct files, [render] is called, and
    output written, in the call for the last file at most; output is
    written only if that call succeeds. *)
Lemma run_renders_last w engine parameter parsedFiles outcomes i o :
  NoDup (map name parsedFiles) →
  run w engine parameter parsedFiles = Some outcomes →
  outcomes !! i = Some o →
  (rendered o = true → S i = List.length parsedFiles) ∧
  (output o ≠ None → S i = List.length parsedFiles ∧ succeeded o = true).
Proof.
  intros Hnodup Hrun Hi.
  destruct (invocations_lookup _ _ _ _ _ _ _ _ _ Hrun Hi) as (f & ctx' & Hf & Hcall).
  split.
  - intros Hrendered. eapply isLast_position; [done..|].
    by eapply Generate_rendered.
  - intros Houtput. destruct (Generate_output _ _ _ _ _ _ _ _ Hcall Houtput).
    split; [|done]. by eapply isLast_position.
Qed.

(** ** The parameter *)

Lemma usage_not_empty (w : World) : QStr.isEmpty (usage w) = false.
Proof. reflexivity. Qed.

(** A call for the first file whose parameter does not parse reports the
    error without doing anything else. *)
Lemma Generate_parameter_error w engine ctx f parameter parsedFiles error ctx' error' :
  isFirst f parsedFiles = true →
  parseParameter w ctx parameter error = (false, ctx', error') →
  Generate w engine ctx f parameter parsedFiles error =
  Some {| succeeded := false; context := ctx'; errorMessage := error';
          rendered := false; output := None |}.
Proof. intros Hfirst Hparse. unfold Generate, configure. by rewrite Hfirst, Hparse. Qed.

(** C5.  The parameter is cut at its commas.  Two tokens are the template
    selector and the output file, with the exclusion override unset; a
    third token that reads [no-exclude] sets the override.  Any other number
    of tokens, or another third token, is an error: the usage message is
    reported, the context is left as it was, and the call of [Generate] that
    parses the parameter fails before it adds its file or renders. *)
Theorem parseParameter_tokens w ctx parameter error :
  (List.length (QStr.split "," parameter) = 2%nat →
   parseParameter w ctx parameter error =
   (true,
    {| template_ := (templateFor w ctx (at_ (QStr.split "," parameter) 0) error).1;
       outputFileName := at_ (QStr.split "," parameter) 1;
       noExclude := false; files := files ctx |},
    (templateFor w ctx (at_ (QStr.split "," parameter) 0) error).2)) ∧
  (List.length (QStr.split "," parameter) = 3%nat →
   at_ (QStr.split "," parameter) 2 = "no-exclude" →
   parseParameter w ctx parameter error =
   (true,
    {| template_ := (templateFor w ctx (at_ (QStr.split "," parameter) 0) error).1;
       outputFileName := at_ (QStr.split "," parameter) 1;
       noExclude := true; files := files ctx |},
    (templateFor w ctx (at_ (QStr.split "," parameter) 0) error).2)) ∧
  ((List.length (QStr.split "," parameter) ≠ 2%nat ∧
    List.length (QStr.split "," parameter) ≠ 3%nat) ∨
   (List.length (QStr.split "," parameter) = 3%nat ∧
    at_ (QStr.split "," parameter) 2 ≠ "no-exclude") →
   parseParameter w ctx parameter error = (false, ctx, usage w) ∧
   QStr.isEmpty (usage w) = false ∧
   ∀ engine f parsedFiles,
     isFirst f parsedFiles = true →
     Generate w engine ctx f parameter parsedFiles error =
     Some {| succeeded := false; context := ctx; errorMessage := usage w;
             rendered := false; output := None |}).
Proof.
  assert (∀ selector,
            (if negb (String.eqb selector "json") then readTemplate w selector error
             else (template_ ctx, error)) = templateFor w ctx selector error) as Htemplate.
  { intros selector. unfold templateFor. by destruct (String.eqb selector "json"). }
  split; [|split].
  - intros Hsize. unfold parseParameter. rewrite Hsize, Htemplate. cbn.
    by destruct (templateFor _ _ _ _).
  - intros Hsize Hthird. unfold parseParameter. rewrite Hsize, Hthird, Htemplate. cbn.
    by destruct (templateFor _ _ _ _).
  - intros Hbad.
    assert (parseParameter w ctx parameter error = (false, ctx, usage w)) as Hparse.
    { unfold parseParameter. destruct Hbad as [[H2 H3]|[H3 Hthird]].
      - apply Nat.eqb_neq in H2, H3. by rewrite H2, H3.
      - rewrite H3. cbn. apply String.eqb_neq in Hthird. by rewrite Hthird. }
    split; [done|]. split; [apply usage_not_empty|].
    intros engine f parsedFiles Hfirst. by apply Generate_parameter_error.
Qed.

Lemma parseParameter_tokens_witness :
  parseParameter Examples.world generatorContext "html,index.html" "" =
    (true, Examples.htmlContext, "") ∧
  parseParameter Examples.world generatorContext "html,index.html,no-exclude" "" =
    (true,
     {| template_ := "<h1>{{file_name}}</h1>"; outputFileName := "index.html";
        noExclude := true; files := [] |}, "") ∧
  parseParameter Examples.world generatorContext "html" "" =
    (false, generatorContext, usage Examples.world) ∧
  parseParameter Examples.world generatorContext "html,index.html,exclude" "" =
    (false, generatorContext, usage Examples.world).
Proof.
  split; [|split; [|split]].
  - apply (parseParameter_tokens Examples.world generatorContext "html,index.html" "").
    vm_compute. reflexivity.
  - apply (parseParameter_tokens Examples.world generatorContext
             "html,index.html,no-exclude" ""); vm_compute; reflexivity.
  - apply (parseParameter_tokens Examples.world generatorContext "html" "").
    left. vm_compute. split; discriminate.
  - apply (parseParameter_tokens Examples.world generatorContext
             "html,index.html,exclude" "").
    right. vm_compute. split; [reflexivity|discriminate].
Defined.

(** C10.  With the selector [json] no template is read: the template of the
    context and the error message stay as they are, whatever can be read.
    An empty template makes [render] print the list of files as JSON; the
    template engine has no part in the result. *)
Theorem json_selector_raw_output :
  (∀ w ctx parameter error ctx' error',
     at_ (QStr.split "," parameter) 0 = "json" →
     parseParameter w ctx parameter error = (true, ctx', error') →
     template_ ctx' = template_ ctx ∧ error' = error ∧
     ∀ w', parseParameter w' ctx parameter error = (true, ctx', error')) ∧
  (∀ w engine ctx error,
     template_ ctx = "" →
     render w engine ctx error =
     match toJson engine (files ctx) with
     | Some result =>
         {| succeeded := true; context := ctx; errorMessage := error;
            rendered := true; output := Some (outputFileName ctx, result) |}
     | None =>
         {| succeeded := false; context := ctx;
            errorMessage := "Failed to create JSON document";
            rendered := true; output := None |}
     end).
Proof.
  split.
  - intros w ctx parameter error ctx' error' Hjson.
    unfold parseParameter. rewrite Hjson. cbn [String.eqb Ascii.eqb Bool.eqb negb].
    destruct (_ && _); [done|]. destruct (_ && _); [done|].
    intros [= <- <-]. done.
  - intros w engine ctx error Hempty. unfold render. by rewrite Hempty.
Qed.

Lemma json_selector_raw_output_witness :
  (template_ (parseParameter Examples.world generatorContext "json,doc.json" "").1.2 = "" ∧
   parseParameter Examples.world generatorContext "json,doc.json" "" =
   parseParameter {| openFile := λ _, inl "{{files}}"; bundledTemplates := ["json"] |}
     generatorContext "json,doc.json" "") ∧
  output (render Examples.world Examples.engine
            (withFiles (parseParameter Examples.world generatorContext "json,doc.json" "").1.2
               [QVString "a"; QVString "b"]) "")
  = Some ("doc.json", "2").
Proof.
  destruct json_selector_raw_output as [Hparse Hrender]. split.
  - destruct (Hparse Examples.world generatorContext "json,doc.json" ""
                (parseParameter Examples.world generatorContext "json,doc.json" "").1.2 "")
      as (Htemplate & _ & Hworld); [vm_compute; reflexivity..|].
    split; [exact Htemplate|].
    rewrite Hworld. vm_compute. reflexivity.
  - rewrite Hrender; vm_compute; reflexivity.
Defined.

(** ** A schema file that cannot be opened *)

Lemma descriptionOf_file_open_failure w ctx f errorString :
  openFile w (name f) = inr errorString →
  without "%" (name f) →
  descriptionOf_file w ctx f = Some (OpenFailed (name f +:+ ": " +:+ errorString)).
Proof.
  intros Hopen Hname. unfold descriptionOf_file.
  by rewrite Hopen, open_failure_message.
Qed.

(** X3.  The call for a file that cannot be opened fails with a message made
    of the name of the file and the text of the failure, provided the name
    has no percent sign; nothing is rendered or written. *)
Lemma Generate_open_failure
  w engine ctx f parameter parsedFiles error ctx' error' errorString :
  configure w ctx f parameter parsedFiles error = (true, ctx', error') →
  openFile w (name f) = inr errorString →
  without "%" (name f) →
  ∃ o, Generate w engine ctx f parameter parsedFiles error = Some o ∧
       succeeded o = false ∧
       errorMessage o = name f +:+ ": " +:+ errorString ∧
       rendered o = false ∧ output o = None.
Proof.
  intros Hconfigure Hopen Hname. unfold Generate. rewrite Hconfigure. cbn [negb].
  unfold addFile. rewrite (descriptionOf_file_open_failure _ _ _ _ Hopen Hname).
  assert (QStr.isEmpty (name f +:+ ": " +:+ errorString) = false) as ->
    by by destruct (name f).
  eexists. by split.
Qed.

(** C8.  Defect in the code: the message for a file that cannot be opened
    is made with two chained calls of [QString::arg], and the second call
    replaces the lowest place marker of the text that the first one left.
    A schema file named [a%1.proto] that cannot be opened aborts the run
    without output, with a message that holds the text of the failure in
    the place of the marker and not the name of the file. *)
Theorem open_failure_message_loses_file_name :
  openFile Examples.world "a%1.proto" = inr "No such file or directory" ∧
  option_map (map (λ o, (succeeded o, errorMessage o, rendered o, output o)))
    (run Examples.world Examples.engine "html,index.html"
       [Examples.file "a%1.proto" [] []]) =
  Some [(false, "aNo such file or directory.proto: %2", false, None)].
Proof. by vm_compute. Qed.

(** ** Exclusion *)

Lemma checkExcluded_marker ctx description :
  noExclude ctx = false → startsWithMarker description →
  (checkExcluded ctx description).2 = true.
Proof.
  intros Hflag Hmarker. unfold checkExcluded. unfold startsWithMarker in Hmarker.
  by rewrite Hmarker, Hflag.
Qed.

Lemma descriptionOf_marker {T} `{Located T} ctx (descriptor : T) :
  noExclude ctx = false → startsWithMarker (comments descriptor) →
  ∃ description, descriptionOf ctx descriptor = (description, true).
Proof.
  intros Hflag Hmarker. unfold descriptionOf.
  pose proof (checkExcluded_marker ctx _ Hflag Hmarker) as E.
  destruct (checkExcluded ctx (comments descriptor)) as [d e]. simpl in E. subst.
  by exists d.
Qed.

(** C3.  With the override unset, an element whose trimmed description
    begins with the exclusion marker adds nothing to the model: no field,
    extension, enum, enum value, service or method record; for a message,
    no record and nothing of what is nested in it; for a file, no file
    record. *)
Theorem excluded_element_absent (ctx : DocGeneratorContext) (e : Element) :
  noExclude ctx = false → marked e → absent ctx e.
Proof.
  intros Hflag Hmarked.
  destruct e as [f|f|v|e|m|m|s|w f]; simpl in Hmarked |- *;
    try (destruct (descriptionOf_marker ctx _ Hflag Hmarked) as [d Hd]).
  - intros fields. unfold addField. by rewrite Hd.
  - intros extensions. unfold addExtension. by rewrite Hd.
  - intros values. unfold addValue. by rewrite Hd.
  - intros enums. unfold addEnum. by rewrite Hd.
  - intros lists. destruct m. cbn [addMessages]. by rewrite Hd.
  - intros methods. unfold addMethod. by rewrite Hd.
  - intros services. unfold addService. by rewrite Hd.
  - destruct Hmarked as (text & description & Hopen & Hscan & Hmarker).
    intros files error. unfold addFile, descriptionOf_file. rewrite Hopen, Hscan.
    pose proof (checkExcluded_marker ctx _ Hflag Hmarker) as E.
    destruct (checkExcluded ctx description) as [d x]. simpl in E. by subst.
Qed.

Lemma excluded_element_absent_witness :
  addMessages generatorContext Examples.hidden ([QVString "earlier"], []) =
  ([QVString "earlier"], []).
Proof.
  apply (excluded_element_absent generatorContext (MessageOf Examples.hidden)).
  - reflexivity.
  - vm_compute. reflexivity.
Defined.

(** ** The model of a schema is that of the schema without its excluded
       elements *)

Lemma fold_left_filter {A B} (step : A → B → A) (keep : B → bool) (l : list B) (a : A) :
  (∀ a b, keep b = false → step a b = a) →
  fold_left step (List.filter keep l) a = fold_left step l a.
Proof.
  intros Hskip. revert a. induction l as [|b l IH]; intros a; simpl; [done|].
  destruct (keep b) eqn:E; simpl; [done|]. by rewrite Hskip.
Qed.

Lemma fold_left_map {A B C} (step : A → C → A) (g : B → C) (l : list B) (a : A) :
  fold_left step (map g l) a = fold_left (λ a b, step a (g b)) l a.
Proof. revert a. induction l as [|b l IH]; intros a; simpl; [done|]. by rewrite IH. Qed.

Section Prune.
Context (ctx : DocGeneratorContext).

Lemma not_kept {T} `{Located T} (descriptor : T) :
  kept ctx descriptor = false →
  ∃ description, descriptionOf ctx descriptor = (description, true).
Proof.
  unfold kept. destruct (descriptionOf ctx descriptor) as [d []]; [|done]. by exists d.
Qed.

Lemma addFields_prune fs fields :
  fold_left (λ fields f, addField ctx f fields) (List.filter (kept ctx) fs) fields =
  fold_left (λ fields f, addField ctx f fields) fs fields.
Proof.
  apply fold_left_filter. intros a f [d Hd]%not_kept. unfold addField. by rewrite Hd.
Qed.

Lemma addExtensions_prune xs extensions :
  fold_left (λ extensions f, addExtension ctx f extensions)
    (List.filter (kept ctx) xs) extensions =
  fold_left (λ extensions f, addExtension ctx f extensions) xs extensions.
Proof.
  apply fold_left_filter. intros a f [d Hd]%not_kept. unfold addExtension. by rewrite Hd.
Qed.

Lemma addEnum_prune e enums : addEnum ctx (pruneEnum ctx e) enums = addEnum ctx e enums.
Proof.
  unfold addEnum, enumRecord.
  change (descriptionOf ctx (pruneEnum ctx e)) with (descriptionOf ctx e).
  destruct (descriptionOf ctx e) as [d []]; [done|]. do 3 f_equal.
  cbn [enum_value pruneEnum]. f_equal. f_equal.
  apply fold_left_filter. intros a v [dv Hv]%not_kept. unfold addValue. by rewrite Hv.
Qed.

Lemma addEnums_prune es enums :
  fold_left (λ enums e, addEnum ctx e enums)
    (map (pruneEnum ctx) (List.filter (kept ctx) es)) enums =
  fold_left (λ enums e, addEnum ctx e enums) es enums.
Proof.
  rewrite fold_left_map.
  rewrite (fold_left_ext _ (λ enums e, addEnum ctx e enums))
    by (intros; apply addEnum_prune).
  apply fold_left_filter. intros a e [d Hd]%not_kept. unfold addEnum. by rewrite Hd.
Qed.

Lemma addService_prune s services :
  addService ctx (pruneService ctx s) services = addService ctx s services.
Proof.
  unfold addService, serviceRecord.
  change (descriptionOf ctx (pruneService ctx s)) with (descriptionOf ctx s).
  destruct (descriptionOf ctx s) as [d []]; [done|]. do 3 f_equal.
  cbn [method pruneService]. f_equal. f_equal.
  apply fold_left_filter. intros a m [dm Hm]%not_kept. unfold addMethod. by rewrite Hm.
Qed.

Lemma messageRecord_prune description m :
  messageRecord ctx description (pruneMessage ctx m) = messageRecord ctx description m.
Proof.
  destruct m as [n fn ct loc fs xs nested es]. unfold messageRecord.
  cbn [pruneMessage field extension]. by rewrite addFields_prune, addExtensions_prune.
Qed.

Lemma kept_pruneMessage m : kept ctx (pruneMessage ctx m) = kept ctx m.
Proof. by destruct m. Qed.

Lemma addMessages_prune m lists :
  addMessages ctx (pruneMessage ctx m) lists = addMessages ctx m lists.
Proof.
  revert lists.
  induction m as [n fn ct loc fs xs nested es IH] using Descriptor_nested_ind.
  intros [messages enums].
  pose proof (messageRecord_prune) as Hrecord.
  cbn [pruneMessage addMessages].
  change (descriptionOf ctx (mkDescriptor n fn ct loc _ _ _ _))
    with (descriptionOf ctx (mkDescriptor n fn ct loc fs xs nested es)).
  destruct (descriptionOf ctx _) as [d []]; [done|].
  specialize (Hrecord d (mkDescriptor n fn ct loc fs xs nested es)).
  cbn [pruneMessage] in Hrecord. rewrite Hrecord.
  cbn [nested_type enum_type].
  generalize (messages ++ [QVHash (messageRecord ctx d
                (mkDescriptor n fn ct loc fs xs nested es))]).
  intros ms.
  assert (fold_left (λ lists d, addMessages ctx d lists)
            (List.filter (kept ctx) (map (pruneMessage ctx) nested)) (ms, enums) =
          fold_left (λ lists d, addMessages ctx d lists) nested (ms, enums)) as ->.
  { generalize (ms, enums). clear ms enums Hrecord.
    induction IH as [|x nested Hx Hnested IHn]; intros lists; [done|].
    cbn [map List.filter fold_left]. rewrite kept_pruneMessage.
    destruct (kept ctx x) eqn:E.
    - cbn [fold_left]. by rewrite Hx, IHn.
    - apply not_kept in E as [dx Hdx]. rewrite IHn.
      destruct x. cbn [addMessages]. by rewrite Hdx. }
  destruct (fold_left _ nested _) as [ms' es']. by rewrite addEnums_prune.
Qed.

(** The four lists of a file record, and so the record itself, are those of
    the file without its excluded elements. *)
Lemma addAllMessages_prune l lists :
  fold_left (λ lists d, addMessages ctx d lists)
    (List.filter (kept ctx) (map (pruneMessage ctx) l)) lists =
  fold_left (λ lists d, addMessages ctx d lists) l lists.
Proof.
  revert lists. induction l as [|x l IHl]; intros lists; [done|].
  cbn [map List.filter fold_left]. rewrite kept_pruneMessage.
  destruct (kept ctx x) eqn:E.
  - cbn [fold_left]. by rewrite addMessages_prune, IHl.
  - apply not_kept in E as [dx Hdx]. rewrite IHl.
    destruct x. cbn [addMessages]. by rewrite Hdx.
Qed.

Lemma addServices_prune l services :
  fold_left (λ services s, addService ctx s services)
    (map (pruneService ctx) (List.filter (kept ctx) l)) services =
  fold_left (λ services s, addService ctx s services) l services.
Proof.
  rewrite fold_left_map.
  rewrite (fold_left_ext _ (λ services s, addService ctx s services))
    by (intros; apply addService_prune).
  apply fold_left_filter. intros a s [d Hd]%not_kept. unfold addService. by rewrite Hd.
Qed.

(** The four lists of a file record, and so the record itself, are those of
    the file without its excluded elements. *)
Theorem fileRecord_prune description f :
  fileRecord ctx description (pruneFile ctx f) = fileRecord ctx description f.
Proof.
  unfold fileRecord, fileMessagesEnums, fileServices, fileExtensions.
  cbn [pruneFile file_message_type file_enum_type file_service file_extension].
  rewrite addAllMessages_prune, addServices_prune, addExtensions_prune.
  destruct (fold_left _ (file_message_type f) _) as [messages enums].
  by rewrite addEnums_prune.
Qed.

End Prune.

(** * More of the code

    Properties of the functions of [main.cpp] beyond the statements of the
    specification. *)

(** ** More on strings *)

Lemma startsWith_cons (c a : ascii) (s p : string) :
  QStr.startsWith (String c s) (String a p) = Ascii.eqb a c && QStr.startsWith s p.
Proof.
  unfold QStr.startsWith. simpl. destruct (ascii_dec a c) as [->|Hne].
  - by rewrite Ascii.eqb_refl.
  - by destruct (Ascii.eqb_spec a c).
Qed.

Lemma startsWith_nil (s : string) : QStr.startsWith s "" = true.
Proof. by destruct s. Qed.

Lemma startsWith_inv (s p : string) :
  QStr.startsWith s p = true → ∃ r, s = p +:+ r.
Proof.
  revert s. induction p as [|a p IH]; intros s; [by exists s|].
  destruct s as [|c s]; [done|]. rewrite startsWith_cons.
  intros [Hc Hs]%andb_prop. apply Ascii.eqb_eq in Hc as ->.
  destruct (IH s Hs) as [r ->]. by exists r.
Qed.

Lemma startsWith_append (p r : string) : QStr.startsWith (p +:+ r) p = true.
Proof.
  induction p as [|a p IH]; [apply startsWith_nil|].
  rewrite append_cons, startsWith_cons, Ascii.eqb_refl. done.
Qed.

Lemma startsWith_same (p s q : string) :
  QStr.startsWith (p +:+ s) (p +:+ q) = QStr.startsWith s q.
Proof.
  induction p as [|a p IH]; [done|].
  by rewrite !append_cons, startsWith_cons, Ascii.eqb_refl.
Qed.

(** ** Byte-string defaults *)

Lemma defaultValue_bytes_no_zero_witness :
  defaultValue (Examples.withDefault TYPE_BYTES "AB") = "0x4142".
Proof.
  apply (defaultValue_bytes_no_zero (Examples.withDefault TYPE_BYTES "AB")).
  - reflexivity.
  - reflexivity.
  - reflexivity.
  - compute_done.
Defined.

(** ** Long names and their order *)

Lemma join_snoc (sep x : string) (l : list string) :
  l ≠ [] → QStr.join sep (l ++ [x]) = QStr.join sep l +:+ sep +:+ x.
Proof.
  unfold QStr.join. induction l as [|y [|z l] IH]; intros Hne; [done|done|].
  change ((y :: z :: l) ++ [x]) with (y :: (z :: l) ++ [x]).
  change (String.concat sep (y :: (z :: l) ++ [x]))
    with (y +:+ sep +:+ String.concat sep ((z :: l) ++ [x])).
  rewrite IH by done.
  change (String.concat sep (y :: z :: l)) with (y +:+ sep +:+ String.concat sep (z :: l)).
  by rewrite !append_assoc.
Qed.

Lemma namePath_not_nil (d : DescriptorRef) : namePath d ≠ [].
Proof. destruct d as [n fn [enclosing|]]; simpl; [|done]. by destruct (namePath _). Qed.

(** Induction on a type with the hypothesis for the type that encloses
    it. *)
Lemma DescriptorRef_enclosing_ind (P : DescriptorRef → Prop) :
  (∀ n fn, P (mkRef n fn None)) →
  (∀ n fn enclosing, P enclosing → P (mkRef n fn (Some enclosing))) →
  ∀ d, P d.
Proof.
  intros Htop Hnested. fix IH 1. intros [n fn [enclosing|]]; [apply Hnested, IH|apply Htop].
Qed.

Lemma longName_Descriptor_path (d : DescriptorRef) :
  longName_Descriptor d = QStr.join "." (namePath d).
Proof.
  induction d as [n fn|n fn enclosing IH] using DescriptorRef_enclosing_ind; [done|].
  simpl. by rewrite join_snoc, IH by apply namePath_not_nil.
Qed.

(** X4.  The long name of a message or enum is its name after the names
    of the types that enclose it, from the outermost on, with a dot
    between any two of them. *)
Theorem longName_joins_path {T} `{Named T} `{Contained T} (d : T) :
  longName (Some d) = QStr.join "." (namePathOf d).
Proof.
  unfold longName, namePathOf. destruct (containing_type d) as [enclosing|]; [|done].
  by rewrite join_snoc, longName_Descriptor_path by apply namePath_not_nil.
Qed.

Lemma compare_refl (s : string) : String.compare s s = Eq.
Proof.
  induction s as [|c s IH]; [done|]. simpl.
  unfold Ascii.compare. by rewrite N.compare_refl.
Qed.

Lemma compare_lt_trans (a b c : string) :
  String.compare a b = Lt → String.compare b c = Lt → String.compare a c = Lt.
Proof.
  revert b c. induction a as [|x a IH]; intros [|y b] [|z c]; simpl; try done.
  unfold Ascii.compare.
  destruct (N.compare_spec (N_of_ascii x) (N_of_ascii y)) as [Exy|Lxy|Gxy]; [| |done];
    destruct (N.compare_spec (N_of_ascii y) (N_of_ascii z)) as [Eyz|Lyz|Gyz]; try done.
  - rewrite Exy, Eyz, N.compare_refl. apply IH.
  - intros _ _. rewrite Exy. by apply N.compare_lt_iff in Lyz as ->.
  - intros _ _. rewrite <- Eyz. by apply N.compare_lt_iff in Lxy as ->.
  - intros _ _. assert (N_of_ascii x < N_of_ascii z)%N as Lxz by lia.
    by apply N.compare_lt_iff in Lxz as ->.
Qed.

Lemma ltb_irreflexive (s : string) : String.ltb s s = false.
Proof. unfold String.ltb. by rewrite compare_refl. Qed.

Lemma ltb_transitive (a b c : string) :
  String.ltb a b = true → String.ltb b c = true → String.ltb a c = true.
Proof.
  unfold String.ltb. intros Hab Hbc.
  rewrite (compare_lt_trans a b c); [done|by destruct (String.compare a b)|
                                      by destruct (String.compare b c)].
Qed.

Lemma ltb_neither (a b : string) :
  String.ltb a b = false → String.ltb b a = false → a = b.
Proof.
  unfold String.ltb. intros Hab Hba. apply String.compare_eq_iff.
  rewrite (String.compare_antisym a b) in Hab |- *.
  by destruct (String.compare b a).
Qed.

(** X5.  On the records of a list of messages, of enums or of extensions
    the comparator is a strict weak order, as [std::sort] requires: no
    record is less than itself, less-than is transitive, and so is being
    indistinguishable, which is having the same long name. *)
Theorem longNameLessThan_strict_weak_order (key : string) (l : QVariantList) :
  key ∈ ["message_long_name"; "enum_long_name"; "extension_long_name"] →
  Forall (keyedBy key) l →
  (∀ x, longNameLessThan x x = false) ∧
  (∀ x y z, x ∈ l → y ∈ l → z ∈ l →
     longNameLessThan x y = true → longNameLessThan y z = true →
     longNameLessThan x z = true) ∧
  (∀ x y, x ∈ l → y ∈ l → (equivalent x y ↔ entry key x = entry key y)) ∧
  (∀ x y z, x ∈ l → y ∈ l → z ∈ l →
     equivalent x y → equivalent y z → equivalent x z).
Proof.
  intros Hkey Hl. rewrite Forall_forall in Hl.
  assert (∀ x y, x ∈ l → y ∈ l →
            longNameLessThan x y = String.ltb (entry key x) (entry key y)) as Hlt
    by (intros; apply longNameLessThan_keyedBy; auto).
  assert (∀ x y, x ∈ l → y ∈ l →
            (equivalent x y ↔ entry key x = entry key y)) as Heq.
  { intros x y Hx Hy. unfold equivalent. rewrite !Hlt by done. split.
    - intros [Hxy Hyx]. by apply ltb_neither.
    - intros ->. by rewrite ltb_irreflexive. }
  split; [|split; [|split]].
  - intros x. rewrite longNameLessThan_unfold. by rewrite !ltb_irreflexive.
  - intros x y z Hx Hy Hz. rewrite !Hlt by done. apply ltb_transitive.
  - done.
  - intros x y z Hx Hy Hz. rewrite !Heq by done. congruence.
Qed.

Lemma longNameLessThan_strict_weak_order_witness :
  (∀ x, longNameLessThan x x = false) ∧
  (∀ x y z,
     x ∈ Examples.twoRecords → y ∈ Examples.twoRecords → z ∈ Examples.twoRecords →
     longNameLessThan x y = true → longNameLessThan y z = true →
     longNameLessThan x z = true) ∧
  (∀ x y, x ∈ Examples.twoRecords → y ∈ Examples.twoRecords →
     (equivalent x y ↔ entry "message_long_name" x = entry "message_long_name" y)) ∧
  (∀ x y z,
     x ∈ Examples.twoRecords → y ∈ Examples.twoRecords → z ∈ Examples.twoRecords →
     equivalent x y → equivalent y z → equivalent x z).
Proof.
  apply (longNameLessThan_strict_weak_order "message_long_name" Examples.twoRecords).
  - compute_done.
  - repeat constructor; apply messageRecord_keyedBy.
Defined.

(** ** Comments of schema elements *)

Lemma dropSpacesEnd_idempotent (s : string) :
  QStr.dropSpacesEnd (QStr.dropSpacesEnd s) = QStr.dropSpacesEnd s.
Proof.
  induction s as [|c s IH]; [done|]. cbn [QStr.dropSpacesEnd].
  destruct (QStr.dropSpacesEnd s) as [|d r] eqn:E.
  - destruct (QStr.isSpace c) eqn:Hc; [done|]. cbn [QStr.dropSpacesEnd]. by rewrite Hc.
  - cbn [QStr.dropSpacesEnd]. cbn [QStr.dropSpacesEnd] in IH.
    by destruct (QStr.dropSpacesEnd r); rewrite IH.
Qed.

(** What [dropSpaces] leaves begins with a character that is not white
    space, and so does what is left of it without the white space at its
    end. *)
Lemma dropSpaces_dropSpacesEnd (s : string) :
  QStr.dropSpaces (QStr.dropSpacesEnd (QStr.dropSpaces s)) =
  QStr.dropSpacesEnd (QStr.dropSpaces s).
Proof.
  induction s as [|c s IH]; [done|]. cbn [QStr.dropSpaces].
  destruct (QStr.isSpace c) eqn:Hc; [exact IH|]. cbn [QStr.dropSpacesEnd].
  by destruct (QStr.dropSpacesEnd s); rewrite ?Hc; cbn [QStr.dropSpaces]; rewrite Hc.
Qed.

Lemma trimmed_idempotent (s : string) : QStr.trimmed (QStr.trimmed s) = QStr.trimmed s.
Proof.
  unfold QStr.trimmed. by rewrite dropSpaces_dropSpacesEnd, dropSpacesEnd_idempotent.
Qed.

(** X6.  The description of an element whose comments do not begin with
    the exclusion marker is their text trimmed: it has no white space at
    its start or at its end, and the element is not excluded. *)
Theorem description_trimmed {T} `{Located T} ctx (d : T) :
  ¬ startsWithMarker (comments d) →
  descriptionOf ctx d = (QStr.trimmed (comments d), false) ∧
  QStr.trimmed (descriptionOf ctx d).1 = (descriptionOf ctx d).1.
Proof.
  intros Hmarker. unfold descriptionOf, checkExcluded, startsWithMarker in *.
  destruct (QStr.startsWith _ _); [done|]. split; [done|]. apply trimmed_idempotent.
Qed.

Lemma description_trimmed_witness :
  descriptionOf generatorContext (Examples.commented "*  The first value.  ") =
    ("The first value.", false) ∧
  QStr.trimmed
    (descriptionOf generatorContext (Examples.commented "*  The first value.  ")).1 =
  (descriptionOf generatorContext (Examples.commented "*  The first value.  ")).1.
Proof.
  refine (description_trimmed generatorContext
            (Examples.commented "*  The first value.  ") _).
  by vm_compute.
Defined.

(** X7.  Only comments written in documentation style count: when
    neither the leading nor the trailing comment of an element begins with
    a star or a slash, as after [/*] or [//], the description is empty and
    the element is not excluded, whatever the comments say. *)
Theorem plain_comments_ignored {T} `{Located T} ctx (d : T) :
  QStr.startsWith (leading_comments (GetSourceLocation d)) "*" = false →
  QStr.startsWith (leading_comments (GetSourceLocation d)) "/" = false →
  QStr.startsWith (trailing_comments (GetSourceLocation d)) "*" = false →
  QStr.startsWith (trailing_comments (GetSourceLocation d)) "/" = false →
  descriptionOf ctx d = ("", false).
Proof.
  intros H1 H2 H3 H4. unfold descriptionOf, comments, docComment.
  by rewrite H1, H2, H3, H4.
Qed.

Lemma plain_comments_ignored_witness :
  descriptionOf generatorContext (Examples.commented " @exclude not a doc comment") =
  ("", false).
Proof.
  by apply (plain_comments_ignored generatorContext
              (Examples.commented " @exclude not a doc comment")).
Defined.

Lemma removeLeadingSpace_line (line rest : string) :
  without "010" line →
  QStr.removeLeadingSpace_from false (line +:+ QStr.LF +:+ rest) =
  line +:+ QStr.LF +:+ QStr.removeLeadingSpace_from true rest.
Proof.
  induction line as [|c line IH]; intros Hline; [done|].
  apply without_cons in Hline as [Hc Hline]. rewrite append_cons.
  cbn [QStr.removeLeadingSpace_from andb].
  destruct (Ascii.eqb_spec c "010"); [done|]. by rewrite IH.
Qed.

Lemma removeLeadingSpace_lines (lines : list string) :
  Forall (without "010") lines →
  QStr.removeLeadingSpace_from true (linesText (map (String " ") lines)) =
  linesText lines.
Proof.
  induction 1 as [|line lines Hline _ IH]; [done|].
  cbn [map linesText]. rewrite append_cons.
  cbn [QStr.removeLeadingSpace_from andb]. rewrite Ascii.eqb_refl.
  by rewrite removeLeadingSpace_line, IH.
Qed.

(** X8.  From a documentation comment the character that marks it as one
    is dropped, and one blank from the start of every line: the comment
    of lines that each begin with a blank gives the lines without it. *)
Theorem docComment_lines (marker : ascii) (lines : list string) :
  marker = "*"%char ∨ marker = "/"%char →
  Forall (without "010") lines →
  docComment (String marker (linesText (map (String " ") lines))) = linesText lines.
Proof.
  intros Hmarker Hlines. unfold docComment.
  assert (QStr.startsWith (String marker (linesText (map (String " ") lines))) "*" ||
          QStr.startsWith (String marker (linesText (map (String " ") lines))) "/" = true)
    as ->.
  { destruct Hmarker as [->| ->]; unfold QStr.startsWith; simpl;
      by destruct (linesText _). }
  change (QStr.mid (String marker ?s) 1) with s.
  by apply removeLeadingSpace_lines.
Qed.

Lemma docComment_lines_witness :
  docComment ("* Line one" +:+ QStr.LF +:+ "   indented" +:+ QStr.LF) =
  "Line one" +:+ QStr.LF +:+ "  indented" +:+ QStr.LF.
Proof.
  apply (docComment_lines "*" ["Line one"; "  indented"]).
  - by left.
  - repeat constructor; compute_done.
Defined.

Lemma removeLeadingSpace_slash_lines (lines : list string) :
  Forall (without "010") lines →
  QStr.removeLeadingSpace_from true (linesText (map (String "/") lines)) =
  linesText (map (String "/") lines).
Proof.
  induction 1 as [|line lines Hline _ IH]; [done|].
  cbn [map linesText]. rewrite append_cons.
  cbn [QStr.removeLeadingSpace_from andb].
  change (Ascii.eqb "/" " ") with false. change (Ascii.eqb "/" "010") with false.
  cbn [andb]. by rewrite removeLeadingSpace_line, IH.
Qed.

(** X9.  Only the character that a documentation comment begins with is
    dropped.  Of a comment that is a run of lines with a slash in front
    of each, as the compiler hands out a run of [///] lines, the first
    line loses its slash and the blank after it, and every other line
    keeps its slash. *)
Theorem docComment_slash_lines (first : string) (others : list string) :
  without "010" first → Forall (without "010") others →
  docComment (String "/" (String " " first) +:+ QStr.LF +:+
              linesText (map (String "/") others)) =
  first +:+ QStr.LF +:+ linesText (map (String "/") others).
Proof.
  intros Hfirst Hothers. unfold docComment. rewrite !append_cons.
  change (QStr.startsWith (String "/" ?s) "*") with false.
  assert (∀ s, QStr.startsWith (String "/" s) "/" = true) as ->
    by (intros s; by rewrite startsWith_cons, startsWith_nil).
  cbn [orb]. change (QStr.mid (String "/" ?s) 1) with s.
  unfold QStr.removeLeadingSpace. cbn [QStr.removeLeadingSpace_from andb].
  rewrite Ascii.eqb_refl.
  by rewrite removeLeadingSpace_line, removeLeadingSpace_slash_lines.
Qed.

Lemma docComment_slash_lines_witness :
  docComment ("/ Line one" +:+ QStr.LF +:+ "/ Line two" +:+ QStr.LF) =
  "Line one" +:+ QStr.LF +:+ "/ Line two" +:+ QStr.LF.
Proof.
  apply (docComment_slash_lines "Line one" [" Line two"]).
  - compute_done.
  - repeat constructor; compute_done.
Defined.

(** ** Block comments at the start of a file *)

(** A block that no line closes keeps the loop running. *)
Lemma blockLines_unclosed (stream : list string) (line description : string) :
  QStr.indexOf line "*/" = -1 → Forall insideBlock stream →
  blockLines stream line description = None.
Proof.
  intros Hline Hstream. revert line description Hline.
  induction Hstream as [|next stream Hnext _ IH]; intros line description Hline;
    cbn [blockLines]; rewrite Hline; cbn [Z.eqb Pos.eqb]; [done|].
  by apply IH.
Qed.

(** The lines inside a block, up to the line that closes it. *)
Lemma blockLines_inside (inside : list string) (closing : string) (stream : list string)
  (line description : string) :
  QStr.indexOf line "*/" = -1 → Forall insideBlock inside →
  blockLines (inside ++ closing :: stream) line description =
  blockLines stream (QStr.trimmed closing)
    (description +:+ QStr.mid line (blockStart line false) +:+ QStr.LF +:+
     linesText (map blockText inside)).
Proof.
  intros Hline Hinside. revert line description Hline.
  induction Hinside as [|next inside Hnext _ IH]; intros line description Hline.
  - cbn [app blockLines]. rewrite Hline. cbn [Z.eqb Pos.eqb map linesText].
    by rewrite !append_nil_r.
  - cbn [app blockLines]. rewrite Hline. cbn [Z.eqb Pos.eqb].
    rewrite (IH (QStr.trimmed next)) by done.
    cbn [map linesText]. unfold blockText at 2. cbv zeta.
    by rewrite !append_assoc.
Qed.

Lemma descriptionOf_file_unscanned w ctx f text :
  openFile w (name f) = inl text → scanLines (readLines text) = None →
  descriptionOf_file w ctx f = None ∧
  ∀ files error, addFile w ctx f files error = None.
Proof.
  intros Hopen Hscan.
  assert (descriptionOf_file w ctx f = None) as E
    by (unfold descriptionOf_file; by rewrite Hopen, Hscan).
  split; [done|]. intros files error. unfold addFile. by rewrite E.
Qed.

(** A line that opens a block and does not close it is not [/***/]. *)
Lemma opening_not_empty_block (line : string) :
  QStr.indexOf (QStr.mid line 2) "*/" = -1 →
  QStr.startsWith line "/***/" = false.
Proof.
  intros Hunclosed. destruct (QStr.startsWith line "/***/") eqn:E; [|done].
  apply startsWith_inv in E as [r ->]. by destruct r; vm_compute in Hunclosed.
Qed.

Lemma scanLines_block (opening : string) (stream : list string) :
  QStr.startsWith (QStr.trimmed opening) "/**" = true →
  QStr.startsWith (QStr.trimmed opening) "/***/" = false →
  scanLines (opening :: stream) = blockLines stream (QStr.mid (QStr.trimmed opening) 2) "".
Proof.
  intros Hopening Hnot. cbn [scanLines].
  rewrite (startsWith_isEmpty _ _ Hopening) by done. rewrite Hopening, Hnot.
  apply startsWith_inv in Hopening as [r ->]. done.
Qed.

(** X10.  A file that begins, after blank lines at most, with a block
    comment that no line closes is never described: past the end of the
    file the loop over the block reads one empty line after the other, and
    the call does not return. *)
Theorem file_description_unclosed_block
  w ctx (f : FileDescriptor) text blanks opening rest :
  openFile w (name f) = inl text →
  readLines text = blanks ++ opening :: rest →
  Forall blankLine blanks →
  QStr.startsWith (QStr.trimmed opening) "/**" = true →
  QStr.indexOf (QStr.mid (QStr.trimmed opening) 2) "*/" = -1 →
  Forall insideBlock rest →
  descriptionOf_file w ctx f = None ∧
  ∀ files error, addFile w ctx f files error = None.
Proof.
  intros Hopen Hlines Hblanks Hopening Hunclosed Hrest.
  apply (descriptionOf_file_unscanned w ctx f text); [done|].
  rewrite Hlines, scanLines_blank, scanLines_block
    by auto using opening_not_empty_block.
  by apply blockLines_unclosed.
Qed.

Lemma file_description_unclosed_block_witness :
  descriptionOf_file (Examples.withFile "open.proto" Examples.unclosedComment)
    generatorContext (Examples.file "open.proto" [] []) = None ∧
  ∀ files error,
    addFile (Examples.withFile "open.proto" Examples.unclosedComment) generatorContext
      (Examples.file "open.proto" [] []) files error = None.
Proof.
  apply (file_description_unclosed_block
           (Examples.withFile "open.proto" Examples.unclosedComment)
           generatorContext (Examples.file "open.proto" [] []) Examples.unclosedComment
           [] "/** The schema." ["package pkg;"]).
  - reflexivity.
  - reflexivity.
  - constructor.
  - reflexivity.
  - reflexivity.
  - repeat constructor.
Defined.

(** X11.  A file that begins, after blank lines at most, with a block
    comment laid out over several lines, [/**] on the first and [*/] on the
    last, is described by the lines in between, each without the star and
    the blank it begins with; the text is then trimmed and checked for the
    exclusion marker like every description.  What follows the block is
    not read. *)
Theorem file_description_block
  w ctx (f : FileDescriptor) text blanks opening inside closing rest :
  openFile w (name f) = inl text →
  readLines text = blanks ++ opening :: inside ++ closing :: rest →
  Forall blankLine blanks →
  QStr.trimmed opening = "/**" →
  Forall insideBlock inside →
  QStr.trimmed closing = "*/" →
  descriptionOf_file w ctx f =
  Some (described ctx (QStr.LF +:+ linesText (map blockText inside))).
Proof.
  intros Hopen Hlines Hblanks Hopening Hinside Hclosing.
  apply (descriptionOf_file_scanned w ctx f text); [done|].
  rewrite Hlines, scanLines_blank, scanLines_block by (by rewrite ?Hopening).
  rewrite Hopening, blockLines_inside by done.
  rewrite Hclosing.
  change (QStr.mid (QStr.mid "/**" 2) (blockStart (QStr.mid "/**" 2) false)) with "".
  destruct rest; cbn [blockLines]; change (QStr.indexOf "*/" "*/" =? -1) with false;
    cbv iota; change (QStr.mid_n "*/" _ _) with ""; by rewrite append_nil_r.
Qed.

Lemma file_description_block_witness :
  descriptionOf_file (Examples.withFile "doc.proto" Examples.blockComment)
    generatorContext (Examples.file "doc.proto" [] []) =
  Some (Described ("First" +:+ QStr.LF +:+ "Second") false).
Proof.
  apply (file_description_block (Examples.withFile "doc.proto" Examples.blockComment)
           generatorContext (Examples.file "doc.proto" [] []) Examples.blockComment
           [] "/**" [" * First"; " * Second"] " */" ["package pkg;"]).
  - reflexivity.
  - reflexivity.
  - constructor.
  - reflexivity.
  - repeat constructor.
  - reflexivity.
Defined.

Lemma startsWith_star_slash (c : ascii) (s : string) :
  c ≠ "/"%char → QStr.startsWith (String "*" (String c s)) "*/" = false.
Proof.
  intros Hc. rewrite !startsWith_cons. destruct (Ascii.eqb_spec "/" c); [|done].
  by subst.
Qed.

Lemma indexOf_from_cons (i : Z) (c : ascii) (s p : string) :
  QStr.startsWith (String c s) p = false →
  QStr.indexOf_from i (String c s) p = QStr.indexOf_from (i + 1) s p.
Proof. intros E. cbn [QStr.indexOf_from]. by rewrite E. Qed.

(** In front of the first [*/] of a line: a text without a slash. *)
Lemma indexOf_from_closing (i : Z) (body after : string) :
  without "/" body →
  QStr.indexOf_from i (body +:+ "*/" +:+ after) "*/" = i + Z.of_nat (String.length body).
Proof.
  revert i. induction body as [|c body IH]; intros i Hbody.
  - change ("" +:+ "*/" +:+ after) with ("*/" +:+ after).
    destruct after; simpl; lia.
  - apply without_cons in Hbody as [Hc Hbody].
    rewrite append_cons. cbn [QStr.indexOf_from].
    assert (QStr.startsWith (String c (body +:+ "*/" +:+ after)) "*/" = false) as ->.
    { rewrite startsWith_cons. destruct (Ascii.eqb_spec "*" c) as [<-|]; [|done].
      destruct body as [|c' body]; [done|].
      apply without_cons in Hbody as [Hc' _]. rewrite append_cons.
      rewrite startsWith_cons. by destruct (Ascii.eqb_spec "/" c'). }
    rewrite IH by done. cbn [String.length]. lia.
Qed.

Lemma blockLines_closed (stream : list string) (line description : string) :
  QStr.indexOf line "*/" ≠ -1 →
  blockLines stream line description =
  Some (description +:+
        QStr.mid_n line (blockStart line true)
          (QStr.indexOf line "*/" - Z.of_nat (blockStart line true))).
Proof.
  intros Hline.
  by destruct stream; cbn [blockLines];
    destruct (Z.eqb_spec (QStr.indexOf line "*/") (-1)).
Qed.

(** The scan of a line that holds a whole block comment. *)
Lemma scanLines_one_line_block (line body after : string) (stream : list string) :
  QStr.trimmed line = "/**" +:+ body +:+ "*/" +:+ after →
  without "/" body →
  ∃ description,
    scanLines (line :: stream) = Some description ∧
    ∀ ctx, described ctx description = described ctx body.
Proof.
  intros Hline Hbody. destruct body as [|c body].
  - exists "". split; [|done]. cbn [scanLines]. rewrite Hline. destruct after; reflexivity.
  - pose proof Hbody as Hbody'. apply without_cons in Hbody' as [Hc _].
    rewrite scanLines_block; rewrite Hline.
    2: { apply startsWith_append. }
    2: { change "/***/" with ("/**" +:+ "*/"). rewrite startsWith_same.
         rewrite append_cons, startsWith_cons.
         destruct (Ascii.eqb_spec "*" c) as [<-|]; [|done].
         destruct body as [|c' body]; [done|].
         apply without_cons in Hbody as [_ [Hc' _]%without_cons].
         rewrite append_cons, startsWith_cons. by destruct (Ascii.eqb_spec "/" c'). }
    change (QStr.mid ("/**" +:+ ?s) 2) with (String "*" s).
    rewrite append_cons.
    set (rest := body +:+ "*/" +:+ after).
    assert (QStr.indexOf (String "*" (String c rest)) "*/" =
            1 + Z.of_nat (String.length (String c body))) as Hend.
    { unfold QStr.indexOf.
      rewrite indexOf_from_cons by by apply startsWith_star_slash.
      change (String c rest) with (String c body +:+ "*/" +:+ after).
      by rewrite indexOf_from_closing. }
    rewrite blockLines_closed by (rewrite Hend; lia). rewrite Hend.
    unfold blockStart. rewrite startsWith_star_slash by done.
    rewrite !startsWith_cons, !startsWith_nil, !Ascii.eqb_refl.
    unfold QStr.mid_n. cbn [String.length].
    destruct (Ascii.eqb_spec " " c) as [<-|Hblank]; cbn [Nat.add andb negb].
    + exists body. split; [|done].
      rewrite (proj2 (Z.ltb_ge _ 0)) by lia. cbn [QStr.drop].
      replace (Z.to_nat _) with (String.length body) by lia.
      unfold rest. by rewrite take_append.
    + exists (String c body). split; [|done].
      rewrite (proj2 (Z.ltb_ge _ 0)) by lia. cbn [QStr.drop].
      replace (Z.to_nat _) with (String.length (String c body))
        by (cbn [String.length]; lia).
      change (String c rest) with (String c body +:+ "*/" +:+ after).
      by rewrite take_append.
Qed.

(** X12.  A file that begins, after blank lines at most, with a block
    comment opened and closed on one line is described by the text between
    [/**] and [*/], trimmed and checked for the exclusion marker; what
    follows on the line and in the file is not read.  (For a text without a
    slash, so that the [*/] that closes the block is the first one.) *)
Theorem file_description_one_line_block
  w ctx (f : FileDescriptor) text blanks line body after rest :
  openFile w (name f) = inl text →
  readLines text = blanks ++ line :: rest →
  Forall blankLine blanks →
  QStr.trimmed line = "/**" +:+ body +:+ "*/" +:+ after →
  without "/" body →
  descriptionOf_file w ctx f = Some (described ctx body).
Proof.
  intros Hopen Hlines Hblanks Hline Hbody.
  destruct (scanLines_one_line_block line body after rest Hline Hbody)
    as (description & Hscan & Hdescribed).
  rewrite <- Hdescribed. apply (descriptionOf_file_scanned w ctx f text); [done|].
  by rewrite Hlines, scanLines_blank.
Qed.

Lemma file_description_one_line_block_witness :
  descriptionOf_file (Examples.withFile "doc.proto" Examples.oneLineComment)
    generatorContext (Examples.file "doc.proto" [] []) =
  Some (Described "The schema." false).
Proof.
  apply (file_description_one_line_block
           (Examples.withFile "doc.proto" Examples.oneLineComment)
           generatorContext (Examples.file "doc.proto" [] []) Examples.oneLineComment
           [] "/** The schema. */" " The schema. " "" ["package pkg;"]).
  - reflexivity.
  - reflexivity.
  - constructor.
  - reflexivity.
  - compute_done.
Defined.

(** X13.  A file that begins, after blank lines at most, with any number
    of [///] lines followed by a line of another kind is described by the
    text of all these lines, joined by line feeds, trimmed and checked for
    the exclusion marker. *)
Theorem file_description_slash_lines
  w ctx (f : FileDescriptor) text blanks c cs other rest :
  openFile w (name f) = inl text →
  readLines text = blanks ++ c :: cs ++ other :: rest →
  Forall blankLine blanks → Forall slashLine (c :: cs) → ¬ slashLine other →
  descriptionOf_file w ctx f =
  Some (described ctx (QStr.join QStr.LF (map commentText (c :: cs)))).
Proof.
  intros Hopen Hlines Hblanks Hcs Hother.
  apply (descriptionOf_file_scanned w ctx f text); [done|].
  rewrite Hlines. by apply scanLines_run_ended.
Qed.

Lemma file_description_slash_lines_witness :
  descriptionOf_file Examples.world generatorContext (Examples.file "a.proto" [] []) =
  Some (Described ("Line one" +:+ QStr.LF +:+ "Line two" +:+ QStr.LF +:+ "Line three")
          false).
Proof.
  apply (file_description_slash_lines Examples.world generatorContext
           (Examples.file "a.proto" [] []) Examples.threeSlashLines
           [] "/// Line one" ["/// Line two"; "/// Line three"] "" ["package pkg;"]).
  - reflexivity.
  - reflexivity.
  - constructor.
  - repeat constructor.
  - by vm_compute.
Defined.

(** ** Types *)

(** X14.  The type entries of the record of a field of scalar type all
    hold the name of the type in the schema language.  The names of the
    scalar types differ from one another and from [<unknown>], which
    [addField] never stores: for a message, group or enum type it stores
    the names of the type. *)
Theorem scalar_field_type_names (description : string) (f : FieldDescriptor) :
  scalar (type f) = true →
  fieldRecord description f !! "field_type" =
    Some (QVString (scalarTypeName (type f))) ∧
  fieldRecord description f !! "field_long_type" =
    Some (QVString (scalarTypeName (type f))) ∧
  fieldRecord description f !! "field_full_type" =
    Some (QVString (scalarTypeName (type f))) ∧
  scalarTypeName (type f) ≠ "<unknown>" ∧
  ∀ t, scalar t = true → scalarTypeName t = scalarTypeName (type f) → t = type f.
Proof.
  intros Hscalar. unfold fieldRecord, typeInformation.
  generalize (defaultValue f) (labelName (label f)) (name f).
  intros value label name.
  destruct (type f); try done; (repeat split; [by vm_compute..|]);
    by intros [].
Qed.

Lemma scalar_field_type_names_witness :
  fieldRecord "" (Examples.plainField "id") !! "field_type" = Some (QVString "int32") ∧
  fieldRecord "" (Examples.plainField "id") !! "field_long_type" =
    Some (QVString "int32") ∧
  fieldRecord "" (Examples.plainField "id") !! "field_full_type" =
    Some (QVString "int32") ∧
  "int32" ≠ "<unknown>" ∧
  ∀ t, scalar t = true → scalarTypeName t = "int32" → t = TYPE_INT32.
Proof.
  by apply (scalar_field_type_names "" (Examples.plainField "id")).
Defined.

(** ** The name of a file *)

Lemma indexOf_from_without (i : Z) (c : ascii) (s : string) :
  without c s → QStr.indexOf_from i s (String c "") = -1.
Proof.
  revert i. induction s as [|x s IH]; intros i Hs; [done|].
  apply without_cons in Hs as [Hx Hs]. cbn [QStr.indexOf_from].
  rewrite startsWith_cons. destruct (Ascii.eqb_spec c x); [done|]. by apply IH.
Qed.

Lemma indexOf_from_found (i : Z) (c : ascii) (a b : string) :
  0 <= i → 0 <= QStr.indexOf_from i (a +:+ String c b) (String c "").
Proof.
  revert i. induction a as [|x a IH]; intros i Hi.
  - change ("" +:+ String c b) with (String c b). cbn [QStr.indexOf_from].
    rewrite startsWith_cons, Ascii.eqb_refl. by destruct b.
  - rewrite append_cons. cbn [QStr.indexOf_from].
    destruct (QStr.startsWith _ _); [done|]. apply IH. lia.
Qed.

Lemma fileName_without (path : string) : without "/" path → QStr.fileName path = path.
Proof.
  intros Hpath. destruct path as [|c path]; [done|]. cbn [QStr.fileName].
  unfold QStr.indexOf. by rewrite indexOf_from_without.
Qed.

Lemma fileName_after_slash (directory base : string) :
  QStr.fileName (directory +:+ String "/" base) = QStr.fileName base.
Proof.
  induction directory as [|c directory IH].
  - change ("" +:+ String "/" base) with (String "/" base). cbn [QStr.fileName].
    unfold QStr.indexOf. cbn [QStr.indexOf_from]. rewrite startsWith_cons, Ascii.eqb_refl.
    by destruct base.
  - rewrite append_cons. cbn [QStr.fileName].
    pose proof (indexOf_from_found 0 "/" (String c directory) base) as Hfound.
    rewrite append_cons in Hfound. unfold QStr.indexOf.
    by destruct (Z.leb_spec 0 (QStr.indexOf_from 0
                                 (String c (directory +:+ String "/" base)) "/")); [|lia].
Qed.

(** X15.  The record of a file holds the name of the file without the
    directories in front of it: what follows the last slash of the name the
    compiler was given, so that two files of the same name in different
    directories get the same [file_name]. *)
Theorem file_name_without_directories ctx (description : string) (f : FileDescriptor)
  (directory base : string) :
  name f = directory +:+ "/" +:+ base ∨ name f = base →
  without "/" base →
  fileRecord ctx description f !! "file_name" = Some (QVString base).
Proof.
  intros Hname Hbase.
  assert (QStr.fileName (name f) = base) as Hfile.
  { destruct Hname as [-> | ->]; [|by apply fileName_without].
    change (directory +:+ "/" +:+ base) with (directory +:+ String "/" base).
    rewrite fileName_after_slash. by apply fileName_without. }
  unfold fileRecord. destruct (fileMessagesEnums ctx f) as [messages enums].
  rewrite Hfile. generalize (fileServices ctx f) (fileExtensions ctx f) (package f).
  intros services extensions package. by vm_compute.
Qed.

Lemma file_name_without_directories_witness :
  fileRecord generatorContext "" (Examples.file "protos/api/a.proto" [] []) !! "file_name" =
  Some (QVString "a.proto").
Proof.
  apply (file_name_without_directories generatorContext ""
           (Examples.file "protos/api/a.proto" [] []) "protos/api" "a.proto").
  - by left.
  - compute_done.
Defined.

(** ** What the builder collects, and in which order *)

(** A loop that appends one record for every element that is not excluded
    collects the records of the elements kept, in the order of the list. *)
Lemma fold_left_kept {T} `{Located T} (ctx : DocGeneratorContext)
  (record : T → QVariant) (step : QVariantList → T → QVariantList) :
  (∀ acc d, step acc d = if kept ctx d then acc ++ [record d] else acc) →
  ∀ l acc, fold_left step l acc = acc ++ map record (List.filter (kept ctx) l).
Proof.
  intros Hstep l. induction l as [|d l IH]; intros acc; simpl.
  - by rewrite app_nil_r.
  - rewrite IH, Hstep. destruct (kept ctx d); [|done].
    simpl. by rewrite <- app_assoc.
Qed.

Lemma addField_kept ctx f fields :
  addField ctx f fields = if kept ctx f then fields ++ [fieldRecordOf ctx f] else fields.
Proof.
  unfold addField, kept, fieldRecordOf. by destruct (descriptionOf ctx f) as [d []].
Qed.

Lemma addExtension_kept ctx f extensions :
  addExtension ctx f extensions =
  if kept ctx f then extensions ++ [extensionRecordOf ctx f] else extensions.
Proof.
  unfold addExtension, kept, extensionRecordOf.
  by destruct (descriptionOf ctx f) as [d []].
Qed.

Lemma addEnum_kept ctx e enums :
  addEnum ctx e enums = if kept ctx e then enums ++ [enumRecordOf ctx e] else enums.
Proof.
  unfold addEnum, kept, enumRecordOf. by destruct (descriptionOf ctx e) as [d []].
Qed.

Lemma addService_kept ctx s services :
  addService ctx s services =
  if kept ctx s then services ++ [serviceRecordOf ctx s] else services.
Proof.
  unfold addService, kept, serviceRecordOf. by destruct (descriptionOf ctx s) as [d []].
Qed.

Lemma addEnums_kept ctx (l : list EnumDescriptor) enums :
  fold_left (λ enums e, addEnum ctx e enums) l enums =
  enums ++ map (enumRecordOf ctx) (List.filter (kept ctx) l).
Proof. apply fold_left_kept. intros. apply addEnum_kept. Qed.

Lemma addMessages_fold_preorder ctx (l : list Descriptor) messages enums :
  Forall (λ d, ∀ messages enums,
            addMessages ctx d (messages, enums) =
            (messages ++ map (messageRecordOf ctx) (keptMessages ctx d),
             enums ++ map (enumRecordOf ctx) (keptEnums ctx d))) l →
  fold_left (λ lists d, addMessages ctx d lists) l (messages, enums) =
  (messages ++ map (messageRecordOf ctx) (flat_map (keptMessages ctx) l),
   enums ++ map (enumRecordOf ctx) (flat_map (keptEnums ctx) l)).
Proof.
  intros Hl. revert messages enums.
  induction Hl as [|d l Hd Hl IH]; intros messages enums; simpl.
  - by rewrite !app_nil_r.
  - by rewrite Hd, IH, !map_app, !app_assoc.
Qed.

Lemma addMessages_collects ctx (d : Descriptor) (messages enums : QVariantList) :
  addMessages ctx d (messages, enums) =
  (messages ++ map (messageRecordOf ctx) (keptMessages ctx d),
   enums ++ map (enumRecordOf ctx) (keptEnums ctx d)).
Proof.
  revert messages enums.
  induction d as [n fn ct loc fs xs nested es IH] using Descriptor_nested_ind.
  intros messages enums. cbn [addMessages keptMessages keptEnums].
  cbn [nested_type enum_type].
  set (d := mkDescriptor n fn ct loc fs xs nested es).
  assert (kept ctx d = negb (descriptionOf ctx d).2) as -> by done.
  destruct (descriptionOf ctx d) as [description []] eqn:E; cbn [negb fst snd].
  - by rewrite !app_nil_r.
  - rewrite (addMessages_fold_preorder ctx nested _ _ IH), addEnums_kept.
    assert (messageRecordOf ctx d = QVHash (messageRecord ctx description d)) as Hd
      by (unfold messageRecordOf; by rewrite E).
    cbn [map]. by rewrite Hd, !map_app, <- !app_assoc.
Qed.

(** X16.  [addMessages] only appends.  To the list of messages it appends
    the record of the message and then, one nested message after the other,
    what the nested message appends; to the list of enums it appends what
    the nested messages append and then the records of the enums of the
    message itself.  An excluded message appends nothing, and neither does
    anything inside it; an excluded enum is left out. *)
Theorem addMessages_preorder ctx (d : Descriptor)
  (lists : QVariantList * QVariantList) :
  (addMessages ctx d lists).1 =
    lists.1 ++ map (messageRecordOf ctx) (keptMessages ctx d) ∧
  (addMessages ctx d lists).2 =
    lists.2 ++ map (enumRecordOf ctx) (keptEnums ctx d) ∧
  keptMessages ctx d =
    (if kept ctx d then d :: flat_map (keptMessages ctx) (nested_type d) else []) ∧
  keptEnums ctx d =
    (if kept ctx d then
       flat_map (keptEnums ctx) (nested_type d) ++ List.filter (kept ctx) (enum_type d)
     else []).
Proof.
  destruct lists as [messages enums]. rewrite addMessages_collects.
  by destruct d.
Qed.

(** The lists a file record holds. *)
Lemma fileRecord_lists ctx description f :
  fileRecord ctx description f !! "file_messages" =
    Some (QVList (fileMessagesEnums ctx f).1) ∧
  fileRecord ctx description f !! "file_enums" =
    Some (QVList (fileMessagesEnums ctx f).2) ∧
  fileRecord ctx description f !! "file_services" = Some (QVList (fileServices ctx f)) ∧
  fileRecord ctx description f !! "file_extensions" =
    Some (QVList (fileExtensions ctx f)).
Proof.
  unfold fileRecord. destruct (fileMessagesEnums ctx f) as [messages enums].
  generalize (fileServices ctx f) (fileExtensions ctx f). intros services extensions.
  repeat split; by vm_compute.
Qed.

Lemma fileMessagesEnums_collected ctx f :
  fileMessagesEnums ctx f =
  (std_sort longNameLessThan
     (map (messageRecordOf ctx) (flat_map (keptMessages ctx) (file_message_type f))),
   std_sort longNameLessThan
     (map (enumRecordOf ctx)
        (flat_map (keptEnums ctx) (file_message_type f) ++
         List.filter (kept ctx) (file_enum_type f)))).
Proof.
  unfold fileMessagesEnums.
  rewrite (addMessages_fold_preorder ctx (file_message_type f) [] []).
  - by rewrite addEnums_kept, map_app.
  - apply List.Forall_forall. intros d _ messages enums. apply addMessages_collects.
Qed.

(** X17.  The messages, the enums and the extensions of a file record are
    the records of the elements of the file that are not excluded, each
    list arranged in ascending order of the long names: the messages of the
    file with the messages nested in them, the enums declared in these
    messages and at file level, and the extensions declared at file
    level. *)
Theorem file_lists_sorted_records ctx description (f : FileDescriptor) :
  ∃ messages enums extensions,
    fileRecord ctx description f !! "file_messages" = Some (QVList messages) ∧
    fileRecord ctx description f !! "file_enums" = Some (QVList enums) ∧
    fileRecord ctx description f !! "file_extensions" = Some (QVList extensions) ∧
    Permutation messages
      (map (messageRecordOf ctx) (flat_map (keptMessages ctx) (file_message_type f))) ∧
    ascending (entry "message_long_name") messages ∧
    Permutation enums
      (map (enumRecordOf ctx)
         (flat_map (keptEnums ctx) (file_message_type f) ++
          List.filter (kept ctx) (file_enum_type f))) ∧
    ascending (entry "enum_long_name") enums ∧
    Permutation extensions
      (map (extensionRecordOf ctx) (List.filter (kept ctx) (file_extension f))) ∧
    ascending (entry "extension_long_name") extensions.
Proof.
  exists (fileMessagesEnums ctx f).1, (fileMessagesEnums ctx f).2, (fileExtensions ctx f).
  destruct (fileRecord_lists ctx description f) as (-> & -> & _ & ->).
  repeat split.
  - rewrite fileMessagesEnums_collected. apply std_sort_Permutation.
  - apply file_messages_sorted.
  - rewrite fileMessagesEnums_collected. apply std_sort_Permutation.
  - apply file_enums_sorted.
  - unfold fileExtensions.
    rewrite (fold_left_kept ctx (extensionRecordOf ctx)
               (λ extensions x, addExtension ctx x extensions))
      by (intros; apply addExtension_kept).
    apply std_sort_Permutation.
  - apply file_extensions_sorted.
Qed.

(** X18.  The services of a file record are the records of the services
    that are not excluded, in the order in which the file declares them.
    (Up to 16 services, where [std::sort] is the insertion sort given
    above.) *)
Theorem file_services_in_declaration_order ctx description f :
  (List.length (file_service f) <= 16)%nat →
  fileRecord ctx description f !! "file_services" =
  Some (QVList (map (serviceRecordOf ctx) (List.filter (kept ctx) (file_service f)))).
Proof.
  intros Hbound. destruct (fileRecord_lists ctx description f) as (_ & _ & -> & _).
  rewrite file_services_declaration_order by done.
  by rewrite (fold_left_kept ctx (serviceRecordOf ctx)
                (λ services s, addService ctx s services))
    by (intros; apply addService_kept).
Qed.

Lemma file_services_in_declaration_order_witness :
  fileRecord generatorContext "" Examples.twoServices !! "file_services" =
  Some (QVList (map (serviceRecordOf generatorContext)
                  [Examples.service "Zeta"; Examples.service "Alpha"])).
Proof.
  apply (file_services_in_declaration_order generatorContext "" Examples.twoServices).
  simpl. lia.
Defined.

Lemma not_empty_kept {T} `{Located T} ctx (record : T → QVariant) (l : list T) :
  negb (isEmptyList (map record (List.filter (kept ctx) l))) = existsb (kept ctx) l.
Proof.
  induction l as [|d l IH]; [done|]. simpl. by destruct (kept ctx d).
Qed.

(** X19.  The fields of a message record are the records of its fields that
    are not excluded, in declaration order, and likewise the extensions
    declared inside the message; neither list is sorted.  The two flags tell
    whether there is a field, or an extension, that is not excluded. *)
Theorem message_fields_in_declaration_order ctx description (d : Descriptor) :
  let message := messageRecord ctx description d in
  message !! "message_fields" =
    Some (QVList (map (fieldRecordOf ctx) (List.filter (kept ctx) (field d)))) ∧
  message !! "message_has_fields" = Some (QVBool (existsb (kept ctx) (field d))) ∧
  message !! "message_extensions" =
    Some (QVList (map (extensionRecordOf ctx) (List.filter (kept ctx) (extension d)))) ∧
  message !! "message_has_extensions" =
    Some (QVBool (existsb (kept ctx) (extension d))).
Proof.
  cbv zeta. unfold messageRecord.
  rewrite (fold_left_kept ctx (fieldRecordOf ctx) (λ fields x, addField ctx x fields))
    by (intros; apply addField_kept).
  rewrite (fold_left_kept ctx (extensionRecordOf ctx)
             (λ extensions x, addExtension ctx x extensions))
    by (intros; apply addExtension_kept).
  cbn [app]. rewrite !not_empty_kept.
  generalize (map (fieldRecordOf ctx) (List.filter (kept ctx) (field d))).
  generalize (map (extensionRecordOf ctx) (List.filter (kept ctx) (extension d))).
  generalize (existsb (kept ctx) (field d)) (existsb (kept ctx) (extension d)).
  intros hasFields hasExtensions extensions fields.
  repeat split; by vm_compute.
Qed.

(** X20.  The values of an enum record are those of the values that are not
    excluded, in declaration order: their names, their numbers, kept as
    integers, and their descriptions. *)
Theorem enum_values_in_declaration_order ctx description (e : EnumDescriptor) :
  ∃ values,
    enumRecord ctx description e !! "enum_values" = Some (QVList values) ∧
    map (λ v, toHash v !! "value_name") values =
      map (λ d, Some (QVString (name d))) (List.filter (kept ctx) (enum_value e)) ∧
    map (λ v, toHash v !! "value_number") values =
      map (λ d, Some (QVInt (value_number d))) (List.filter (kept ctx) (enum_value e)) ∧
    map (λ v, toHash v !! "value_description") values =
      map (λ d, Some (QVString (descriptionOf ctx d).1))
        (List.filter (kept ctx) (enum_value e)).
Proof.
  exists (fold_left (addValue ctx) (enum_value e) []). split; [by vm_compute|].
  rewrite (fold_left_kept ctx
             (λ d, QVHash (<["value_description" := QVString (descriptionOf ctx d).1]>
                          (<["value_number" := QVInt (value_number d)]>
                          (<["value_name" := QVString (name d)]> ∅))))
             (addValue ctx)).
  - cbn [app]. rewrite !map_map. repeat split; apply map_ext; intros d; by vm_compute.
  - intros acc d. unfold addValue, kept. by destruct (descriptionOf ctx d) as [? []].
Qed.

(** X21.  The methods of a service record are those of the methods that are
    not excluded, in declaration order, each with the name, the full name
    and the long name of its request and response types. *)
Theorem service_methods_in_declaration_order ctx description (s : ServiceDescriptor) :
  ∃ methods,
    serviceRecord ctx description s !! "service_methods" = Some (QVList methods) ∧
    map (λ v, (entry "method_name" v, entry "method_description" v)) methods =
      map (λ m, (name m, (descriptionOf ctx m).1)) (List.filter (kept ctx) (method s)) ∧
    map (λ v, (entry "method_request_type" v, entry "method_request_full_type" v,
               entry "method_request_long_type" v)) methods =
      map (λ m, (name (input_type m), full_name (input_type m),
                 longName (Some (input_type m))))
        (List.filter (kept ctx) (method s)) ∧
    map (λ v, (entry "method_response_type" v, entry "method_response_full_type" v,
               entry "method_response_long_type" v)) methods =
      map (λ m, (name (output_type m), full_name (output_type m),
                 longName (Some (output_type m))))
        (List.filter (kept ctx) (method s)).
Proof.
  exists (fold_left (addMethod ctx) (method s) []). split; [by vm_compute|].
  rewrite (fold_left_kept ctx
     (λ m, QVHash
        (<["method_response_long_type" := QVString (longName (Some (output_type m)))]>
        (<["method_response_full_type" := QVString (full_name (output_type m))]>
        (<["method_response_type" := QVString (name (output_type m))]>
        (<["method_request_long_type" := QVString (longName (Some (input_type m)))]>
        (<["method_request_full_type" := QVString (full_name (input_type m))]>
        (<["method_request_type" := QVString (name (input_type m))]>
        (<["method_description" := QVString (descriptionOf ctx m).1]>
        (<["method_name" := QVString (name m)]> ∅)))))))))
     (addMethod ctx)).
  - cbn [app]. rewrite !map_map. repeat split; apply map_ext; intros m; by vm_compute.
  - intros acc m. unfold addMethod, kept. by destruct (descriptionOf ctx m) as [? []].
Qed.

(** ** Nothing else is left out *)

Lemma checkExcluded_excluded ctx description :
  (checkExcluded ctx description).2 = true →
  noExclude ctx = false ∧ startsWithMarker description.
Proof.
  unfold checkExcluded, startsWithMarker.
  destruct (QStr.startsWith _ _); [|done]. simpl. by destruct (noExclude ctx).
Qed.

Lemma kept_false_marked {T} `{Located T} ctx (d : T) :
  kept ctx d = false → noExclude ctx = false ∧ startsWithMarker (comments d).
Proof.
  unfold kept, descriptionOf. intros E. apply checkExcluded_excluded.
  by destruct (checkExcluded ctx (comments d)) as [? []].
Qed.

(** X22.  An element is left out of the model only when its description
    begins with the exclusion marker and the override is unset: every other
    element, and every element under [no-exclude], adds its record. *)
Theorem absent_only_when_marked (ctx : DocGeneratorContext) (e : Element) :
  absent ctx e → noExclude ctx = false ∧ marked e.
Proof.
  destruct e as [f|f|v|e|m|m|s|w f]; simpl; intros Habsent.
  - specialize (Habsent []). rewrite addField_kept in Habsent.
    destruct (kept ctx f) eqn:E; [done|by apply kept_false_marked].
  - specialize (Habsent []). rewrite addExtension_kept in Habsent.
    destruct (kept ctx f) eqn:E; [done|by apply kept_false_marked].
  - specialize (Habsent []). apply kept_false_marked.
    unfold addValue, kept in *. by destruct (descriptionOf ctx v) as [? []].
  - specialize (Habsent []). rewrite addEnum_kept in Habsent.
    destruct (kept ctx e) eqn:E; [done|by apply kept_false_marked].
  - specialize (Habsent ([], [])). rewrite addMessages_collects in Habsent.
    destruct m as [n fn ct loc fs xs nested es]. cbn [keptMessages] in Habsent.
    destruct (kept ctx _) eqn:E; [done|by apply kept_false_marked].
  - specialize (Habsent []). apply kept_false_marked.
    unfold addMethod, kept in *. by destruct (descriptionOf ctx m) as [? []].
  - specialize (Habsent []). rewrite addService_kept in Habsent.
    destruct (kept ctx s) eqn:E; [done|by apply kept_false_marked].
  - specialize (Habsent [] ""). unfold addFile, descriptionOf_file in Habsent.
    destruct (openFile w (name f)) as [text|errorString] eqn:Hopen; [|done].
    destruct (scanLines (readLines text)) as [description|] eqn:Hscan; [|done].
    pose proof (checkExcluded_excluded ctx description) as Hmarked.
    destruct (checkExcluded ctx description) as [? []]; [|done].
    destruct Hmarked as [Hflag Hmarker]; [done|]. split; [done|].
    by exists text, description.
Qed.

Lemma absent_only_when_marked_witness :
  noExclude generatorContext = false ∧ marked (MessageOf Examples.hidden).
Proof.
  apply (absent_only_when_marked generatorContext (MessageOf Examples.hidden)).
  intros [messages enums]. reflexivity.
Defined.

(** X23.  What [addFile] does for a file is what it does for the file
    without its excluded elements: an excluded message, enum, value,
    service, method, field or extension leaves no trace in the record of
    the file, and neither does anything nested in an excluded message. *)
Theorem addFile_prune w ctx (f : FileDescriptor) (files : QVariantList) (error : string) :
  addFile w ctx (pruneFile ctx f) files error = addFile w ctx f files error.
Proof.
  unfold addFile, descriptionOf_file.
  change (name (pruneFile ctx f)) with (name f).
  destruct (openFile w (name f)) as [text|errorString]; [|by rewrite fileRecord_prune].
  destruct (scanLines (readLines text)) as [description|]; [|done].
  destruct (checkExcluded ctx description) as [d []]; [done|].
  by rewrite fileRecord_prune.
Qed.

(** ** Template filters *)

(** Taking out a character takes out all its occurrences. *)
Lemma remove_character (c : ascii) (s : string) :
  QStr.remove s (String c "") =
  string_of_list_ascii (List.filter (λ x, negb (Ascii.eqb x c)) (list_ascii_of_string s)).
Proof.
  unfold QStr.remove. induction s as [|x s IH]; [done|].
  cbn [QStr.remove_from QStr.isEmpty negb andb String.length Nat.sub].
  rewrite startsWith_cons, startsWith_nil, andb_true_r.
  cbn [list_ascii_of_string List.filter]. rewrite (Ascii.eqb_sym x c).
  destruct (Ascii.eqb c x); cbn [negb]; [done|].
  cbn [string_of_list_ascii]. by rewrite IH.
Qed.

Lemma withoutBreaks_filter (s : string) :
  string_of_list_ascii
    (List.filter (λ x, negb (Ascii.eqb x "010"))
       (list_ascii_of_string
          (string_of_list_ascii
             (List.filter (λ x, negb (Ascii.eqb x "013")) (list_ascii_of_string s))))) =
  withoutBreaks s.
Proof.
  rewrite list_ascii_of_string_of_list_ascii.
  induction s as [|c s IH]; [done|].
  cbn [list_ascii_of_string List.filter withoutBreaks]. unfold QStr.isBreak.
  destruct (Ascii.eqb c "013"); cbn [negb]; [by rewrite orb_true_r|].
  cbn [List.filter]. rewrite orb_false_r.
  destruct (Ascii.eqb c "010"); cbn [negb]; [done|].
  cbn [string_of_list_ascii]. by rewrite IH.
Qed.

(** Taking out the pairs of a carriage return and a line feed leaves every
    other character where it is. *)
Lemma withoutBreaks_remove_pairs (skip : nat) (s : string) :
  skip = 0%nat ∨ (skip = 1%nat ∧ QStr.startsWith s QStr.LF = true) →
  withoutBreaks (QStr.remove_from skip s (QStr.CR +:+ QStr.LF)) =
  withoutBreaks (QStr.drop skip s).
Proof.
  change (QStr.CR +:+ QStr.LF) with (String "013" QStr.LF).
  revert skip. induction s as [|c s IH]; intros skip Hskip.
  - by destruct skip.
  - destruct Hskip as [->|[-> Hline]].
    + cbn [QStr.remove_from QStr.drop QStr.isEmpty negb andb].
      rewrite startsWith_cons.
      destruct (Ascii.eqb_spec "013" c) as [<-|Hc]; cbn [andb].
      * destruct (QStr.startsWith s QStr.LF) eqn:Hline.
        -- rewrite IH by (right; done). cbn [String.length Nat.sub].
           destruct s as [|x s]; [done|]. unfold QStr.LF in Hline.
           rewrite startsWith_cons in Hline. apply andb_prop in Hline as [Hx _].
           apply Ascii.eqb_eq in Hx as <-. done.
        -- cbn [withoutBreaks]. by rewrite IH by (by left).
      * cbn [withoutBreaks]. rewrite IH by (by left). done.
    + cbn [QStr.remove_from QStr.drop]. by rewrite IH by (by left).
Qed.

Lemma oneLine_cons (c : ascii) (s : string) :
  oneLine (String c s) ↔ QStr.isBreak c = false ∧ oneLine s.
Proof.
  unfold oneLine. cbn [list_ascii_of_string].
  apply (Forall_cons (λ c, QStr.isBreak c = false)).
Qed.

Lemma withoutBreaks_oneLine (s : string) : oneLine (withoutBreaks s).
Proof.
  induction s as [|c s IH]; [constructor|]. cbn [withoutBreaks].
  destruct (QStr.isBreak c) eqn:Hc; [done|]. by apply oneLine_cons.
Qed.

(** X24.  The filter [nobr] gives the rendered text without its line
    breaks: every carriage return and every line feed is taken out, and
    nothing else is changed. *)
Theorem nobrFilter_removes_breaks (render : string → string) (text : string) :
  Filters.nobrFilter render text = withoutBreaks (render text) ∧
  oneLine (Filters.nobrFilter render text).
Proof.
  assert (Filters.nobrFilter render text = withoutBreaks (render text)) as E.
  { unfold Filters.nobrFilter. cbv zeta. unfold QStr.CR at 2, QStr.LF at 2.
    rewrite !remove_character, withoutBreaks_filter.
    unfold QStr.remove. by rewrite withoutBreaks_remove_pairs by (by left). }
  split; [done|]. rewrite E. apply withoutBreaks_oneLine.
Qed.

Lemma isBreak_isSpace (c : ascii) : QStr.isBreak c = true → QStr.isSpace c = true.
Proof.
  unfold QStr.isBreak. intros [Hc|Hc]%orb_prop; apply Ascii.eqb_eq in Hc; by subst.
Qed.

Lemma lastBreak_oneLine (s : string) : oneLine s → QStr.lastBreak s = None.
Proof.
  induction s as [|c s IH]; [done|]. intros [Hc Hs]%oneLine_cons.
  cbn [QStr.lastBreak]. rewrite IH, Hc by done. by destruct (QStr.isSpace c).
Qed.

Lemma splitParagraphs_oneLine (s : string) :
  oneLine s → QStr.splitParagraphs_from 0 s = [s].
Proof.
  induction s as [|c s IH]; [done|]. intros [Hc Hs]%oneLine_cons.
  cbn [QStr.splitParagraphs_from]. by rewrite Hc, IH.
Qed.

(** White space that ends in a line break, in front of a line. *)
Lemma lastBreak_separator (ws : string) (c : ascii) (line : string) :
  whiteSpace ws → QStr.isBreak c = true → oneLine line →
  QStr.lastBreak (ws +:+ String c line) = Some (S (String.length ws)).
Proof.
  intros Hws Hc Hline. unfold whiteSpace in Hws.
  induction ws as [|w ws IH].
  - change ("" +:+ String c line) with (String c line). cbn [QStr.lastBreak].
    by rewrite (isBreak_isSpace c), lastBreak_oneLine, Hc.
  - cbn [list_ascii_of_string] in Hws. apply Forall_cons in Hws as [Hw Hws].
    rewrite append_cons. cbn [QStr.lastBreak String.length]. by rewrite Hw, IH.
Qed.

Lemma splitParagraphs_skip (skipped : string) (c : ascii) (rest : string) :
  QStr.splitParagraphs_from (S (String.length skipped)) (skipped +:+ String c rest) =
  QStr.splitParagraphs_from 0 rest.
Proof. induction skipped as [|x skipped IH]; [done|]. by rewrite append_cons. Qed.

(** Two lines with a separator between them. *)
Lemma splitParagraphs_two (first ws second : string) (c1 c2 : ascii) :
  oneLine first → oneLine second →
  QStr.isBreak c1 = true → QStr.isBreak c2 = true → whiteSpace ws →
  QStr.splitParagraphs (first +:+ String c1 (ws +:+ String c2 second)) =
  [first; second].
Proof.
  intros Hfirst Hsecond Hc1 Hc2 Hws. unfold QStr.splitParagraphs.
  induction first as [|c first IH].
  - change ("" +:+ ?s) with s. cbn [QStr.splitParagraphs_from].
    rewrite Hc1, lastBreak_separator by done.
    by rewrite splitParagraphs_skip, splitParagraphs_oneLine.
  - apply oneLine_cons in Hfirst as [Hc Hfirst]. rewrite append_cons.
    cbn [QStr.splitParagraphs_from]. by rewrite Hc, IH.
Qed.

(** X25.  The filters [p] and [para] put the rendered text between the
    tags of a paragraph, and close one paragraph and open the next where a
    line break is followed, after white space at most, by another line
    break.  A text on one line is one paragraph; two such texts with a
    place of this kind between them are two paragraphs.  A carriage return
    directly followed by a line feed is such a place. *)
Theorem paragraph_filters (render : string → string) (text : string) :
  (oneLine (render text) →
   Filters.pFilter render text = "<p>" +:+ render text +:+ "</p>" ∧
   Filters.paraFilter render text = "<para>" +:+ render text +:+ "</para>") ∧
  (∀ first ws second c1 c2,
     render text = first +:+ String c1 (ws +:+ String c2 second) →
     oneLine first → oneLine second →
     QStr.isBreak c1 = true → QStr.isBreak c2 = true → whiteSpace ws →
     Filters.pFilter render text = "<p>" +:+ first +:+ "</p><p>" +:+ second +:+ "</p>" ∧
     Filters.paraFilter render text =
       "<para>" +:+ first +:+ "</para><para>" +:+ second +:+ "</para>").
Proof.
  unfold Filters.pFilter, Filters.paraFilter. split.
  - intros Hline. unfold QStr.splitParagraphs. by rewrite splitParagraphs_oneLine.
  - intros first ws second c1 c2 -> Hfirst Hsecond Hc1 Hc2 Hws.
    rewrite splitParagraphs_two by done. unfold QStr.join. cbn [String.concat].
    by rewrite !append_assoc.
Qed.

Lemma paragraph_filters_witness :
  (Filters.pFilter (λ s, s) "One line." = "<p>One line.</p>" ∧
   Filters.paraFilter (λ s, s) "One line." = "<para>One line.</para>") ∧
  (Filters.pFilter (λ s, s) ("First." +:+ QStr.LF +:+ "  " +:+ QStr.LF +:+ "Second.") =
     "<p>First.</p><p>Second.</p>" ∧
   Filters.paraFilter (λ s, s) ("First." +:+ QStr.LF +:+ "  " +:+ QStr.LF +:+ "Second.") =
     "<para>First.</para><para>Second.</para>") ∧
  (Filters.pFilter (λ s, s) ("First." +:+ QStr.CR +:+ QStr.LF +:+ "Second.") =
     "<p>First.</p><p>Second.</p>" ∧
   Filters.paraFilter (λ s, s) ("First." +:+ QStr.CR +:+ QStr.LF +:+ "Second.") =
     "<para>First.</para><para>Second.</para>").
Proof.
  split; [|split].
  - apply (proj1 (paragraph_filters (λ s, s) "One line.")). repeat constructor.
  - apply (proj2 (paragraph_filters (λ s, s)
                    ("First." +:+ QStr.LF +:+ "  " +:+ QStr.LF +:+ "Second."))
             "First." "  " "Second." "010"%char "010"%char);
      try reflexivity; repeat constructor.
  - apply (proj2 (paragraph_filters (λ s, s)
                    ("First." +:+ QStr.CR +:+ QStr.LF +:+ "Second."))
             "First." "" "Second." "013"%char "010"%char);
      try reflexivity; repeat constructor.
Defined.

(** ** The message for a template that does not render *)

Lemma without_append (c : ascii) (a b : string) :
  without c (a +:+ b) ↔ without c a ∧ without c b.
Proof.
  induction a as [|x a IH].
  - change ("" +:+ b) with b. split; [|by intros [_ ?]]. intros Hb. split; [|done].
    unfold without. simpl. apply not_elem_of_nil.
  - rewrite append_cons, !without_cons, IH. tauto.
Qed.

Lemma string_of_uint_digits (d : Decimal.uint) :
  without "%" (NilEmpty.string_of_uint d).
Proof.
  induction d; simpl; [unfold without; simpl; apply not_elem_of_nil|..];
    by apply without_cons.
Qed.

(** A number is printed without a percent sign. *)
Lemma number_without_percent (n : Z) : without "%" (QStr.number n).
Proof.
  unfold QStr.number, NilZero.string_of_int, NilZero.string_of_uint.
  destruct n as [|p|p]; cbn [Z.to_int].
  - compute_done.
  - destruct (Pos.to_uint p) eqn:E; [compute_done|..]; rewrite <- E;
      apply string_of_uint_digits.
  - apply without_cons. split; [done|].
    destruct (Pos.to_uint p) eqn:E; [compute_done|..]; rewrite <- E;
      apply string_of_uint_digits.
Qed.

(** X26.  The message for a template that does not render is the place of
    the error, its position and its text, the first two followed by a
    colon; the place is the template as [render] passes it, that is the
    text of the template, with the partial after it if the error is in a
    partial.  (For a template and a partial without a percent sign.) *)
Theorem formattedError_message (template : string) (renderer : Rendering) :
  without "%" template → without "%" (errorPartial renderer) →
  formattedError template renderer =
  errorLocation template renderer +:+ ":" +:+ QStr.number (errorPos renderer) +:+
  ": " +:+ renderer_error renderer.
Proof.
  intros Htemplate Hpartial. unfold formattedError.
  assert ((if negb (QStr.isEmpty (errorPartial renderer))
           then template +:+ " in partial " +:+ errorPartial renderer
           else template) = errorLocation template renderer) as ->
    by (unfold errorLocation; by destruct (QStr.isEmpty _)).
  assert (without "%" (errorLocation template renderer)) as Hlocation.
  { unfold errorLocation. destruct (QStr.isEmpty _); [done|].
    rewrite !without_append. repeat split; try done. compute_done. }
  generalize dependent (errorLocation template renderer). intros location Hlocation.
  change (QStr.arg "%1:%2: %3" location) with (location +:+ ":%2: %3").
  rewrite (arg_without location ":%2: %3" _ 2) by done.
  change (QStr.replaceEscapes 2 ?a (QStr.argPieces ":%2: %3"))
    with (":" +:+ a +:+ ": %3").
  set (number := QStr.number (errorPos renderer)).
  assert (location +:+ ":" +:+ number +:+ ": %3" =
          (location +:+ ":" +:+ number +:+ ": ") +:+ "%3") as ->.
  { change ": %3" with (": " +:+ "%3"). by rewrite !append_assoc. }
  rewrite (arg_without (location +:+ ":" +:+ number +:+ ": ") "%3" _ 3).
  - change (QStr.replaceEscapes 3 ?a (QStr.argPieces "%3")) with (a +:+ "").
    by rewrite append_nil_r, !append_assoc.
  - rewrite !without_append. repeat split; try done; try compute_done.
    apply number_without_percent.
  - done.
Qed.

Lemma formattedError_message_witness :
  formattedError "{{#files}}" Examples.brokenTemplate = "{{#files}}:10: Unclosed section".
Proof.
  apply (formattedError_message "{{#files}}" Examples.brokenTemplate); compute_done.
Defined.

(** ** The shape of the parameter *)

Lemma split_not_nil (c : ascii) (s : string) : QStr.split c s ≠ [].
Proof.
  induction s as [|x s IH]; [done|]. cbn [QStr.split].
  destruct (Ascii.eqb x c); [done|]. by destruct (QStr.split c s).
Qed.

(** There is one token more than there are separators. *)
Lemma split_length (c : ascii) (s : string) :
  List.length (QStr.split c s) = S (occurrences c s).
Proof.
  induction s as [|x s IH]; [done|]. cbn [QStr.split occurrences].
  destruct (Ascii.eqb x c); cbn [List.length]; [by rewrite IH|].
  pose proof (split_not_nil c s). destruct (QStr.split c s); [done|].
  cbn [List.length] in *. lia.
Qed.

(** The tokens joined by the separator are the text that was split. *)
Lemma join_split (c : ascii) (s : string) :
  QStr.join (String c "") (QStr.split c s) = s.
Proof.
  induction s as [|x s IH]; [done|]. cbn [QStr.split].
  pose proof (split_not_nil c s) as Hne.
  destruct (Ascii.eqb_spec x c) as [->|Hx].
  - unfold QStr.join in *. cbn [String.concat].
    destruct (QStr.split c s) eqn:E; [done|]. by rewrite IH.
  - unfold QStr.join in *. destruct (QStr.split c s) as [|t [|t' ts]]; [done|..].
    + cbn [String.concat] in *. by rewrite IH.
    + cbn [String.concat] in *. by rewrite <- IH.
Qed.

Lemma split_append (c : ascii) (a b : string) :
  QStr.split c (a +:+ String c b) = QStr.split c a ++ QStr.split c b.
Proof.
  induction a as [|x a IH].
  - change ("" +:+ String c b) with (String c b). cbn [QStr.split app].
    by rewrite Ascii.eqb_refl.
  - rewrite append_cons. cbn [QStr.split]. rewrite IH.
    pose proof (split_not_nil c a) as Hne.
    destruct (Ascii.eqb x c); [done|]. by destruct (QStr.split c a).
Qed.

Lemma occurrences_append (c : ascii) (a b : string) :
  occurrences c (a +:+ b) = (occurrences c a + occurrences c b)%nat.
Proof.
  induction a as [|x a IH]; [done|]. rewrite append_cons. cbn [occurrences].
  rewrite IH. lia.
Qed.

(** X27.  The parameter is accepted exactly when it holds one comma, or
    two commas and ends in [,no-exclude]; the files that can be read and
    the context have no part in this. *)
Theorem parameter_accepted_iff w ctx (parameter error : string) :
  (parseParameter w ctx parameter error).1.1 = true ↔
  occurrences "," parameter = 1%nat ∨
  (occurrences "," parameter = 2%nat ∧ ∃ q, parameter = q +:+ ",no-exclude").
Proof.
  unfold parseParameter. rewrite split_length.
  destruct (occurrences "," parameter) as [|[|[|n]]] eqn:Hcommas;
    cbn [Nat.eqb negb andb].
  - split; [done|]. by intros [|[]].
  - split; [by left|]. intros _. by destruct (if negb _ then _ else _).
  - destruct (String.eqb_spec (at_ (QStr.split "," parameter) 2) "no-exclude")
      as [Hthird|Hthird]; cbn [negb].
    + split; [|intros _; by destruct (if negb _ then _ else _)].
      intros _. right. split; [done|].
      pose proof (split_length "," parameter) as Hsize. rewrite Hcommas in Hsize.
      pose proof (join_split "," parameter) as Hjoin.
      destruct (QStr.split "," parameter) as [|t0 [|t1 [|t2 [|]]]]; try done.
      cbn in Hthird. subst t2. exists (t0 +:+ "," +:+ t1).
      rewrite <- Hjoin. unfold QStr.join. cbn [String.concat].
      by rewrite !append_assoc.
    + split; [done|]. intros [|[_ [q ->]]]; [done|]. destruct Hthird.
      change (q +:+ ",no-exclude") with (q +:+ String "," "no-exclude") in *.
      rewrite split_append. rewrite occurrences_append in Hcommas.
      pose proof (split_length "," q) as Hsize.
      destruct (QStr.split "," q) as [|t0 [|t1 [|]]]; cbn in Hsize, Hcommas |- *;
        try done; lia.
  - split; [done|]. intros [|[]]; done.
Qed.

(** ** A template that cannot be read *)

(** X28.  When the template the parameter names is not a bundled format
    and cannot be opened, the parameter still parses, with an empty
    template, and the call goes on to add its file: only then does it
    fail, with a message made of the name of the template and the text of
    the failure (for a name without a percent sign).  Nothing is rendered
    or written, not even when the file is the only one. *)
Theorem Generate_template_unreadable
  w engine ctx (f : FileDescriptor) parameter parsedFiles selector out errorString :
  isFirst f parsedFiles = true →
  QStr.split "," parameter = [selector; out] →
  selector ≠ "json" → selector ∉ supportedFormats w →
  openFile w selector = inr errorString → without "%" selector →
  readable w f →
  parseParameter w ctx parameter "" =
    (true,
     {| template_ := ""; outputFileName := out; noExclude := false; files := files ctx |},
     selector +:+ ": " +:+ errorString) ∧
  ∃ o, Generate w engine ctx f parameter parsedFiles "" = Some o ∧
       succeeded o = false ∧
       errorMessage o = selector +:+ ": " +:+ errorString ∧
       rendered o = false ∧ output o = None.
Proof.
  intros Hfirst Htokens Hjson Hbundled Hopen Hname Hreadable.
  assert (parseParameter w ctx parameter "" =
          (true,
           {| template_ := ""; outputFileName := out; noExclude := false;
              files := files ctx |},
           selector +:+ ": " +:+ errorString)) as Hparse.
  { unfold parseParameter. rewrite Htokens. cbn [List.length Nat.eqb negb andb at_ nth].
    apply String.eqb_neq in Hjson. rewrite Hjson. cbn [negb].
    unfold readTemplate. rewrite bool_decide_eq_false_2 by done.
    by rewrite Hopen, open_failure_message. }
  split; [done|].
  unfold Generate, configure. rewrite Hfirst, Hparse. cbn [negb files].
  rewrite (addFile_readable _ _ _ _ _ Hreadable).
  assert (QStr.isEmpty (selector +:+ ": " +:+ errorString) = false) as ->
    by by destruct selector.
  eexists. by split.
Qed.

Lemma Generate_template_unreadable_witness :
  parseParameter Examples.world generatorContext "custom.mustache,out.html" "" =
    (true,
     {| template_ := ""; outputFileName := "out.html"; noExclude := false; files := [] |},
     "custom.mustache: No such file or directory") ∧
  ∃ o, Generate Examples.world Examples.engine generatorContext
         (Examples.file "b.proto" [] []) "custom.mustache,out.html"
         [Examples.file "b.proto" [] []] "" = Some o ∧
       succeeded o = false ∧
       errorMessage o = "custom.mustache: No such file or directory" ∧
       rendered o = false ∧ output o = None.
Proof.
  apply (Generate_template_unreadable Examples.world Examples.engine generatorContext
           (Examples.file "b.proto" [] []) "custom.mustache,out.html"
           [Examples.file "b.proto" [] []] "custom.mustache" "out.html"
           "No such file or directory").
  - reflexivity.
  - reflexivity.
  - discriminate.
  - compute_done.
  - reflexivity.
  - compute_done.
  - exists ("package pkg;" +:+ QStr.LF), "". split; reflexivity.
Defined.

(** ** What a call leaves of the context *)

(** X29.  [render] leaves the context as it is.  When it succeeds, it
    leaves the error message as it is and prints one text to the output
    file of the context; when it fails, it writes nothing. *)
Theorem render_writes_iff_succeeds w engine ctx (error : string) :
  context (render w engine ctx error) = ctx ∧
  (succeeded (render w engine ctx error) = true ↔
   ∃ text, output (render w engine ctx error) = Some (outputFileName ctx, text)) ∧
  (succeeded (render w engine ctx error) = true →
   errorMessage (render w engine ctx error) = error) ∧
  (succeeded (render w engine ctx error) = false ↔
   output (render w engine ctx error) = None).
Proof.
  split; [apply render_context|]. unfold render.
  destruct (QStr.isEmpty _).
  - destruct (toJson _ _) as [result|]; cbn.
    + repeat split; try done. by exists result.
    + repeat split; try done. by intros [? ?].
  - destruct (openFile _ _) as [text|errorString]; cbn.
    + destruct (negb _); cbn.
      * repeat split; try done. by intros [? ?].
      * repeat split; try done. by eexists.
    + repeat split; try done. by intros [? ?].
Qed.

Lemma addFile_appends w ctx (f : FileDescriptor) files error files' error' :
  addFile w ctx f files error = Some (files', error') →
  ∃ records, files' = files ++ records ∧ (List.length records <= 1)%nat.
Proof.
  unfold addFile. destruct (descriptionOf_file w ctx f) as [[message|d []]|]; [..|done].
  - intros [= <- <-]. eexists. split; [done|]. simpl. lia.
  - intros [= <- <-]. exists []. split; [by rewrite app_nil_r|]. simpl. lia.
  - intros [= <- <-]. eexists. split; [done|]. simpl. lia.
Qed.

(** X30.  A call of [Generate] never removes or changes a file record
    collected before: it appends one record at most.  Only the call for
    the first file touches the template, the output file name and the
    exclusion override. *)
Theorem Generate_accumulates
  w engine ctx (f : FileDescriptor) parameter parsedFiles error o :
  Generate w engine ctx f parameter parsedFiles error = Some o →
  (∃ records,
     files (context o) = files ctx ++ records ∧ (List.length records <= 1)%nat) ∧
  (isFirst f parsedFiles = false →
   template_ (context o) = template_ ctx ∧
   outputFileName (context o) = outputFileName ctx ∧
   noExclude (context o) = noExclude ctx).
Proof.
  unfold Generate, configure.
  assert (∃ ctx' error' parsed,
            (if isFirst f parsedFiles then parseParameter w ctx parameter error
             else (true, ctx, error)) = (parsed, ctx', error') ∧
            files ctx' = files ctx ∧
            (isFirst f parsedFiles = false → ctx' = ctx))
    as (ctx' & error' & parsed & -> & Hfiles & Hsame).
  { destruct (isFirst f parsedFiles).
    - pose proof (parseParameter_files w ctx parameter error) as Hfiles.
      destruct (parseParameter w ctx parameter error) as [[parsed ctx'] error'].
      by exists ctx', error', parsed.
    - by exists ctx, error, true. }
  destruct parsed; cbn [negb].
  - destruct (addFile w ctx' f (files ctx') error') as [[files' e]|] eqn:Hadd; [|done].
    apply addFile_appends in Hadd as (records & -> & Hlength).
    assert (∀ o', context o' = withFiles ctx' (files ctx' ++ records) →
                  (∃ records0, files (context o') = files ctx ++ records0 ∧
                               (List.length records0 <= 1)%nat) ∧
                  (isFirst f parsedFiles = false →
                   template_ (context o') = template_ ctx ∧
                   outputFileName (context o') = outputFileName ctx ∧
                   noExclude (context o') = noExclude ctx)) as Hcontext.
    { intros o' ->. split.
      - exists records. cbn. by rewrite Hfiles.
      - intros Hfirst. by rewrite Hsame. }
    destruct (negb _); [intros [= <-]; by apply Hcontext|].
    destruct (isLast f parsedFiles); intros [= <-]; apply Hcontext; [|done].
    apply render_context.
  - intros [= <-]. cbn. split.
    + exists []. rewrite app_nil_r. split; [done|]. simpl. lia.
    + intros Hfirst. by rewrite Hsame.
Qed.

Lemma Generate_accumulates_witness :
  (∃ records,
     files (withFiles Examples.htmlContext
              [QVString "a"; QVHash (fileRecord Examples.htmlContext ""
                                       (Examples.file "b.proto" [] []))]) =
     files (withFiles Examples.htmlContext [QVString "a"]) ++ records ∧
     (List.length records <= 1)%nat) ∧
  (isFirst (Examples.file "b.proto" [] []) Examples.threeFiles = false →
   template_ (withFiles Examples.htmlContext
                [QVString "a"; QVHash (fileRecord Examples.htmlContext ""
                                         (Examples.file "b.proto" [] []))]) =
     template_ (withFiles Examples.htmlContext [QVString "a"]) ∧
   outputFileName (withFiles Examples.htmlContext
                     [QVString "a"; QVHash (fileRecord Examples.htmlContext ""
                                              (Examples.file "b.proto" [] []))]) =
     outputFileName (withFiles Examples.htmlContext [QVString "a"]) ∧
   noExclude (withFiles Examples.htmlContext
                [QVString "a"; QVHash (fileRecord Examples.htmlContext ""
                                         (Examples.file "b.proto" [] []))]) =
     noExclude (withFiles Examples.htmlContext [QVString "a"])).
Proof.
  refine (Generate_accumulates Examples.world Examples.engine
            (withFiles Examples.htmlContext [QVString "a"])
            (Examples.file "b.proto" [] []) "html,index.html" Examples.threeFiles ""
            {| succeeded := true;
               context :=
                 withFiles Examples.htmlContext
                   [QVString "a"; QVHash (fileRecord Examples.htmlContext ""
                                            (Examples.file "b.proto" [] []))];
               errorMessage := ""; rendered := false; output := None |} _).
  by vm_compute.
Defined.


(** ** Calls that fail *)

Lemma Generate_open_failure_witness :
  ∃ o, Generate Examples.world Examples.engine generatorContext
         (Examples.file "missing.proto" [] []) "html,index.html"
         [Examples.file "missing.proto" [] []] "" = Some o ∧
       succeeded o = false ∧
       errorMessage o = "missing.proto: No such file or directory" ∧
       rendered o = false ∧ output o = None.
Proof.
  apply (Generate_open_failure Examples.world Examples.engine generatorContext
           (Examples.file "missing.proto" [] []) "html,index.html"
           [Examples.file "missing.proto" [] []] "" Examples.htmlContext ""
           "No such file or directory").
  - reflexivity.
  - reflexivity.
  - compute_done.
Defined.

Lemma run_renders_last_witness :
  (rendered Examples.lastCall = true → 3%nat = List.length Examples.threeFiles) ∧
  (output Examples.lastCall ≠ None →
   3%nat = List.length Examples.threeFiles ∧ succeeded Examples.lastCall = true).
Proof.
  apply (run_renders_last Examples.world Examples.engine "html,index.html"
           Examples.threeFiles Examples.threeCalls 2 Examples.lastCall).
  - compute_done.
  - by vm_compute.
  - by vm_compute.
Defined.
